(** * AsyncAgentic: the tool-calling agent loop and the token counters

    A shallow embedding of [AsyncAgentic/Agents/AsyncOpenAISimpleAgent.py]
    and [AsyncAgentic/Utils/ContextHandler.py].

    Python objects are values of the type [value]; dictionaries are finite
    maps with string keys.  Coroutines become functions in a state and
    exception monad over the agent's mutable fields and the world outside
    the agent (tools, hook callbacks, the model backend, the clock and the
    event loop).  A ghost trace records the hook emissions, backend calls
    and tool invocations in the order they happen. *)

From stdpp Require Import gmap strings list.
From Stdlib Require Import ZArith QArith.

Local Set Warnings "-register-all".
Local Close Scope Q_scope.
Local Open Scope string_scope.
Local Open Scope list_scope.

(** ** Python values *)

Inductive value : Type :=
| VNone
| VBool (b : bool)
| VInt (z : Z)
| VStr (s : string)
| VList (l : list value)
| VDict (d : gmap string value).

(** [bool(v)]: the truth value Python gives an object in [if v] and [not v]. *)
Definition truthy (v : value) : bool :=
  match v with
  | VNone => false
  | VBool b => b
  | VInt z => negb (Z.eqb z 0)
  | VStr s => negb (String.eqb s "")
  | VList l => match l with [] => false | _ :: _ => true end
  | VDict d => negb (Nat.eqb (size d) 0)
  end.

(** [v == s] for a [str] [s]: only a string with the same characters is equal. *)
Definition is_str (v : value) (s : string) : bool :=
  match v with
  | VStr s' => String.eqb s' s
  | _ => false
  end.

(** [isinstance(v, dict)] *)
Definition is_dict (v : value) : bool :=
  match v with
  | VDict _ => true
  | _ => false
  end.

(** [key in v] for a dictionary [v]. *)
Definition has_key (v : value) (key : string) : bool :=
  match v with
  | VDict d => bool_decide (is_Some (d !! key))
  | _ => false
  end.

(** ** Exceptions

    Every exception the code meets is an instance of [Exception]; it is kept
    as its class name and the text [str(e)]. *)

Inductive exn : Type :=
| Exception (cls : string) (msg : string).

Definition str_exn (e : exn) : string :=
  match e with
  | Exception _ msg => msg
  end.

Definition ValueError (msg : string) : exn := Exception "ValueError" msg.
Definition TypeError (msg : string) : exn := Exception "TypeError" msg.
Definition KeyError (key : string) : exn := Exception "KeyError" ("'" +:+ key +:+ "'").

(** A call either returns or raises. *)
Inductive outcome (A : Type) : Type :=
| Return (a : A)
| Raise (e : exn).

Arguments Return {A} a.
Arguments Raise {A} e.

Definition bind_outcome {A B : Type} (x : outcome A) (k : A -> outcome B) : outcome B :=
  match x with
  | Raise e => Raise e
  | Return a => k a
  end.

Notation "'let?' x ':=' m 'in' k" := (bind_outcome m (fun x => k))
  (at level 10, x name, m at level 100, k at level 200).

(** [type(v).__name__] *)
Definition type_name (v : value) : string :=
  match v with
  | VNone => "NoneType"
  | VBool _ => "bool"
  | VInt _ => "int"
  | VStr _ => "str"
  | VList _ => "list"
  | VDict _ => "dict"
  end.

(** [v[key]] for a [str] [key]: a dictionary looks the key up, a string and
    a list want an integer, and the other values cannot be subscripted (the
    texts are those of CPython 3.11). *)
Definition getitem (v : value) (key : string) : outcome value :=
  match v with
  | VDict d =>
      match d !! key with
      | Some x => Return x
      | None => Raise (KeyError key)
      end
  | VStr _ => Raise (TypeError "string indices must be integers, not 'str'")
  | VList _ => Raise (TypeError "list indices must be integers or slices, not str")
  | v => Raise (TypeError ("'" +:+ type_name v +:+ "' object is not subscriptable"))
  end.

(** [v.get(key)] for a dictionary [v] *)
Definition dict_get (v : value) (key : string) : value :=
  match v with
  | VDict d => default VNone (d !! key)
  | _ => VNone
  end.

(** A dictionary display [{k1: v1, ...}] with distinct keys. *)
Definition dict (l : list (string * value)) : gmap string value := list_to_map l.

(** ** Objects of the model backend and of the dispatcher *)

(** A tool call of an assistant reply: [tool_call.id],
    [tool_call.function.name] and [tool_call.function.arguments]. *)
Record tool_call : Type := {
  tc_id : string;
  tc_name : string;
  tc_arguments : value;
}.

(** The reply of the model backend: [response.choices[0].message.content],
    [response.choices[0].message.tool_calls] ([None] and the empty list are
    both the empty list here, the code only tests its truth value and
    iterates over it) and [response.usage.model_dump()]. *)
Record response : Type := {
  resp_content : value;
  resp_tool_calls : list tool_call;
  resp_usage : value;
}.

(** The dictionary [_execute_tool] returns. *)
Record tool_result : Type := {
  tool_call_id : string;
  res_name : string;
  res_result : value;
}.

(** The dictionary [_format_response] returns. *)
Record turn_result : Type := {
  stop_reason : string;
  history_messages : list value;
  history_simplified : list value;
  tr_agent_name : string;
  tr_timestamp : string;
  tr_output : value;
  tr_usage : value;
}.

(** Ghost events. *)
Inductive event : Type :=
| EvHook (hook : string) (payload : gmap string value) (fault : option exn)
| EvBackend (messages : list value) (tools : option (list value))
| EvCall (tool : string) (kwargs : gmap string value).

(** ** What the code takes from outside the repository *)

Class Externals : Type := {
  (** the state of everything outside the agent *)
  W : Type;
  (** [json.loads] *)
  json_loads : string -> outcome value;
  (** the built-in [str] on the values tools return *)
  py_str : value -> string;
  (** [datetime.now().isoformat()] *)
  now : W -> string;
  (** the order in which the event loop resumes the tasks of a [gather] *)
  schedule : W -> list nat;
  (** the external actor's [request_stop()]: after how many consultations of
      the cancellation monitor it arrives, if it ever does *)
  stop_after : option nat;
}.

(** ** The agent *)

Section Model.
Context `{Externals}.

(** Code of the outside world: it reads and changes the world and either
    returns or raises. *)
Definition effect (A : Type) : Type := W -> outcome A * W.

(** An entry of [tool_registry]: the keys ["name"], ["function_schema"] and
    ["func"] of the dictionary. *)
Record tool : Type := {
  tool_name : string;
  function_schema : value;
  func : gmap string value -> effect value;
}.

(** The fields of the agent object that a turn reads, the hook registry and
    the client of the model backend. *)
Record agent : Type := {
  agent_name : string;
  user_id : value;
  chat_id : value;
  system_prompt : value;
  model : string;
  tool_registry : list tool;
  execute_function_concurrently : bool;
  hooks : string -> list (gmap string value -> effect unit);
  client_send_message :
    list value -> string -> option (list value) -> value -> value -> effect response;
}.

(** What a turn changes: the world, [self._message_history], the number of
    times the cancellation monitor has been consulted, and the ghost trace. *)
Record state : Type := {
  world : W;
  _message_history : list value;
  polls : nat;
  trace : list event;
}.

Definition set_world (w : W) (s : state) : state :=
  {| world := w; _message_history := _message_history s;
     polls := polls s; trace := trace s |}.

Definition set_history (h : list value) (s : state) : state :=
  {| world := world s; _message_history := h;
     polls := polls s; trace := trace s |}.

Definition set_polls (n : nat) (s : state) : state :=
  {| world := world s; _message_history := _message_history s;
     polls := n; trace := trace s |}.

Definition log (ev : event) (s : state) : state :=
  {| world := world s; _message_history := _message_history s;
     polls := polls s; trace := trace s ++ [ev] |}.

(** *** The monad of coroutines *)

Definition M (A : Type) : Type := state -> outcome A * state.

Definition ret {A : Type} (a : A) : M A := fun s => (Return a, s).

Definition raise {A : Type} (e : exn) : M A := fun s => (Raise e, s).

Definition bind {A B : Type} (m : M A) (k : A -> M B) : M B :=
  fun s =>
    match m s with
    | (Return a, s') => k a s'
    | (Raise e, s') => (Raise e, s')
    end.

(** [try: m  except Exception as e: h e] *)
Definition try_except {A : Type} (m : M A) (h : exn -> M A) : M A :=
  fun s =>
    match m s with
    | (Raise e, s') => h e s'
    | (Return a, s') => (Return a, s')
    end.

Definition lift {A : Type} (x : outcome A) : M A := fun s => (x, s).

(** Running code of the outside world on the current world. *)
Definition perform {A : Type} (f : effect A) : M A :=
  fun s => let '(r, w) := f (world s) in (r, set_world w s).

Definition emit (ev : event) : M unit := fun s => (Return tt, log ev s).

Definition get_now : M string := fun s => (Return (now (world s)), s).

Definition get_history : M (list value) := fun s => (Return (_message_history s), s).

Definition put_history (h : list value) : M unit := fun s => (Return tt, set_history h s).

Notation "'let*' x ':=' m 'in' k" := (bind m (fun x => k))
  (at level 10, x name, m at level 100, k at level 200).
Notation "'let*' ' p ':=' m 'in' k" := (bind m (fun x => match x with p => k end))
  (at level 10, p strict pattern, m at level 100, k at level 200).

Variable a : agent.

(** *** Hooks and the cancellation monitor *)

(** The callbacks of one event, in registration order; the first one that
    raises ends the emission. *)
Fixpoint run_callbacks (cbs : list (gmap string value -> effect unit))
    (payload : gmap string value) : effect unit :=
  fun w =>
    match cbs with
    | [] => (Return tt, w)
    | cb :: rest =>
        match cb payload w with
        | (Return _, w') => run_callbacks rest payload w'
        | (Raise e, w') => (Raise e, w')
        end
    end.

(** Modelled from the spec: [BaseAgent._trigger_hook] is not among the
    sources.  The callbacks registered for the event run in registration
    order, and a callback's failure is not caught by the dispatcher: it
    propagates to the triggering call site. *)
Definition _trigger_hook (hook : string) (payload : gmap string value) : M unit :=
  fun s =>
    match run_callbacks (hooks a hook) payload (world s) with
    | (Return _, w) => (Return tt, log (EvHook hook payload None) (set_world w s))
    | (Raise e, w) => (Raise e, log (EvHook hook payload (Some e)) (set_world w s))
    end.

(** Whether a consultation of the monitor, [n] earlier ones having taken
    place, sees a stop request. *)
Definition stop_seen (n : nat) : bool :=
  match stop_after with
  | Some k => bool_decide (k <= n)
  | None => false
  end.

(** Modelled from the spec: [BaseAgent._run_with_stop_handler] is not among
    the sources.  The monitor is cooperative: it never preempts the phase it
    guards, and it is consulted immediately after the phase returns; a fault
    of the phase propagates. *)
Definition _run_with_stop_handler {A : Type} (phase : M A) : M (A * bool) :=
  let* result := phase in
  fun s => (Return (result, stop_seen (polls s)), set_polls (S (polls s)) s).

(** *** The history store *)

Definition _add_to_history (message : value) : M unit :=
  let* h := get_history in
  put_history (h ++ [message]).

Definition _get_complete_history : M (list value) := get_history.

(** The [for msg in history] loop of [_validate_history]: the first entry
    that is refused decides the error. *)
Fixpoint check_messages (history : list value) : outcome unit :=
  match history with
  | [] => Return tt
  | msg :: rest =>
      if negb (is_dict msg) then
        Raise (ValueError "History messages must be dictionaries")
      else if negb (has_key msg "role") then
        Raise (ValueError "History messages must have 'role' field")
      else if negb (has_key msg "content") then
        Raise (ValueError "History messages must have 'content' field")
      else check_messages rest
  end.

Definition _validate_history (history : value) : outcome (list value) :=
  if negb (truthy history) then Return []
  else
    match history with
    | VList l =>
        let? _ := check_messages l in
        Return l
    | _ => Raise (ValueError "History must be a list")
    end.

Definition system_message : value :=
  VDict (dict [("role", VStr "system"); ("content", system_prompt a)]).

Definition user_message (message : string) : value :=
  VDict (dict [("role", VStr "user"); ("content", VStr message)]).

(** [history] is [None] or a list; [not history] holds of both [None] and
    the empty list. *)
Definition _prepare_messages (message : string) (history : option (list value))
    : outcome (list value) :=
  let h := default [] history in
  let messages : list value := [] in
  let? no_system :=
    match h with
    | [] => Return true
    | first :: _ =>
        let? role := getitem first "role" in
        Return (negb (is_str role "system"))
    end in
  let messages := if no_system then messages ++ [system_message] else messages in
  let messages := messages ++ h in
  let? fresh :=
    match last h with
    | None => Return true
    | Some final =>
        let? c := getitem final "content" in
        Return (negb (is_str c message))
    end in
  let messages := if fresh then messages ++ [user_message message] else messages in
  Return messages.

(** *** Executing one tool *)

(** [self._tool_map]: a later entry of the registry replaces an earlier one
    of the same name. *)
Definition _tool_map : gmap string tool :=
  foldl (fun m t => <[tool_name t := t]> m) ∅ (tool_registry a).

(** The fields every tool-level hook payload has. *)
Definition call_payload (tc : tool_call) : gmap string value :=
  dict [("function", VStr (tc_name tc)); ("user_id", user_id a);
        ("chat_id", chat_id a); ("agent_name", VStr (agent_name a))].

(** The keyword arguments of the call: the decoded arguments of the model,
    then the agent's three fields, a later key replacing an earlier one. *)
Definition build_args (tc : tool_call) : outcome (gmap string value) :=
  let? arguments :=
    match tc_arguments tc with
    | VStr s => json_loads s
    | v => Return v
    end in
  match arguments with
  | VDict d =>
      Return (<["agent_name" := VStr (agent_name a)]>
                (<["chat_id" := chat_id a]> (<["user_id" := user_id a]> d)))
  | v => Raise (TypeError ("'" +:+ type_name v +:+ "' object is not a mapping"))
  end.

(** The dictionary [args] is built and the callable [tool["func"]] is called
    with its entries as keyword arguments and awaited. *)
Definition invoke (t : tool) (tc : tool_call) : M value :=
  let* args := lift (build_args tc) in
  let* _ := emit (EvCall (tool_name t) args) in
  perform (func t args).

(** The rest of the [try] block once the callable has returned. *)
Definition on_success (tc : tool_call) (result : value) : M tool_result :=
  let* _ := _trigger_hook "on_function_call_end"
              (<["result" := result]> (call_payload tc)) in
  ret {| tool_call_id := tc_id tc; res_name := tc_name tc; res_result := result |}.

(** The [except Exception as e] block. *)
Definition on_failure (tc : tool_call) (e : exn) : M tool_result :=
  let* _ := _trigger_hook "on_function_call_error"
              (<["error" := VStr (str_exn e)]> (call_payload tc)) in
  ret {| tool_call_id := tc_id tc; res_name := tc_name tc;
         res_result := VStr (str_exn e) |}.

Definition _execute_tool (t : tool) (tc : tool_call) : M tool_result :=
  let* _ := _trigger_hook "on_function_call_start" (call_payload tc) in
  try_except
    (let* result := invoke t tc in
     on_success tc result)
    (on_failure tc).

(** *** Sequential dispatch *)

(** The [for tool_call in tool_calls] loop with its accumulator.  The test
    [if result] always passes: [_execute_tool] returns a dictionary of three
    keys. *)
Fixpoint sequential_loop (tool_calls : list tool_call) (results : list tool_result)
    : M (list tool_result) :=
  match tool_calls with
  | [] => ret results
  | tc :: rest =>
      match _tool_map !! tc_name tc with
      | Some t =>
          let* result := _execute_tool t tc in
          sequential_loop rest (results ++ [result])
      | None => sequential_loop rest results
      end
  end.

Definition _execute_tools_sequential (tool_calls : list tool_call) : M (list tool_result) :=
  sequential_loop tool_calls [].

(** *** Concurrent dispatch *)

(** A coroutine of [_execute_tool] between two of its [await]s. *)
Inductive task : Type :=
| TStart (t : tool) (tc : tool_call)
| TBody (t : tool) (tc : tool_call)
| TEnd (tc : tool_call) (result : value)
| TExcept (tc : tool_call) (e : exn)
| TDone (r : outcome tool_result).

(** The event loop resumes a task: it runs up to its next [await]. *)
Definition step (k : task) : state -> task * state :=
  fun s =>
    match k with
    | TStart t tc =>
        match _trigger_hook "on_function_call_start" (call_payload tc) s with
        | (Return _, s') => (TBody t tc, s')
        | (Raise e, s') => (TDone (Raise e), s')
        end
    | TBody t tc =>
        match invoke t tc s with
        | (Return result, s') => (TEnd tc result, s')
        | (Raise e, s') => (TExcept tc e, s')
        end
    | TEnd tc result =>
        match on_success tc result s with
        | (Return r, s') => (TDone (Return r), s')
        | (Raise e, s') => (TExcept tc e, s')
        end
    | TExcept tc e =>
        let '(r, s') := on_failure tc e s in (TDone r, s')
    | TDone r => (TDone r, s)
    end.

(** A task run from where it stands to its end, nothing else in between. *)
Definition resume (k : task) : M tool_result :=
  match k with
  | TStart t tc => _execute_tool t tc
  | TBody t tc =>
      try_except
        (let* result := invoke t tc in
         on_success tc result)
        (on_failure tc)
  | TEnd tc result => try_except (on_success tc result) (on_failure tc)
  | TExcept tc e => on_failure tc e
  | TDone r => lift r
  end.

(** The [for tool_call in tool_calls] loop that collects the coroutines of
    the resolved calls. *)
Fixpoint launch (tool_calls : list tool_call) : list task :=
  match tool_calls with
  | [] => []
  | tc :: rest =>
      match _tool_map !! tc_name tc with
      | Some t => TStart t tc :: launch rest
      | None => launch rest
      end
  end.

Definition step_at (i : nat) (tasks : list task) : state -> list task * state :=
  fun s =>
    match tasks !! i with
    | Some k => let '(k', s') := step k s in (<[i := k']> tasks, s')
    | None => (tasks, s)
    end.

Fixpoint interleave (sched : list nat) (tasks : list task) : state -> list task * state :=
  fun s =>
    match sched with
    | [] => (tasks, s)
    | i :: sched' =>
        let '(tasks', s') := step_at i tasks s in
        interleave sched' tasks' s'
    end.

Fixpoint drain (tasks : list task) : state -> list (outcome tool_result) * state :=
  fun s =>
    match tasks with
    | [] => ([], s)
    | k :: rest =>
        let '(r, s') := resume k s in
        let '(rs, s'') := drain rest s' in
        (r :: rs, s'')
    end.

(** [asyncio.gather] over the tasks with [return_exceptions=True]: the tasks are resumed
    in the order the event loop chooses, then whatever is still unfinished
    runs to its end; the outcomes come back in the order of the tasks, an
    exception as a value. *)
Definition gather_with (sched : list nat) (tasks : list task)
    : state -> list (outcome tool_result) * state :=
  fun s =>
    let '(tasks', s') := interleave sched tasks s in
    drain tasks' s'.

Definition gather (tasks : list task) : state -> list (outcome tool_result) * state :=
  fun s => gather_with (schedule (world s)) tasks s.

(** [for r in results: if isinstance(r, Exception): raise r], then
    [return results]. *)
Fixpoint raise_first (results : list (outcome tool_result)) : outcome (list tool_result) :=
  match results with
  | [] => Return []
  | Raise e :: _ => Raise e
  | Return r :: rest =>
      let? rs := raise_first rest in
      Return (r :: rs)
  end.

Definition _execute_tools_concurrent (tool_calls : list tool_call) : M (list tool_result) :=
  fun s =>
    let '(results, s') := gather (launch tool_calls) s in
    (raise_first results, s').

(** *** The turn *)

(** The loop of [_format_response] that keeps the user messages and the
    assistant messages with visible content. *)
Fixpoint simplify (complete_history : list value) : outcome (list value) :=
  match complete_history with
  | [] => Return []
  | msg :: rest =>
      let? role := getitem msg "role" in
      let? kept :=
        if is_str role "user" then Return [msg]
        else if is_str role "assistant" then
          if truthy (dict_get msg "content") then
            let? c := getitem msg "content" in
            Return [VDict (dict [("role", VStr "assistant"); ("content", c)])]
          else Return []
        else Return [] in
      let? clean_history := simplify rest in
      Return (kept ++ clean_history)
  end.

Definition _format_response (resp : option response) (reason : string) : M turn_result :=
  let* complete_history := _get_complete_history in
  let* clean_history := lift (simplify complete_history) in
  let* ts := get_now in
  ret {| stop_reason := reason;
         history_messages := complete_history;
         history_simplified := clean_history;
         tr_agent_name := agent_name a;
         tr_timestamp := ts;
         tr_output := match resp with
                      | None => VNone
                      | Some r => resp_content r
                      end;
         tr_usage := match resp with
                     | None => VNone
                     | Some r => resp_usage r
                     end |}.

(** A hook payload with the fields [user_id], [chat_id] and [timestamp]
    every turn-level event carries. *)
Definition turn_payload (fields : list (string * value)) : M (gmap string value) :=
  let* ts := get_now in
  ret (dict (fields ++ [("user_id", user_id a); ("chat_id", chat_id a);
                        ("timestamp", VStr ts)])).

Definition tool_call_value (tc : tool_call) : value :=
  VDict (dict [("id", VStr (tc_id tc)); ("type", VStr "function");
               ("function", VDict (dict [("name", VStr (tc_name tc));
                                         ("arguments", tc_arguments tc)]))]).

(** The reply as it appears in the payload of [on_after_request]. *)
Definition response_value (resp : response) : value :=
  VDict (dict [("content", resp_content resp);
               ("tool_calls", VList (map tool_call_value (resp_tool_calls resp)));
               ("usage", resp_usage resp)]).

(** [assistant_message], with its [tool_calls] key when the reply has tool
    calls. *)
Definition assistant_message (resp : response) : value :=
  let base := dict [("role", VStr "assistant"); ("content", resp_content resp)] in
  match resp_tool_calls resp with
  | [] => VDict base
  | _ :: _ =>
      VDict (<["tool_calls" := VList (map tool_call_value (resp_tool_calls resp))]> base)
  end.

Definition tool_message (r : tool_result) : value :=
  VDict (dict [("role", VStr "tool"); ("tool_call_id", VStr (tool_call_id r));
               ("content", VStr (py_str (res_result r)))]).

(** [tools], one schema per registry entry. *)
Definition tool_schemas : list value :=
  map (fun t => VDict (dict [("type", VStr "function"); ("function", function_schema t)]))
      (tool_registry a).

(** [self.client.send_message(...)], with [tools if tools else None]. *)
Definition call_client (messages : list value) (tools : list value) : M response :=
  let tools_arg := match tools with
                   | [] => None
                   | _ :: _ => Some tools
                   end in
  let* _ := emit (EvBackend messages tools_arg) in
  perform (client_send_message a messages (model a) tools_arg (user_id a) (chat_id a)).

(** [for result in tool_results]: each tool message goes to the history and
    to the working message list. *)
Fixpoint append_tool_messages (tool_results : list tool_result) (messages : list value)
    : M (list value) :=
  match tool_results with
  | [] => ret messages
  | r :: rest =>
      let* _ := _add_to_history (tool_message r) in
      append_tool_messages rest (messages ++ [tool_message r])
  end.

(** What follows the loop once it is left by [break]. *)
Definition complete (resp : response) : M turn_result :=
  let* payload := turn_payload [("response", response_value resp)] in
  let* _ := _trigger_hook "on_after_request" payload in
  _format_response (Some resp) "completed".

(** One pass through the body of [while True]: the turn ends with a result
    (a stop, or [break] and what follows the loop), or the loop goes on with
    the longer message list. *)
Definition round (messages : list value) (tools : list value)
    : M (turn_result + list value) :=
  let* '(result, was_stopped) := _run_with_stop_handler (call_client messages tools) in
  if (was_stopped : bool) then
    let* payload := turn_payload [] in
    let* _ := _trigger_hook "on_manual_stop" payload in
    let* r := _format_response (Some result) "manual_stop" in
    ret (inl r)
  else
    let resp := result in
    let* _ := _add_to_history (assistant_message resp) in
    let messages := messages ++ [assistant_message resp] in
    match resp_tool_calls resp with
    | [] =>
        let* r := complete resp in
        ret (inl r)
    | _ :: _ =>
        let* '(result, was_stopped) :=
          _run_with_stop_handler
            (if execute_function_concurrently a
             then _execute_tools_concurrent (resp_tool_calls resp)
             else _execute_tools_sequential (resp_tool_calls resp)) in
        if (was_stopped : bool) then
          let* r := _format_response (Some resp) "manual_stop" in
          ret (inl r)
        else
          let* messages := append_tool_messages result messages in
          ret (inr messages)
    end.

(** [while True], with the number of passes bounded by [fuel]; [None] when
    the fuel does not suffice. *)
Fixpoint conversation (fuel : nat) (messages : list value) (tools : list value)
    (s : state) : option (outcome turn_result * state) :=
  match fuel with
  | 0 => None
  | S fuel' =>
      match round messages tools s with
      | (Raise e, s') => Some (Raise e, s')
      | (Return (inl r), s') => Some (Return r, s')
      | (Return (inr messages'), s') => conversation fuel' messages' tools s'
      end
  end.

(** The [try] block of [send_message] up to the loop. *)
Definition begin_turn (message : string) (history : value) : M (list value) :=
  let* safe_history := lift (_validate_history history) in
  let* _ := put_history safe_history in
  let* _ := _add_to_history (user_message message) in
  let* payload := turn_payload [("message", VStr message)] in
  let* _ := _trigger_hook "on_before_request" payload in
  let* h := get_history in
  lift (_prepare_messages message (Some h)).

(** The [except Exception as e] block of [send_message]. *)
Definition on_error (e : exn) : M turn_result :=
  let* payload := turn_payload [("error", VStr (str_exn e))] in
  let* _ := _trigger_hook "on_error" payload in
  raise e.

Definition send_message (fuel : nat) (message : string) (history : value)
    (s : state) : option (outcome turn_result * state) :=
  match begin_turn message history s with
  | (Raise e, s') => Some (on_error e s')
  | (Return messages, s') =>
      match conversation fuel messages tool_schemas s' with
      | None => None
      | Some (Raise e, s'') => Some (on_error e s'')
      | Some (Return r, s'') => Some (Return r, s'')
      end
  end.

(** *** Formatting tool results *)

(** [v.get(key, fallback)] for a dictionary [v] *)
Definition dict_get_or (v : value) (key : string) (fallback : value) : value :=
  match v with
  | VDict d => default fallback (d !! key)
  | _ => fallback
  end.

(** The dictionary [_execute_tool] returns, as the Python value it is. *)
Definition result_value (r : tool_result) : value :=
  VDict (dict [("tool_call_id", VStr (tool_call_id r)); ("name", VStr (res_name r));
               ("result", res_result r)]).

(** A list comprehension whose element expression can raise. *)
Fixpoint for_each {A B : Type} (f : A -> outcome B) (l : list A) : outcome (list B) :=
  match l with
  | [] => Return []
  | x :: rest =>
      let? y := f x in
      let? ys := for_each f rest in
      Return (y :: ys)
  end.

(** An element of the [tool_calls] comprehension: its [id] is read from
    [results[0]], whichever result the element is made for. *)
Definition tool_call_entry (first result : value) : outcome value :=
  let? id := getitem first "tool_call_id" in
  let? function_name := getitem result "name" in
  Return (VDict (dict [("id", id); ("type", VStr "function");
                       ("function",
                        VDict (dict [("name", function_name);
                                     ("arguments",
                                      dict_get_or result "arguments" (VStr "{}"))]))])).

(** The message made of a result in the second loop. *)
Definition tool_result_message (result : value) : outcome value :=
  let? id := getitem result "tool_call_id" in
  let? r := getitem result "result" in
  Return (VDict (dict [("role", VStr "tool"); ("tool_call_id", id);
                       ("content", VStr (py_str r))])).

(** [results] is a list of dictionaries.  On the empty list the
    comprehension makes no element, so [results[0]] is not evaluated. *)
Definition _format_tool_results (results : list value) : outcome (list value) :=
  let? calls :=
    match results with
    | [] => Return []
    | first :: _ => for_each (tool_call_entry first) results
    end in
  let messages :=
    [VDict (dict [("role", VStr "assistant"); ("content", VNone);
                  ("tool_calls", VList calls)])] in
  let? tool_messages := for_each tool_result_message results in
  Return (messages ++ tool_messages).

End Model.

(** ** The notions the properties are stated with *)

Section Specification.
Context `{Externals}.
Variable a : agent.

(** *** The outbound message list, as the specification words it *)

(** An entry the validator accepts: a mapping with [role] and [content]. *)
Definition valid_message (msg : value) : bool :=
  is_dict msg && has_key msg "role" && has_key msg "content".

(** "the history is non-empty and its first entry's role is system" *)
Definition starts_with_system (history : list value) : bool :=
  match history with
  | first :: _ => is_str (dict_get first "role") "system"
  | [] => false
  end.

(** "the last history entry's content already equals the new message" *)
Definition ends_with_message (message : string) (history : list value) : bool :=
  match last history with
  | Some final => is_str (dict_get final "content") message
  | None => false
  end.

(** "a system message first unless ...; then the full history in order; then
    the new user message, unless ..." *)
Definition prepared (message : string) (history : list value) : list value :=
  (if starts_with_system history then [] else [system_message a])
  ++ history
  ++ (if ends_with_message message history then [] else [user_message message]).

(** *** Hooks, tools and requests *)

(** The events a computation added to the trace. *)
Definition new_events (s s' : state) : list event :=
  drop (length (trace s)) (trace s').

(** No callback registered for the event ever raises. *)
Definition quiet (hook : string) : Prop :=
  forall cb, cb ∈ hooks a hook -> forall payload w, (cb payload w).1 = Return tt.

(** A deterministic tool: what it returns or raises depends on its keyword
    arguments only, not on the world it runs in. *)
Definition deterministic (t : tool) : Prop :=
  forall kw w w', (func t kw w).1 = (func t kw w').1.

(** The requests that name a registered tool, in request order. *)
Definition registered (tool_calls : list tool_call) : list tool_call :=
  filter (fun tc => is_Some (_tool_map a !! tc_name tc)) tool_calls.

(** The result of the call [tc] with the value [v]. *)
Definition result_of (tc : tool_call) (v : value) : tool_result :=
  {| tool_call_id := tc_id tc; res_name := tc_name tc; res_result := v |}.

(** The requests that name a registered tool, each with the tool it
    resolves to. *)
Definition resolved (tool_calls : list tool_call) : list (tool * tool_call) :=
  omap (fun tc => (fun t => (t, tc)) <$> _tool_map a !! tc_name tc) tool_calls.

(** *** Invariants of a task between two resumptions *)

(** How many more times a task can be resumed before it is done. *)
Definition rank (k : task) : nat :=
  match k with
  | TStart _ _ => 4
  | TBody _ _ => 3
  | TEnd _ _ => 2
  | TExcept _ _ => 1
  | TDone _ => 0
  end.

(** The task works on the request [x.2] with the tool [x.1], and a result it
    has produced carries the identifier and the name of the request. *)
Definition task_for (x : tool * tool_call) (k : task) : Prop :=
  match k with
  | TStart t tc | TBody t tc => (t, tc) = x
  | TEnd tc _ | TExcept tc _ => tc = x.2
  | TDone (Return r) => tool_call_id r = tc_id x.2 /\ res_name r = tc_name x.2
  | TDone (Raise _) => True
  end.

Definition answers (x : tool * tool_call) (o : outcome tool_result) : Prop :=
  match o with
  | Return r => tool_call_id r = tc_id x.2 /\ res_name r = tc_name x.2
  | Raise _ => True
  end.

(** The task has not ended with a fault. *)
Definition unfaulted (k : task) : Prop :=
  match k with
  | TDone (Raise _) => False
  | _ => True
  end.

Definition returned {A : Type} (o : outcome A) : Prop :=
  match o with
  | Return _ => True
  | Raise _ => False
  end.

(** The result a request gets when its tool runs in the world [w0] and no
    hook faults. *)
Definition expected (w0 : W) (x : tool * tool_call) : tool_result :=
  result_of x.2
    match build_args a x.2 with
    | Raise e => VStr (str_exn e)
    | Return kw =>
        match (func x.1 kw w0).1 with
        | Return v => v
        | Raise e => VStr (str_exn e)
        end
    end.

(** The task is on its way to the expected result. *)
Definition agrees (w0 : W) (x : tool * tool_call) (k : task) : Prop :=
  match k with
  | TStart t tc | TBody t tc => (t, tc) = x
  | TEnd tc v =>
      tc = x.2 /\ exists kw, build_args a tc = Return kw /\ (func x.1 kw w0).1 = Return v
  | TExcept tc e =>
      tc = x.2
      /\ (build_args a tc = Raise e
          \/ exists kw, build_args a tc = Return kw /\ (func x.1 kw w0).1 = Raise e)
  | TDone r => r = Return (expected w0 x)
  end.

(** The event with which a task of [_execute_tool] ends: its start hook
    faulted, its end hook returned, or its error hook ran. *)
Definition is_final (ev : event) : bool :=
  match ev with
  | EvHook hook _ fault =>
      (String.eqb hook "on_function_call_start" && bool_decide (is_Some fault))
      || (String.eqb hook "on_function_call_end" && bool_decide (fault = None))
      || String.eqb hook "on_function_call_error"
  | _ => false
  end.

(** How many tasks ended while the events were recorded. *)
Definition finals (evs : list event) : nat := length (List.filter is_final evs).

(** 1 for a task that has not ended, 0 for one that has. *)
Definition undone (k : task) : nat :=
  match k with
  | TDone _ => 0
  | _ => 1
  end.

(** The fault of a hook callback, for every event but
    [on_function_call_end]. *)
Definition fatal (ev : event) : bool :=
  match ev with
  | EvHook hook _ (Some _) => negb (String.eqb hook "on_function_call_end")
  | _ => false
  end.

(** The task has ended with a fault. *)
Definition faulted (k : task) : Prop :=
  match k with
  | TDone (Raise _) => True
  | _ => False
  end.

(** A computation that extends the trace and, whenever one of the events it
    adds is a fatal hook fault, does not return. *)
Definition propagating {A : Type} (m : M A) : Prop :=
  forall s, exists evs,
    trace (m s).2 = trace s ++ evs
    /\ (Exists (fun ev => fatal ev = true) evs -> ~ returned (m s).1).

(** *** The passes of a turn *)

(** [n] passes through the body of the loop, each of which feeds tool
    messages back and goes on. *)
Fixpoint rounds (n : nat) (messages tools : list value) (s : state)
    : option (list value * state) :=
  match n with
  | 0 => Some (messages, s)
  | S n' =>
      match round a messages tools s with
      | (Return (inr messages'), s') => rounds n' messages' tools s'
      | _ => None
      end
  end.

(** A computation that only appends well-formed messages to the history. *)
Definition grows {A : Type} (m : M A) : Prop :=
  forall s, exists added,
    _message_history (m s).2 = _message_history s ++ added
    /\ Forall (fun msg => valid_message msg = true) added.

(** The computation left the agent's own fields as they were. *)
Definition same_agent (s s' : state) : Prop :=
  _message_history s' = _message_history s /\ polls s' = polls s.

(** *** Notions of the further properties *)

(** What the validator says of an entry it refuses. *)
Definition complaint (msg : value) : string :=
  if negb (is_dict msg) then "History messages must be dictionaries"
  else if negb (has_key msg "role") then "History messages must have 'role' field"
  else "History messages must have 'content' field".

(** The keys the agent sets itself in the keyword arguments of a call. *)
Definition reserved (key : string) : Prop :=
  key = "user_id" \/ key = "chat_id" \/ key = "agent_name".

(** The arguments of a request once decoded: the first statement of the
    [try] block of [_execute_tool]. *)
Definition decoded (tc : tool_call) : outcome value :=
  match tc_arguments tc with
  | VStr text => json_loads text
  | v => Return v
  end.

(** The entries of the registry under a name, in registration order. *)
Definition named (n : string) (registry : list tool) : list tool :=
  filter (fun t => tool_name t = n) registry.

(** The invocations of tool callables among the events. *)
Definition is_call (ev : event) : bool :=
  match ev with
  | EvCall _ _ => true
  | _ => false
  end.

Definition calls (evs : list event) : list event := List.filter is_call evs.

(** A message of a simplified history: a user message, or an assistant
    message reduced to its role and its content, which is not empty. *)
Definition visible (msg : value) : Prop :=
  is_str (dict_get msg "role") "user" = true
  \/ exists c, truthy c = true
               /\ msg = VDict (dict [("role", VStr "assistant"); ("content", c)]).

(** The [tool_calls] entry [_format_tool_results] makes for a result of
    [_execute_tool], with the identifier it is given. *)
Definition call_entry (id : string) (r : tool_result) : value :=
  VDict (dict [("id", VStr id); ("type", VStr "function");
               ("function", VDict (dict [("name", VStr (res_name r));
                                         ("arguments", VStr "{}")]))]).

(** The assistant message [_format_tool_results] puts first. *)
Definition calls_message (entries : list value) : value :=
  VDict (dict [("role", VStr "assistant"); ("content", VNone);
               ("tool_calls", VList entries)]).

(** *** Notions of the properties of a whole turn *)

(** A computation that extends the trace with events that all satisfy [P]. *)
Definition emits {A : Type} (P : event -> Prop) (m : M A) : Prop :=
  forall s, exists evs, trace (m s).2 = trace s ++ evs /\ Forall P evs.

(** [tools if tools else None] *)
Definition tools_argument : option (list value) :=
  match tool_schemas a with
  | [] => None
  | _ :: _ => Some (tool_schemas a)
  end.

(** The events triggered inside the [try] block of [send_message] and by
    [_execute_tool]. *)
Definition turn_events : list string :=
  ["on_before_request"; "on_manual_stop"; "on_after_request";
   "on_function_call_start"; "on_function_call_end"; "on_function_call_error"].

(** What holds of every backend call, of every call of a tool and of every
    hook emission inside the [try] block of a turn: the backend gets a
    message list that starts with a system message and the schemas of the
    registry ([None] for the empty registry); a tool that is called is in
    the registry and gets the agent's own identifiers; a hook is one of
    [turn_events] and its payload has the agent's [user_id] and [chat_id]. *)
Definition well_formed_event (ev : event) : Prop :=
  match ev with
  | EvBackend messages tools =>
      tools = tools_argument /\ starts_with_system messages = true
  | EvCall tl kw =>
      (exists t, t ∈ tool_registry a /\ tool_name t = tl)
      /\ kw !! "user_id" = Some (user_id a)
      /\ kw !! "chat_id" = Some (chat_id a)
      /\ kw !! "agent_name" = Some (VStr (agent_name a))
  | EvHook hook payload _ =>
      hook ∈ turn_events
      /\ payload !! "user_id" = Some (user_id a)
      /\ payload !! "chat_id" = Some (chat_id a)
  end.

(** The events of the tool dispatch: calls of tools and emissions of the
    three tool-level hooks. *)
Definition dispatch_event (ev : event) : Prop :=
  well_formed_event ev
  /\ match ev with
     | EvHook hook _ _ =>
         hook ∈ ["on_function_call_start"; "on_function_call_end";
                 "on_function_call_error"]
     | EvCall _ _ => True
     | EvBackend _ _ => False
     end.

(** The task runs a tool of the registry map. *)
Definition known_task (k : task) : Prop :=
  match k with
  | TStart t tc | TBody t tc => _tool_map a !! tc_name tc = Some t
  | _ => True
  end.

(** *** Notions of the revised dispatch properties *)

(** The value of the result a request gets when no start or error hook
    faults: [w] is the world in which its callable runs and [w'] the world
    in which the callbacks of [on_function_call_end] run.  A failure of the
    decoder, of the callable or of an end callback gives its description. *)
Definition served (x : tool * tool_call) (w w' : W) : value :=
  match build_args a x.2 with
  | Raise e => VStr (str_exn e)
  | Return kw =>
      match (func x.1 kw w).1 with
      | Raise e => VStr (str_exn e)
      | Return v =>
          match (run_callbacks (hooks a "on_function_call_end")
                   (<["result" := v]> (call_payload a x.2)) w').1 with
          | Return _ => v
          | Raise e => VStr (str_exn e)
          end
      end
  end.

(** The result is the one of the request, with such a value. *)
Definition serves (x : tool * tool_call) (r : tool_result) : Prop :=
  exists w w', r = result_of x.2 (served x w w').

Definition served_outcome (x : tool * tool_call) (o : outcome tool_result) : Prop :=
  match o with
  | Return r => serves x r
  | Raise _ => True
  end.

(** The task is on its way to such a result. *)
Definition serving (x : tool * tool_call) (k : task) : Prop :=
  match k with
  | TStart t tc | TBody t tc => (t, tc) = x
  | TEnd tc v =>
      tc = x.2 /\ exists kw w, build_args a tc = Return kw /\ (func x.1 kw w).1 = Return v
  | TExcept tc e => tc = x.2 /\ exists w w', served x w w' = VStr (str_exn e)
  | TDone o => served_outcome x o
  end.

(** The calls of tool callables a batch is due: one for each resolved
    request whose keyword arguments can be built, in request order. *)
Definition due_call (x : tool * tool_call) : list event :=
  match build_args a x.2 with
  | Return kw => [EvCall (tool_name x.1) kw]
  | Raise _ => []
  end.

Definition due_calls (xs : list (tool * tool_call)) : list event :=
  xs ≫= due_call.

(** The call a task has still to make. *)
Definition pending_call (k : task) : list event :=
  match k with
  | TStart t tc | TBody t tc => due_call (t, tc)
  | _ => []
  end.

(** The exception is what the callbacks of the request's own
    [on_function_call_start] emission, or of its own
    [on_function_call_error] emission, raise in some world: the only faults
    that leave [_execute_tool]. *)
Definition faults (x : tool * tool_call) (e : exn) : Prop :=
  (exists w,
      (run_callbacks (hooks a "on_function_call_start") (call_payload a x.2) w).1
      = Raise e)
  \/ (exists e0 w,
        (run_callbacks (hooks a "on_function_call_error")
           (<["error" := VStr (str_exn e0)]> (call_payload a x.2)) w).1
        = Raise e).

(** The outcome is the request's own: a result with its identifier and its
    name, or a fault of its own hooks. *)
Definition own_outcome (x : tool * tool_call) (o : outcome tool_result) : Prop :=
  match o with
  | Return r => tool_call_id r = tc_id x.2 /\ res_name r = tc_name x.2
  | Raise e => faults x e
  end.

(** The task works on the request and has ended, if it has, with an outcome
    of the request. *)
Definition owning (x : tool * tool_call) (k : task) : Prop :=
  match k with
  | TStart t tc | TBody t tc => (t, tc) = x
  | TEnd tc _ | TExcept tc _ => tc = x.2
  | TDone o => own_outcome x o
  end.

End Specification.

(** ** The token counters of [ContextHandler] *)

Module ContextHandler.

(** A Python number: an [int], or a [float] given by the rational it holds
    (the quotient of a length by 4 is exact in binary floating point). *)
Inductive number : Type :=
| PyInt (z : Z)
| PyFloat (q : Q).

Definition is_int (n : number) : bool :=
  match n with
  | PyInt _ => true
  | PyFloat _ => false
  end.

(** What the code takes from [tiktoken]. *)
Class Tiktoken : Type := {
  encoding : Type;
  encoding_for_model : string -> outcome encoding;
  get_encoding : string -> outcome encoding;
  encode : encoding -> string -> outcome (list Z);
}.

(** [len(message) / 4]: the operator [/] on two ints is true division, its
    result is a float whatever the operands. *)
Definition len_div_4 (message : string) : number :=
  PyFloat (Qmake (Z.of_nat (String.length message)) 4).

Definition get_simple_token_count (message : string) : number :=
  len_div_4 message.

Definition is_KeyError (e : exn) : bool :=
  match e with
  | Exception cls _ => String.eqb cls "KeyError"
  end.

Definition get_accurate_token_count `{Tiktoken} (message : string) (model : string)
    : outcome number :=
  let found :=
    match encoding_for_model model with
    | Return enc => Return enc
    | Raise e =>
        if is_KeyError e then get_encoding "gpt-4o"
        else Raise e
    end in
  match found with
  | Raise _ => Return (len_div_4 message)
  | Return enc =>
      let? tokens := encode enc message in
      Return (PyInt (Z.of_nat (length tokens)))
  end.

(** *** The counter of a whole history *)

(** [c.lower()] on an ASCII character; other bytes are left as they are.
    No character outside ASCII lowers to a letter of ["accurate"] or
    ["simple"], so the comparisons below are those of [str.lower]. *)
Definition lower_ascii (c : Ascii.ascii) : Ascii.ascii :=
  let n := Ascii.nat_of_ascii c in
  if (65 <=? n)%nat && (n <=? 90)%nat then Ascii.ascii_of_nat (n + 32) else c.

Fixpoint lower (s : string) : string :=
  match s with
  | EmptyString => EmptyString
  | String c rest => String (lower_ascii c) (lower rest)
  end.

(** [x + y] on numbers: an [int] and a [float] add to a [float]. *)
Definition add (x y : number) : number :=
  match x, y with
  | PyInt m, PyInt n => PyInt (m + n)
  | PyInt m, PyFloat q => PyFloat (Qplus (inject_Z m) q)
  | PyFloat p, PyInt n => PyFloat (Qplus p (inject_Z n))
  | PyFloat p, PyFloat q => PyFloat (Qplus p q)
  end.

(** The built-in [sum]: it starts from the [int] 0 and adds from the left. *)
Definition py_sum (l : list number) : number := foldl add (PyInt 0) l.

(** With the accurate method the argument of [sum] is a generator
    expression that holds an [await], hence an asynchronous generator, and
    [sum] refuses it with a [TypeError] before any message is counted. *)
Definition get_token_count_from_history (history : list string) (model : string)
    (method : string) : outcome number :=
  if String.eqb (lower method) "accurate" then
    Raise (TypeError "'async_generator' object is not iterable")
  else if String.eqb (lower method) "simple" then
    Return (py_sum (get_simple_token_count <$> history))
  else Raise (ValueError ("Invalid method: " +:+ method)).

(** The rational a number holds. *)
Definition rational (x : number) : Q :=
  match x with
  | PyInt n => inject_Z n
  | PyFloat q => q
  end.

(** The characters of all the messages together. *)
Definition total_length (history : list string) : nat :=
  sum_list_with String.length history.

(** A toy [tiktoken]: it knows the model ["gpt-4o"] and the encoding
    ["o200k_base"], and a token is a character. *)
Definition demo_tiktoken : Tiktoken := {|
  encoding := unit;
  encoding_for_model := fun model =>
    if String.eqb model "gpt-4o" then Return tt
    else Raise (KeyError model);
  get_encoding := fun encoding_name =>
    if String.eqb encoding_name "o200k_base" then Return tt
    else Raise (ValueError ("Unknown encoding " +:+ encoding_name));
  encode := fun _ text => Return (replicate (String.length text) 0%Z);
|}.

End ContextHandler.

(** ** A small agent to run the definitions on *)

(** The world is a counter of the calls made to the outside. *)
Definition demo_externals (stop : option nat) : Externals := {|
  W := nat;
  json_loads := fun text =>
    if String.eqb text "{}" then Return (VDict ∅)
    else Raise (Exception "JSONDecodeError" "Expecting value");
  py_str := fun v =>
    match v with
    | VStr text => text
    | _ => "None"
    end;
  now := fun _ => "2025-01-01T00:00:00";
  schedule := fun _ => [1; 0; 1; 1; 0];
  stop_after := stop;
|}.

Section Demo.
Variable stop : option nat.
Let E : Externals := demo_externals stop.
Existing Instance E.

Definition get_current_time : tool := {|
  tool_name := "get_current_time";
  function_schema := VDict (dict [("name", VStr "get_current_time")]);
  func := fun _ w => (Return (VStr "12:00:00"), S w);
|}.

Definition get_weather : tool := {|
  tool_name := "get_weather";
  function_schema := VDict (dict [("name", VStr "get_weather")]);
  func := fun kw w =>
    match kw !! "city" with
    | Some (VStr city) => (Return (VStr ("Sunny, 22 degrees in " +:+ city)), S w)
    | _ => (Raise (TypeError "missing 1 required positional argument: 'city'"), S w)
    end;
|}.

Definition time_call : tool_call :=
  {| tc_id := "call_1"; tc_name := "get_current_time"; tc_arguments := VStr "{}" |}.

(** The model tries to pass for another user. *)
Definition weather_call : tool_call :=
  {| tc_id := "call_2"; tc_name := "get_weather";
     tc_arguments := VDict (dict [("city", VStr "Tokyo"); ("user_id", VStr "mallory")]) |}.

(** The arguments are no JSON text. *)
Definition broken_call : tool_call :=
  {| tc_id := "call_3"; tc_name := "get_weather"; tc_arguments := VStr "{city" |}.

Definition unknown_call : tool_call :=
  {| tc_id := "call_4"; tc_name := "get_stock_price"; tc_arguments := VStr "{}" |}.

(** The backend asks for the time first and answers once the history ends
    with a tool message. *)
Definition demo_client (messages : list value) (_ : string) (_ : option (list value))
    (_ _ : value) : effect response :=
  fun w =>
    match last messages with
    | Some final =>
        if is_str (dict_get final "role") "tool"
        then (Return {| resp_content := VStr "It is 12:00:00.";
                        resp_tool_calls := [];
                        resp_usage := VDict (dict [("total_tokens", VInt 42)]) |}, S w)
        else (Return {| resp_content := VNone;
                        resp_tool_calls := [time_call];
                        resp_usage := VDict (dict [("total_tokens", VInt 17)]) |}, S w)
    | None => (Raise (Exception "BadRequestError" "no messages"), S w)
    end.

Definition demo_agent (concurrently : bool)
    (registered_hooks : string -> list (gmap string value -> effect unit)) : agent := {|
  agent_name := "Test_Agent";
  user_id := VStr "test_user";
  chat_id := VStr "test_chat";
  system_prompt := VStr "You are a helpful assistant that can check time and weather";
  model := "gpt-4o-mini";
  tool_registry := [get_current_time; get_weather];
  execute_function_concurrently := concurrently;
  hooks := registered_hooks;
  client_send_message := demo_client;
|}.

Definition no_hooks : string -> list (gmap string value -> effect unit) := fun _ => [].


(** A callback of [on_error] that raises. *)
Definition failing_error_hook : string -> list (gmap string value -> effect unit) :=
  fun hook =>
    if String.eqb hook "on_error"
    then [fun _ w => (Raise (Exception "RuntimeError" "hook failed"), w)]
    else [].

(** A callback of [on_function_call_start] that raises when the weather tool
    is about to run. *)
Definition failing_start_hook : string -> list (gmap string value -> effect unit) :=
  fun hook =>
    if String.eqb hook "on_function_call_start"
    then [fun payload w =>
            if is_str (default VNone (payload !! "function")) "get_weather"
            then (Raise (Exception "RuntimeError" "hook failed"), w)
            else (Return tt, w)]
    else [].

(** A callback of [on_function_call_start] that always raises, with a
    text that names the function about to run. *)
Definition naming_start_hook : string -> list (gmap string value -> effect unit) :=
  fun hook =>
    if String.eqb hook "on_function_call_start"
    then [fun payload w =>
            (Raise (Exception "RuntimeError"
                      ("start hook of " +:+ py_str (default VNone (payload !! "function")))),
             w)]
    else [].

Definition demo_state : state :=
  {| world := 0; _message_history := []; polls := 0; trace := [] |}.

(** The reply with which [demo_client] opens a turn. *)
Definition first_reply : response :=
  {| resp_content := VNone;
     resp_tool_calls := [time_call];
     resp_usage := VDict (dict [("total_tokens", VInt 17)]) |}.

(** A backend that asks for the time whatever it is sent. *)
Definition asking_client (_ : list value) (_ : string) (_ : option (list value))
    (_ _ : value) : effect response :=
  fun w => (Return first_reply, S w).

Definition asking_agent : agent := {|
  agent_name := "Test_Agent";
  user_id := VStr "test_user";
  chat_id := VStr "test_chat";
  system_prompt := VStr "You are a helpful assistant that can check time and weather";
  model := "gpt-4o-mini";
  tool_registry := [get_current_time; get_weather];
  execute_function_concurrently := false;
  hooks := no_hooks;
  client_send_message := asking_client;
|}.

(** A turn of the demo agent, and the state and the outcome it ends with. *)
Definition demo_turn (history : value) : option (outcome turn_result * state) :=
  send_message (demo_agent true no_hooks) 3 "What time is it?" history demo_state.

Definition demo_turn_end (history : value) : state :=
  match demo_turn history with
  | Some (_, s') => s'
  | None => demo_state
  end.

Definition demo_turn_outcome (history : value) : outcome turn_result :=
  match demo_turn history with
  | Some (o, _) => o
  | None => Raise (Exception "RuntimeError" "out of fuel")
  end.

End Demo.

(** An event loop that runs every task of a [gather] to its end before it
    starts the next one, and an agent with one tool in such a world. *)
Definition serial_externals : Externals := {|
  W := nat;
  json_loads := fun text =>
    if String.eqb text "{}" then Return (VDict ∅)
    else Raise (Exception "JSONDecodeError" "Expecting value");
  py_str := fun v =>
    match v with
    | VStr text => text
    | _ => "None"
    end;
  now := fun _ => "2025-01-01T00:00:00";
  schedule := fun _ => [];
  stop_after := None;
|}.

Section Serial.
Let E : Externals := serial_externals.
Existing Instance E.

Definition serial_clock : tool := {|
  tool_name := "get_current_time";
  function_schema := VDict (dict [("name", VStr "get_current_time")]);
  func := fun _ w => (Return (VStr "12:00:00"), S w);
|}.

Definition serial_agent : agent := {|
  agent_name := "Test_Agent";
  user_id := VStr "test_user";
  chat_id := VStr "test_chat";
  system_prompt := VStr "You are a helpful assistant that can check time";
  model := "gpt-4o-mini";
  tool_registry := [serial_clock];
  execute_function_concurrently := true;
  hooks := fun _ => [];
  client_send_message := fun _ _ _ _ _ w =>
    (Raise (Exception "APIConnectionError" "Connection error."), w);
|}.

Definition serial_state : state :=
  {| world := 0; _message_history := []; polls := 0; trace := [] |}.

End Serial.


(** ** Properties *)

Section Proofs.
Context `{Externals}.
Variable a : agent.

(** *** The outbound message list *)

Lemma valid_message_spec (msg : value) :
  valid_message msg = true <->
  exists d : gmap string value,
    msg = VDict d /\ is_Some (d !! "role") /\ is_Some (d !! "content").
Proof.
  unfold valid_message. split.
  - destruct msg as [| | | | |d]; simpl; try discriminate.
    intros Hv. apply andb_true_iff in Hv as [Hr Hc].
    apply bool_decide_eq_true in Hr, Hc. by exists d.
  - intros (d & -> & Hr & Hc). simpl.
    apply andb_true_iff. split; by apply bool_decide_eq_true.
Qed.

Lemma check_messages_valid (history : list value) :
  check_messages history = Return tt <-> Forall (fun msg => valid_message msg = true) history.
Proof.
  induction history as [|msg rest IH]; simpl.
  - split; [constructor | done].
  - rewrite Forall_cons, <- IH. unfold valid_message.
    destruct (is_dict msg), (has_key msg "role"), (has_key msg "content"); simpl;
      intuition congruence.
Qed.

Lemma getitem_valid (msg : value) (key : string) :
  has_key msg key = true -> getitem msg key = Return (dict_get msg key).
Proof.
  destruct msg as [| | | | |d]; simpl; try discriminate.
  intros [x Hx]%bool_decide_eq_true. by rewrite Hx.
Qed.

Lemma valid_message_role (msg : value) :
  valid_message msg = true -> has_key msg "role" = true.
Proof. unfold valid_message. by intros [[_ ?]%andb_true_iff _]%andb_true_iff. Qed.

Lemma valid_message_content (msg : value) :
  valid_message msg = true -> has_key msg "content" = true.
Proof. unfold valid_message. by intros [_ ?]%andb_true_iff. Qed.

(** C8. On a history whose first entry has a role and whose last entry has
    a content (every validated history is one), and on no history at all,
    [_prepare_messages] returns the system message (unless the history
    starts with one), then the history in order, then the user message
    (unless the content of the last entry already equals it). *)
Theorem prepare_messages_layout (message : string) (history : list value) :
  (forall first, head history = Some first -> has_key first "role" = true) ->
  (forall final, last history = Some final -> has_key final "content" = true) ->
  _prepare_messages a message (Some history) = Return (prepared a message history)
  /\ _prepare_messages a message None = Return [system_message a; user_message message].
Proof.
  intros Hfirst Hfinal. split; [|reflexivity].
  unfold _prepare_messages, prepared, starts_with_system, ends_with_message. simpl.
  destruct history as [|first rest]; [reflexivity|].
  rewrite (getitem_valid first "role" (Hfirst first eq_refl)). simpl.
  destruct (last (first :: rest)) as [final|] eqn:Hlast.
  - rewrite (getitem_valid final "content" (Hfinal final eq_refl)). simpl.
    destruct (is_str (dict_get first "role") "system"),
             (is_str (dict_get final "content") message); simpl; try reflexivity.
    all: by rewrite ?app_nil_r.
  - by apply last_None in Hlast.
Qed.

(** *** One tool *)

Lemma run_callbacks_quiet (cbs : list (gmap string value -> effect unit))
    (payload : gmap string value) (w : W) :
  (forall cb, cb ∈ cbs -> forall p w', (cb p w').1 = Return tt) ->
  (run_callbacks cbs payload w).1 = Return tt.
Proof.
  revert w. induction cbs as [|cb rest IH]; intros w Hq; simpl; [done|].
  pose proof (Hq cb (list_elem_of_here _ _) payload w) as Hcb.
  destruct (cb payload w) as [[[]|e] w']; simpl in Hcb; [|done].
  apply IH. intros cb' Hin. apply Hq. by apply list_elem_of_further.
Qed.

Lemma trigger_hook_quiet (hook : string) (payload : gmap string value) (s : state) :
  quiet a hook ->
  exists w, _trigger_hook a hook payload s
            = (Return tt, log (EvHook hook payload None) (set_world w s)).
Proof.
  intros Hq. unfold _trigger_hook.
  pose proof (run_callbacks_quiet (hooks a hook) payload (world s) Hq) as Hr.
  destruct (run_callbacks (hooks a hook) payload (world s)) as [[[]|e] w];
    simpl in Hr; [|done].
  by exists w.
Qed.

Lemma trigger_hook_outcome (hook : string) (payload : gmap string value) (s : state) :
  exists w fault,
    _trigger_hook a hook payload s
    = (match fault with
       | None => Return tt
       | Some e => Raise e
       end, log (EvHook hook payload fault) (set_world w s)).
Proof.
  unfold _trigger_hook.
  destruct (run_callbacks (hooks a hook) payload (world s)) as [[[]|e] w].
  - by exists w, None.
  - by exists w, (Some e).
Qed.

Lemma on_success_outcome (tc : tool_call) (v : value) (s : state) :
  exists w fault,
    on_success a tc v s
    = (match fault with
       | None => Return (result_of tc v)
       | Some e => Raise e
       end,
       log (EvHook "on_function_call_end" (<["result" := v]> (call_payload a tc)) fault)
           (set_world w s)).
Proof.
  unfold on_success, bind.
  destruct (trigger_hook_outcome "on_function_call_end"
              (<["result" := v]> (call_payload a tc)) s) as (w & fault & ->).
  exists w, fault. by destruct fault.
Qed.

Lemma on_failure_outcome (tc : tool_call) (e : exn) (s : state) :
  exists w fault,
    on_failure a tc e s
    = (match fault with
       | None => Return (result_of tc (VStr (str_exn e)))
       | Some e' => Raise e'
       end,
       log (EvHook "on_function_call_error"
                   (<["error" := VStr (str_exn e)]> (call_payload a tc)) fault)
           (set_world w s)).
Proof.
  unfold on_failure, bind.
  destruct (trigger_hook_outcome "on_function_call_error"
              (<["error" := VStr (str_exn e)]> (call_payload a tc)) s) as (w & fault & ->).
  exists w, fault. by destruct fault.
Qed.

Lemma invoke_outcome (t : tool) (tc : tool_call) (s : state) :
  invoke a t tc s
  = match build_args a tc with
    | Raise e => (Raise e, s)
    | Return kw =>
        ((func t kw (world s)).1,
         set_world (func t kw (world s)).2 (log (EvCall (tool_name t) kw) s))
    end.
Proof.
  unfold invoke, bind, lift, emit, perform.
  destruct (build_args a tc) as [kw|e]; [|done].
  simpl. by destruct (func t kw (world s)).
Qed.

(** Running a task to its end is resuming it once and running what is left. *)
Lemma resume_step (k : task) (s : state) :
  resume a k s = resume a (step a k s).1 (step a k s).2.
Proof.
  destruct k as [t tc|t tc|tc v|tc e|r]; simpl.
  - unfold _execute_tool, bind.
    by destruct (_trigger_hook a "on_function_call_start" (call_payload a tc) s) as [[[]|e] s'].
  - unfold try_except, bind.
    by destruct (invoke a t tc s) as [[v|e] s'].
  - unfold try_except.
    destruct (on_success a tc v s) as [[r|e] s']; [|done].
    by unfold lift.
  - destruct (on_failure a tc e s) as [r s']. by unfold lift.
  - by unfold lift.
Qed.

(** *** Invariants of the tasks of a [gather] *)

Ltac step_cases k s :=
  let t := fresh "t" in
  let tc := fresh "tc" in
  let v := fresh "v" in
  let e := fresh "e" in
  let w := fresh "w" in
  let kw := fresh "kw" in
  destruct k as [t tc|t tc|tc v|tc e|?]; simpl;
  [ destruct (trigger_hook_outcome "on_function_call_start" (call_payload a tc) s)
      as (w & [?|] & ->)
  | rewrite (invoke_outcome t tc s);
    destruct (build_args a tc) as [kw|?] eqn:?;
    [destruct (func t kw (world s)) as [[?|?] w] eqn:?|]
  | destruct (on_success_outcome tc v s) as (w & [?|] & ->)
  | destruct (on_failure_outcome tc e s) as (w & [?|] & ->)
  | ]; simpl.

Lemma step_rank (k : task) (s : state) : rank (step a k s).1 <= pred (rank k).
Proof. step_cases k s; lia. Qed.

Section TaskInvariant.
Context {X : Type} (R : X -> task -> Prop) (Q : X -> outcome tool_result -> Prop).
Hypothesis step_keeps : forall x k s, R x k -> R x (step a k s).1.
Hypothesis done_gives : forall x r, R x (TDone r) -> Q x r.

Lemma resume_gives_upto (n : nat) (x : X) (k : task) (s : state) :
  rank k <= n -> R x k -> Q x (resume a k s).1.
Proof.
  revert k s. induction n as [|n IH]; intros k s Hn HR.
  - destruct k; simpl in Hn; try lia. by apply done_gives.
  - destruct (decide (rank k = 0)) as [H0|H0].
    + destruct k; simpl in H0; try lia. by apply done_gives.
    + rewrite resume_step. apply IH.
      * pose proof (step_rank k s). lia.
      * by apply step_keeps.
Qed.

Lemma resume_gives (x : X) (k : task) (s : state) : R x k -> Q x (resume a k s).1.
Proof. by apply (resume_gives_upto (rank k)). Qed.

Lemma step_at_keeps (i : nat) (xs : list X) (ks : list task) (s : state) :
  Forall2 R xs ks -> Forall2 R xs (step_at a i ks s).1.
Proof.
  intros HR. unfold step_at.
  destruct (ks !! i) as [k|] eqn:Hk; [|done].
  destruct (step a k s) as [k' s'] eqn:Hstep. simpl.
  destruct (Forall2_lookup_r _ _ _ _ _ HR Hk) as (x & Hx & Hxk).
  rewrite <- (list_insert_id xs i x Hx).
  apply Forall2_insert; [done|].
  specialize (step_keeps x k s Hxk). by rewrite Hstep in step_keeps.
Qed.

Lemma interleave_keeps (sched : list nat) (xs : list X) (ks : list task) (s : state) :
  Forall2 R xs ks -> Forall2 R xs (interleave a sched ks s).1.
Proof.
  revert ks s. induction sched as [|i sched IH]; intros ks s HR; simpl; [done|].
  pose proof (step_at_keeps i xs ks s HR) as Hi.
  destruct (step_at a i ks s) as [ks' s']. by apply IH.
Qed.

Lemma drain_gives (xs : list X) (ks : list task) (s : state) :
  Forall2 R xs ks -> Forall2 Q xs (drain a ks s).1.
Proof.
  intros HR. revert s. induction HR as [|x k xs ks Hxk HR IH]; intros s; simpl; [constructor|].
  pose proof (resume_gives x k s Hxk) as Hq.
  destruct (resume a k s) as [r s'].
  specialize (IH s'). destruct (drain a ks s') as [rs s''].
  by constructor.
Qed.

Lemma gather_gives (sched : list nat) (xs : list X) (ks : list task) (s : state) :
  Forall2 R xs ks -> Forall2 Q xs (gather_with a sched ks s).1.
Proof.
  intros HR. unfold gather_with.
  pose proof (interleave_keeps sched xs ks s HR) as Hi.
  destruct (interleave a sched ks s) as [ks' s'].
  by apply drain_gives.
Qed.

End TaskInvariant.

(** *** The resolved requests *)

Lemma launch_resolved (tool_calls : list tool_call) :
  launch a tool_calls = map (fun x => TStart x.1 x.2) (resolved a tool_calls).
Proof.
  unfold resolved. induction tool_calls as [|tc rest IH]; simpl; [done|].
  destruct (_tool_map a !! tc_name tc) as [t|]; simpl; by rewrite IH.
Qed.

Lemma registered_resolved (tool_calls : list tool_call) :
  registered a tool_calls = (resolved a tool_calls).*2.
Proof.
  unfold registered, resolved. induction tool_calls as [|tc rest IH]; simpl; [done|].
  rewrite filter_cons.
  destruct (_tool_map a !! tc_name tc) as [t|] eqn:Ht; simpl.
  - f_equal. apply IH.
  - apply IH.
Qed.

Lemma resolved_registered (tool_calls : list tool_call) :
  resolved a (registered a tool_calls) = resolved a tool_calls.
Proof.
  unfold registered, resolved. induction tool_calls as [|tc rest IH]; simpl; [done|].
  rewrite filter_cons.
  destruct (_tool_map a !! tc_name tc) as [t|] eqn:Ht; simpl.
  - rewrite Ht. simpl. f_equal. apply IH.
  - apply IH.
Qed.

Lemma launch_task_for (tool_calls : list tool_call) :
  Forall2 task_for (resolved a tool_calls) (launch a tool_calls).
Proof.
  rewrite launch_resolved.
  induction (resolved a tool_calls) as [|[t tc] xs IH]; simpl; by constructor.
Qed.

Lemma tool_map_registry (n : string) (t : tool) :
  _tool_map a !! n = Some t -> t ∈ tool_registry a.
Proof.
  unfold _tool_map.
  assert (Hgen : forall l (m : gmap string tool),
             foldl (fun m t => <[tool_name t := t]> m) m l !! n = Some t ->
             t ∈ l \/ m !! n = Some t).
  { induction l as [|t' l IH]; intros m Hl; simpl in Hl; [by right|].
    destruct (IH _ Hl) as [Hin|Hm].
    - left. by apply list_elem_of_further.
    - destruct (decide (tool_name t' = n)) as [<-|Hne].
      + rewrite lookup_insert_eq in Hm. injection Hm as ->. left. apply list_elem_of_here.
      + rewrite lookup_insert_ne in Hm by done. by right. }
  intros Hl. destruct (Hgen _ _ Hl) as [Hin|Hm]; [done|].
  by rewrite lookup_empty in Hm.
Qed.

Lemma resolved_registry (tool_calls : list tool_call) (x : tool * tool_call) :
  x ∈ resolved a tool_calls -> x.1 ∈ tool_registry a.
Proof.
  unfold resolved. intros (tc & Htc & Hx)%list_elem_of_omap.
  destruct (_tool_map a !! tc_name tc) as [t|] eqn:Ht; simpl in Hx; [|done].
  injection Hx as <-. simpl. by eapply tool_map_registry.
Qed.

(** *** The collected outcomes *)

Lemma raise_first_Return (os : list (outcome tool_result)) (rs : list tool_result) :
  raise_first os = Return rs -> os = Return <$> rs.
Proof.
  revert rs. induction os as [|[r|e] os IH]; intros rs Hrs; csimpl in Hrs.
  - by injection Hrs as <-.
  - destruct (raise_first os) as [rs'|e]; csimpl in Hrs; [|done].
    injection Hrs as <-. csimpl. by rewrite (IH rs').
  - done.
Qed.

Lemma raise_first_fmap (rs : list tool_result) :
  raise_first (Return <$> rs) = Return rs.
Proof. induction rs as [|r rs IH]; csimpl; [done|]. by rewrite IH. Qed.

Lemma raise_first_Raise (pre : list tool_result) (e : exn) (post : list (outcome tool_result)) :
  raise_first ((Return <$> pre) ++ Raise e :: post) = Raise e.
Proof. induction pre as [|r pre IH]; csimpl; [done|]. by rewrite IH. Qed.

Lemma raise_first_returned (os : list (outcome tool_result)) :
  Forall returned os -> exists rs, raise_first os = Return rs.
Proof.
  induction 1 as [|[r|e] os Hr _ [rs IH]]; csimpl; [by eexists| |done].
  rewrite IH. by eexists.
Qed.

Lemma answers_results (xs : list (tool * tool_call)) (rs : list tool_result) :
  Forall2 answers xs (Return <$> rs) ->
  tool_call_id <$> rs = tc_id <$> xs.*2 /\ res_name <$> rs = tc_name <$> xs.*2.
Proof.
  revert xs. induction rs as [|r rs IH]; intros xs Hxs; csimpl in Hxs.
  - by apply Forall2_nil_inv_r in Hxs as ->.
  - apply Forall2_cons_inv_r in Hxs as (x & xs' & [Hid Hname] & Hrest & ->).
    destruct (IH _ Hrest) as [IH1 IH2]. csimpl. by rewrite Hid, Hname, IH1, IH2.
Qed.

(** *** What every task keeps *)

Lemma step_task_for (x : tool * tool_call) (k : task) (s : state) :
  task_for x k -> task_for x (step a k s).1.
Proof. step_cases k s; intros Hk; simplify_eq; try done. Qed.

Lemma done_answers (x : tool * tool_call) (r : outcome tool_result) :
  task_for x (TDone r) -> answers x r.
Proof. done. Qed.

Lemma on_failure_quiet (tc : tool_call) (e : exn) (s : state) :
  quiet a "on_function_call_error" ->
  exists s', on_failure a tc e s = (Return (result_of tc (VStr (str_exn e))), s').
Proof.
  intros Hq. unfold on_failure, bind.
  destruct (trigger_hook_quiet "on_function_call_error"
              (<["error" := VStr (str_exn e)]> (call_payload a tc)) s Hq) as [w ->].
  by eexists.
Qed.

Lemma step_unfaulted (k : task) (s : state) :
  quiet a "on_function_call_start" -> quiet a "on_function_call_error" ->
  unfaulted k -> unfaulted (step a k s).1.
Proof.
  intros Hstart Herror Hk. destruct k as [t tc|t tc|tc v|tc e|r]; simpl.
  - by destruct (trigger_hook_quiet "on_function_call_start" (call_payload a tc) s Hstart)
      as [w ->].
  - by destruct (invoke a t tc s) as [[v|e] s'].
  - by destruct (on_success a tc v s) as [[r|e] s'].
  - by destruct (on_failure_quiet tc e s Herror) as [s' ->].
  - done.
Qed.

Lemma done_returned (r : outcome tool_result) : unfaulted (TDone r) -> returned r.
Proof. by destruct r. Qed.

Lemma execute_tool_answers (t : tool) (tc : tool_call) (s : state) :
  answers (t, tc) (_execute_tool a t tc s).1.
Proof.
  by apply (resume_gives task_for answers step_task_for done_answers (t, tc) (TStart t tc)).
Qed.

Lemma execute_tool_returns (t : tool) (tc : tool_call) (s : state) :
  quiet a "on_function_call_start" -> quiet a "on_function_call_error" ->
  returned (_execute_tool a t tc s).1.
Proof.
  intros Hstart Herror.
  by apply (resume_gives (fun _ : unit => unfaulted) (fun _ => returned)
              (fun _ k s' => step_unfaulted k s' Hstart Herror)
              (fun _ => done_returned) tt (TStart t tc)).
Qed.

(** *** The sequential loop *)

Lemma sequential_loop_registered (tool_calls : list tool_call) (acc : list tool_result)
    (s : state) :
  sequential_loop a tool_calls acc s = sequential_loop a (registered a tool_calls) acc s.
Proof.
  unfold registered. revert acc s.
  induction tool_calls as [|tc rest IH]; intros acc s; [done|].
  rewrite filter_cons. simpl.
  destruct (_tool_map a !! tc_name tc) as [t|] eqn:Ht; simpl.
  - rewrite Ht. unfold bind.
    destruct (_execute_tool a t tc s) as [[r|e] s']; [apply IH | done].
  - apply IH.
Qed.

Lemma sequential_loop_answers (tool_calls : list tool_call) (acc rs : list tool_result)
    (s s' : state) :
  sequential_loop a tool_calls acc s = (Return rs, s') ->
  exists new, rs = acc ++ new /\ Forall2 answers (resolved a tool_calls) (Return <$> new).
Proof.
  unfold resolved. revert acc s.
  induction tool_calls as [|tc rest IH]; intros acc s Hrun; simpl in Hrun.
  - injection Hrun as <- <-. exists []. rewrite app_nil_r. split; [done | constructor].
  - csimpl. destruct (_tool_map a !! tc_name tc) as [t|] eqn:Ht; csimpl.
    + unfold bind in Hrun. pose proof (execute_tool_answers t tc s) as Ha.
      destruct (_execute_tool a t tc s) as [[r|e] s1]; [|done].
      destruct (IH _ _ Hrun) as (new & -> & Hnew).
      exists (r :: new). rewrite <- app_assoc. split; [done|]. csimpl. by constructor.
    + by apply (IH _ s).
Qed.

Lemma sequential_loop_returns (tool_calls : list tool_call) (acc : list tool_result)
    (s : state) :
  quiet a "on_function_call_start" -> quiet a "on_function_call_error" ->
  returned (sequential_loop a tool_calls acc s).1.
Proof.
  intros Hstart Herror. revert acc s.
  induction tool_calls as [|tc rest IH]; intros acc s; simpl; [done|].
  destruct (_tool_map a !! tc_name tc) as [t|]; [|apply IH].
  unfold bind. pose proof (execute_tool_returns t tc s Hstart Herror) as Hr.
  destruct (_execute_tool a t tc s) as [[r|e] s1]; [apply IH | done].
Qed.

(** *** The gathered tasks *)

Lemma interleave_nil (sched : list nat) (s : state) :
  interleave a sched [] s = ([], s).
Proof. induction sched as [|i sched IH]; simpl; [done|]. apply IH. Qed.

Lemma gather_answers (sched : list nat) (tool_calls : list tool_call) (s : state) :
  Forall2 answers (resolved a tool_calls)
          (gather_with a sched (launch a tool_calls) s).1.
Proof.
  apply (gather_gives task_for answers step_task_for done_answers).
  apply launch_task_for.
Qed.

Lemma gather_returned (sched : list nat) (tool_calls : list tool_call) (s : state) :
  quiet a "on_function_call_start" -> quiet a "on_function_call_error" ->
  Forall returned (gather_with a sched (launch a tool_calls) s).1.
Proof.
  intros Hstart Herror.
  pose proof (gather_gives (fun _ : task => unfaulted) (fun _ => returned)
                (fun _ k s' => step_unfaulted k s' Hstart Herror)
                (fun _ => done_returned) sched (launch a tool_calls) (launch a tool_calls) s)
    as Hg.
  eapply Forall2_Forall_r; [apply Hg|].
  - rewrite launch_resolved.
    induction (resolved a tool_calls) as [|x xs IH]; simpl; by constructor.
  - by apply Forall_true.
Qed.

Lemma concurrent_unfold (tool_calls : list tool_call) (s : state) :
  _execute_tools_concurrent a tool_calls s
  = (raise_first (gather_with a (schedule (world s)) (launch a tool_calls) s).1,
     (gather_with a (schedule (world s)) (launch a tool_calls) s).2).
Proof.
  unfold _execute_tools_concurrent, gather.
  by destruct (gather_with a (schedule (world s)) (launch a tool_calls) s).
Qed.

Lemma concurrent_returns (tool_calls : list tool_call) (s : state) :
  quiet a "on_function_call_start" -> quiet a "on_function_call_error" ->
  returned (_execute_tools_concurrent a tool_calls s).1.
Proof.
  intros Hstart Herror. rewrite concurrent_unfold. simpl.
  destruct (raise_first_returned _
              (gather_returned (schedule (world s)) tool_calls s Hstart Herror))
    as [results ->].
  done.
Qed.

Lemma concurrent_answers (tool_calls : list tool_call) (s : state)
    (results : list tool_result) :
  (_execute_tools_concurrent a tool_calls s).1 = Return results ->
  tool_call_id <$> results = tc_id <$> registered a tool_calls
  /\ res_name <$> results = tc_name <$> registered a tool_calls.
Proof.
  rewrite concurrent_unfold. simpl. intros Hr%raise_first_Return.
  rewrite registered_resolved. apply answers_results.
  rewrite <- Hr. apply gather_answers.
Qed.

Lemma sequential_answers (tool_calls : list tool_call) (s : state)
    (results : list tool_result) :
  (_execute_tools_sequential a tool_calls s).1 = Return results ->
  tool_call_id <$> results = tc_id <$> registered a tool_calls
  /\ res_name <$> results = tc_name <$> registered a tool_calls.
Proof.
  unfold _execute_tools_sequential.
  destruct (sequential_loop a tool_calls [] s) as [o s'] eqn:Hrun. simpl. intros ->.
  apply sequential_loop_answers in Hrun as (new & -> & Hnew).
  rewrite registered_resolved. by apply answers_results.
Qed.

(** C7. In both modes a request that names no registered tool is skipped:
    the dispatch of a batch is the dispatch of its registered requests, a
    batch without any registered request returns the empty list and changes
    nothing, and a returned list has one result per registered request, in
    request order. *)
Theorem unregistered_requests_skipped (tool_calls : list tool_call) (s : state) :
  _execute_tools_sequential a tool_calls s
    = _execute_tools_sequential a (registered a tool_calls) s
  /\ _execute_tools_concurrent a tool_calls s
    = _execute_tools_concurrent a (registered a tool_calls) s
  /\ (registered a tool_calls = [] ->
      _execute_tools_sequential a tool_calls s = (Return [], s)
      /\ _execute_tools_concurrent a tool_calls s = (Return [], s))
  /\ (forall results,
        (_execute_tools_sequential a tool_calls s).1 = Return results
        \/ (_execute_tools_concurrent a tool_calls s).1 = Return results ->
        length results = length (registered a tool_calls)
        /\ tool_call_id <$> results = tc_id <$> registered a tool_calls
        /\ res_name <$> results = tc_name <$> registered a tool_calls).
Proof.
  assert (Hseq : _execute_tools_sequential a tool_calls s
                 = _execute_tools_sequential a (registered a tool_calls) s)
    by apply sequential_loop_registered.
  assert (Hconc : _execute_tools_concurrent a tool_calls s
                  = _execute_tools_concurrent a (registered a tool_calls) s).
  { unfold _execute_tools_concurrent, gather.
    by rewrite !launch_resolved, resolved_registered. }
  split; [done|]. split; [done|]. split.
  - intros Hnone. rewrite Hseq, Hconc, Hnone. split; [done|].
    unfold _execute_tools_concurrent, gather, gather_with. simpl.
    by rewrite interleave_nil.
  - intros results Hres.
    assert (Hids : tool_call_id <$> results = tc_id <$> registered a tool_calls
                   /\ res_name <$> results = tc_name <$> registered a tool_calls).
    { destruct Hres as [Hres|Hres];
        [by apply (sequential_answers tool_calls s) | by apply (concurrent_answers tool_calls s)]. }
    split; [|done].
    destruct Hids as [Hids _]. apply (f_equal length) in Hids.
    by rewrite !length_fmap in Hids.
Qed.

(** *** What every dispatched request gets *)

Lemma step_serving (x : tool * tool_call) (k : task) (s : state) :
  serving a x k -> serving a x (step a k s).1.
Proof.
  destruct k as [t tc|t tc|tc v|tc e|o]; simpl.
  - intros <-.
    by destruct (_trigger_hook a "on_function_call_start" (call_payload a tc) s)
      as [[[]|e] s'].
  - intros <-. rewrite invoke_outcome.
    destruct (build_args a tc) as [kw|e] eqn:Hargs.
    + destruct (func t kw (world s)) as [[v|e] w] eqn:Hcall; simpl.
      * split; [done|]. exists kw, (world s). by rewrite Hcall.
      * split; [done|]. exists (world s), (world s). unfold served. simpl.
        by rewrite Hargs, Hcall.
    + simpl. split; [done|]. exists (world s), (world s). unfold served. simpl.
      by rewrite Hargs.
  - intros [-> (kw & w & Hargs & Hcall)]. unfold on_success, bind, _trigger_hook.
    destruct (run_callbacks (hooks a "on_function_call_end")
                (<["result" := v]> (call_payload a x.2)) (world s)) as [[[]|e] w'] eqn:Hrun;
      simpl.
    + exists w, (world s). unfold served. by rewrite Hargs, Hcall, Hrun.
    + split; [done|]. exists w, (world s). unfold served. by rewrite Hargs, Hcall, Hrun.
  - intros [-> (w & w' & Hserved)].
    destruct (on_failure_outcome x.2 e s) as (w3 & [e'|] & ->); simpl; [done|].
    exists w, w'. by rewrite Hserved.
  - done.
Qed.

Lemma done_served (x : tool * tool_call) (o : outcome tool_result) :
  serving a x (TDone o) -> served_outcome a x o.
Proof. done. Qed.

Lemma served_results (xs : list (tool * tool_call)) (rs : list tool_result) :
  Forall2 (served_outcome a) xs (Return <$> rs) -> Forall2 (serves a) xs rs.
Proof. rewrite Forall2_fmap_r. intros Hxs. eapply Forall2_impl; [exact Hxs|]. by intros x r. Qed.

(** An invariant of the tasks that holds when a task is launched gives what
    it promises of every outcome of a dispatch, in either mode. *)
Section DispatchInvariant.
Context (R : tool * tool_call -> task -> Prop)
        (Q : tool * tool_call -> outcome tool_result -> Prop).
Hypothesis step_keeps : forall x k s, R x k -> R x (step a k s).1.
Hypothesis done_gives : forall x o, R x (TDone o) -> Q x o.
Hypothesis start_holds : forall x, R x (TStart x.1 x.2).

Lemma gather_holds (sched : list nat) (tool_calls : list tool_call) (s : state) :
  Forall2 Q (resolved a tool_calls) (gather_with a sched (launch a tool_calls) s).1.
Proof.
  apply (gather_gives R Q step_keeps done_gives). rewrite launch_resolved.
  induction (resolved a tool_calls) as [|x xs IH]; simpl; by constructor.
Qed.

Lemma sequential_loop_holds (tool_calls : list tool_call) (acc rs : list tool_result)
    (s s' : state) :
  sequential_loop a tool_calls acc s = (Return rs, s') ->
  exists new, rs = acc ++ new /\ Forall2 Q (resolved a tool_calls) (Return <$> new).
Proof.
  unfold resolved. revert acc s.
  induction tool_calls as [|tc rest IH]; intros acc s Hrun; simpl in Hrun.
  - injection Hrun as <- <-. exists []. rewrite app_nil_r. split; [done | constructor].
  - csimpl. destruct (_tool_map a !! tc_name tc) as [t|] eqn:Ht; csimpl.
    + unfold bind in Hrun.
      pose proof (resume_gives R Q step_keeps done_gives (t, tc) (TStart t tc) s
                    (start_holds (t, tc))) as Hq.
      simpl in Hq.
      destruct (_execute_tool a t tc s) as [[r|e] s1]; [|done].
      destruct (IH _ _ Hrun) as (new & -> & Hnew).
      exists (r :: new). rewrite <- app_assoc. split; [done|]. csimpl. by constructor.
    + by apply (IH _ s).
Qed.

End DispatchInvariant.

(** *** The calls a dispatch makes *)

Lemma calls_app (evs evs' : list event) : calls (evs ++ evs') = calls evs ++ calls evs'.
Proof. apply List.filter_app. Qed.

Section Calls.
Hypothesis quiet_start : quiet a "on_function_call_start".

Lemma step_calls (k : task) (s : state) :
  exists evs, trace (step a k s).2 = trace s ++ evs
              /\ calls evs ++ pending_call a (step a k s).1 = pending_call a k.
Proof.
  destruct k as [t tc|t tc|tc v|tc e|o]; simpl.
  - destruct (trigger_hook_quiet "on_function_call_start" (call_payload a tc) s quiet_start)
      as [w ->].
    by exists [EvHook "on_function_call_start" (call_payload a tc) None].
  - rewrite invoke_outcome. unfold due_call. simpl.
    destruct (build_args a tc) as [kw|e] eqn:Hargs.
    + exists [EvCall (tool_name t) kw].
      by destruct (func t kw (world s)) as [[v|e] w].
    + exists []. by rewrite app_nil_r.
  - destruct (on_success_outcome tc v s) as (w & [e|] & ->); by eexists [_].
  - destruct (on_failure_outcome tc e s) as (w & [e'|] & ->); by eexists [_].
  - exists []. by rewrite app_nil_r.
Qed.

Lemma resume_calls_upto (n : nat) (k : task) (s : state) :
  rank k <= n ->
  exists evs, trace (resume a k s).2 = trace s ++ evs /\ calls evs = pending_call a k.
Proof.
  revert k s. induction n as [|n IH]; intros k s Hn.
  - destruct k; simpl in Hn; try lia. exists []. by rewrite app_nil_r.
  - destruct (decide (rank k = 0)) as [H0|H0].
    + destruct k; simpl in H0; try lia. exists []. by rewrite app_nil_r.
    + rewrite resume_step.
      destruct (step_calls k s) as (evs1 & Ht1 & Hc1).
      destruct (IH (step a k s).1 (step a k s).2) as (evs2 & Ht2 & Hc2).
      { pose proof (step_rank k s). lia. }
      exists (evs1 ++ evs2). rewrite Ht2, Ht1, app_assoc, calls_app. split; [done|].
      by rewrite Hc2.
Qed.

Lemma step_at_calls (i : nat) (ks : list task) (s : state) :
  exists evs, trace (step_at a i ks s).2 = trace s ++ evs
              /\ calls evs ++ ((step_at a i ks s).1 ≫= pending_call a)
                 ≡ₚ ks ≫= pending_call a.
Proof.
  unfold step_at. destruct (ks !! i) as [k|] eqn:Hk.
  - destruct (step_calls k s) as (evs & Ht & Hc).
    destruct (step a k s) as [k' s']. simpl in *.
    exists evs. split; [done|].
    apply list_elem_of_split_length in Hk as (l1 & l2 & -> & ->).
    rewrite insert_app_r_alt, Nat.sub_diag by done. simpl.
    rewrite !bind_app, !bind_cons, <- Hc, <- !app_assoc.
    apply Permutation_app_swap_app.
  - exists []. by rewrite app_nil_r.
Qed.

Lemma interleave_calls (sched : list nat) (ks : list task) (s : state) :
  exists evs, trace (interleave a sched ks s).2 = trace s ++ evs
              /\ calls evs ++ ((interleave a sched ks s).1 ≫= pending_call a)
                 ≡ₚ ks ≫= pending_call a.
Proof.
  revert ks s. induction sched as [|i sched IH]; intros ks s; simpl.
  - exists []. by rewrite app_nil_r.
  - destruct (step_at_calls i ks s) as (evs1 & Ht1 & Hc1).
    destruct (step_at a i ks s) as [ks1 s1]. simpl in *.
    destruct (IH ks1 s1) as (evs2 & Ht2 & Hc2).
    exists (evs1 ++ evs2). rewrite Ht2, Ht1, app_assoc, calls_app. split; [done|].
    by rewrite <- Hc1, <- Hc2, <- app_assoc.
Qed.

Lemma drain_calls (ks : list task) (s : state) :
  exists evs, trace (drain a ks s).2 = trace s ++ evs
              /\ calls evs = ks ≫= pending_call a.
Proof.
  revert s. induction ks as [|k ks IH]; intros s; simpl.
  - exists []. by rewrite app_nil_r.
  - destruct (resume_calls_upto (rank k) k s) as (evs1 & Ht1 & Hc1); [done|].
    destruct (resume a k s) as [r s1]. simpl in *.
    destruct (IH s1) as (evs2 & Ht2 & Hc2).
    destruct (drain a ks s1) as [rs s2]. simpl in *.
    exists (evs1 ++ evs2). rewrite Ht2, Ht1, app_assoc, calls_app. split; [done|].
    by rewrite Hc1, Hc2.
Qed.

Lemma launch_pending (tool_calls : list tool_call) :
  launch a tool_calls ≫= pending_call a = due_calls a (resolved a tool_calls).
Proof.
  rewrite launch_resolved. unfold due_calls.
  induction (resolved a tool_calls) as [|[t tc] xs IH]; csimpl; [done|]. by rewrite IH.
Qed.

Lemma concurrent_calls (tool_calls : list tool_call) (s : state) :
  calls (new_events s (_execute_tools_concurrent a tool_calls s).2)
  ≡ₚ due_calls a (resolved a tool_calls).
Proof.
  rewrite concurrent_unfold. simpl. unfold gather_with.
  destruct (interleave_calls (schedule (world s)) (launch a tool_calls) s)
    as (evs1 & Ht1 & Hc1).
  destruct (interleave a (schedule (world s)) (launch a tool_calls) s) as [ks1 s1].
  simpl in *.
  destruct (drain_calls ks1 s1) as (evs2 & Ht2 & Hc2).
  unfold new_events. rewrite Ht2, Ht1, <- app_assoc, drop_app_length.
  by rewrite calls_app, Hc2, Hc1, launch_pending.
Qed.

Lemma sequential_loop_calls (tool_calls : list tool_call) (acc : list tool_result)
    (s : state) :
  exists evs, trace (sequential_loop a tool_calls acc s).2 = trace s ++ evs
              /\ (returned (sequential_loop a tool_calls acc s).1 ->
                  calls evs = due_calls a (resolved a tool_calls)).
Proof.
  unfold due_calls, resolved. revert acc s.
  induction tool_calls as [|tc rest IH]; intros acc s; simpl.
  - exists []. by rewrite app_nil_r.
  - csimpl. destruct (_tool_map a !! tc_name tc) as [t|] eqn:Ht; csimpl; [|apply IH].
    unfold bind.
    destruct (resume_calls_upto 4 (TStart t tc) s) as (evs1 & Ht1 & Hc1); [done|].
    simpl in Ht1, Hc1.
    destruct (_execute_tool a t tc s) as [[r|e] s1]; simpl in *.
    + destruct (IH (acc ++ [r]) s1) as (evs2 & Ht2 & Hc2).
      exists (evs1 ++ evs2). rewrite Ht2, Ht1, app_assoc, calls_app. split; [done|].
      intros Hret. by rewrite Hc1, (Hc2 Hret).
    + by exists evs1.
Qed.

End Calls.

(** C2. When no start or error hook faults, a call whose arguments cannot be
    decoded or whose callable raises still gets a result from
    [_execute_tool]: it carries the identifier and the name of the request
    and the description of the error.  And a batch is then dispatched to its
    end in both modes: every registered request gets its own result, in
    request order, whose value is what its tool returned or the description
    of what failed for it, and the callable of every request whose arguments
    could be built has been called once, the failure of another request
    notwithstanding (in request order in the sequential mode, in the order
    of the event loop in the concurrent one). *)
Theorem tool_failure_becomes_result :
  quiet a "on_function_call_start" -> quiet a "on_function_call_error" ->
  (forall t tc s e,
      let w1 := (run_callbacks (hooks a "on_function_call_start")
                               (call_payload a tc) (world s)).2 in
      build_args a tc = Raise e
      \/ (exists kw, build_args a tc = Return kw /\ (func t kw w1).1 = Raise e) ->
      (_execute_tool a t tc s).1 = Return (result_of tc (VStr (str_exn e))))
  /\ (forall tool_calls s,
        exists results,
          (_execute_tools_sequential a tool_calls s).1 = Return results
          /\ tool_call_id <$> results = tc_id <$> registered a tool_calls
          /\ res_name <$> results = tc_name <$> registered a tool_calls
          /\ Forall2 (serves a) (resolved a tool_calls) results
          /\ calls (new_events s (_execute_tools_sequential a tool_calls s).2)
             = due_calls a (resolved a tool_calls))
  /\ (forall tool_calls s,
        exists results,
          (_execute_tools_concurrent a tool_calls s).1 = Return results
          /\ tool_call_id <$> results = tc_id <$> registered a tool_calls
          /\ res_name <$> results = tc_name <$> registered a tool_calls
          /\ Forall2 (serves a) (resolved a tool_calls) results
          /\ calls (new_events s (_execute_tools_concurrent a tool_calls s).2)
             ≡ₚ due_calls a (resolved a tool_calls)).
Proof.
  intros Hstart Herror. split; [|split].
  - intros t tc s e w1 Hfail. subst w1.
    unfold _execute_tool, bind, _trigger_hook.
    pose proof (run_callbacks_quiet (hooks a "on_function_call_start")
                  (call_payload a tc) (world s) Hstart) as Hrun.
    destruct (run_callbacks (hooks a "on_function_call_start") (call_payload a tc) (world s))
      as [[[]|e0] w1]; simpl in Hrun; [|done]. simpl in Hfail.
    unfold try_except. rewrite invoke_outcome. simpl.
    destruct Hfail as [Hdec|(kw & Hdec & Hcall)]; rewrite Hdec.
    + by destruct (on_failure_quiet tc e
                     (log (EvHook "on_function_call_start" (call_payload a tc) None)
                          (set_world w1 s)) Herror) as [s' ->].
    + rewrite Hcall.
      match goal with |- context [on_failure a tc e ?s0] =>
        by destruct (on_failure_quiet tc e s0 Herror) as [s' ->] end.
  - intros tool_calls s.
    pose proof (sequential_loop_returns tool_calls [] s Hstart Herror) as Hr.
    destruct (sequential_loop_calls Hstart tool_calls [] s) as (evs & Ht & Hc).
    unfold _execute_tools_sequential.
    destruct (sequential_loop a tool_calls [] s) as [[results|e] s'] eqn:Hrun; [|done].
    exists results. split; [done|]. simpl in *.
    destruct (sequential_answers tool_calls s results) as [Hids Hnames].
    { unfold _execute_tools_sequential. by rewrite Hrun. }
    split; [done|]. split; [done|]. split.
    + apply (sequential_loop_holds (serving a) (served_outcome a) step_serving done_served)
        in Hrun as (new & -> & Hnew); [|by intros []].
      by apply served_results.
    + unfold new_events. rewrite Ht, drop_app_length. by apply Hc.
  - intros tool_calls s.
    destruct (raise_first_returned _
                (gather_returned (schedule (world s)) tool_calls s Hstart Herror))
      as [results Hres].
    exists results.
    assert (Hrun : (_execute_tools_concurrent a tool_calls s).1 = Return results)
      by (by rewrite concurrent_unfold).
    split; [done|].
    destruct (concurrent_answers tool_calls s results Hrun) as [Hids Hnames].
    split; [done|]. split; [done|]. split; [|by apply concurrent_calls].
    apply served_results. rewrite <- (raise_first_Return _ _ Hres).
    apply (gather_holds (serving a) (served_outcome a) step_serving done_served).
    by intros [].
Qed.

(** *** The keyword arguments of a call *)

Lemma build_args_identity (tc : tool_call) (kw : gmap string value) :
  build_args a tc = Return kw ->
  kw !! "user_id" = Some (user_id a)
  /\ kw !! "chat_id" = Some (chat_id a)
  /\ kw !! "agent_name" = Some (VStr (agent_name a)).
Proof.
  unfold build_args, bind_outcome. intros Hkw.
  assert (Hd : exists d : gmap string value,
             kw = <["agent_name" := VStr (agent_name a)]>
                    (<["chat_id" := chat_id a]> (<["user_id" := user_id a]> d))).
  { destruct (tc_arguments tc) as [| | |str| |d];
      try (destruct (json_loads str) as [[| | | | |d]|]); simplify_eq; by eexists. }
  destruct Hd as [d ->]. by simplify_map_eq.
Qed.

Lemma new_events_app (s s' : state) (evs : list event) :
  trace s' = trace s ++ evs -> new_events s s' = evs.
Proof. unfold new_events. intros ->. by rewrite drop_app_length. Qed.

Ltac in_events :=
  let Hin := fresh "Hin" in
  intros Hin; apply list_elem_of_In in Hin; simpl in Hin;
  intuition (try discriminate; simplify_eq; done).

Lemma execute_tool_calls (t : tool) (tc : tool_call) (s : state) (tl : string)
    (kw : gmap string value) :
  EvCall tl kw ∈ new_events s (_execute_tool a t tc s).2 ->
  tl = tool_name t /\ build_args a tc = Return kw.
Proof.
  unfold _execute_tool, bind.
  destruct (trigger_hook_outcome "on_function_call_start" (call_payload a tc) s)
    as (w & [e|] & ->); simpl.
  { erewrite new_events_app by (simpl; reflexivity). in_events. }
  unfold try_except, bind. rewrite invoke_outcome.
  destruct (build_args a tc) as [kw'|e] eqn:Hargs.
  - destruct (func t kw' w) as [[v|e] w'] eqn:Hcall; simpl; rewrite Hcall; simpl.
    + match goal with |- context [on_success a tc v ?s0] =>
        destruct (on_success_outcome tc v s0) as (w2 & [e|] & ->) end; simpl.
      * match goal with |- context [on_failure a tc e ?s0] =>
          destruct (on_failure_outcome tc e s0) as (w3 & fault & ->) end; simpl.
        erewrite new_events_app by (simpl; rewrite <- !app_assoc; reflexivity).
        in_events.
      * erewrite new_events_app by (simpl; rewrite <- !app_assoc; reflexivity).
        in_events.
    + match goal with |- context [on_failure a tc e ?s0] =>
        destruct (on_failure_outcome tc e s0) as (w3 & fault & ->) end; simpl.
      erewrite new_events_app by (simpl; rewrite <- !app_assoc; reflexivity).
      in_events.
  - match goal with |- context [on_failure a tc e ?s0] =>
      destruct (on_failure_outcome tc e s0) as (w3 & fault & ->) end; simpl.
    erewrite new_events_app by (simpl; rewrite <- !app_assoc; reflexivity).
    in_events.
Qed.

(** C10. Whenever [_execute_tool] calls the tool's callable, the keyword
    arguments are those built from the request, and they carry the agent's
    own [user_id], [chat_id] and [agent_name], whatever the arguments the
    model supplied. *)
Theorem tool_receives_agent_identity (t : tool) (tc : tool_call) (s : state)
    (tl : string) (kw : gmap string value) :
  EvCall tl kw ∈ new_events s (_execute_tool a t tc s).2 ->
  build_args a tc = Return kw
  /\ kw !! "user_id" = Some (user_id a)
  /\ kw !! "chat_id" = Some (chat_id a)
  /\ kw !! "agent_name" = Some (VStr (agent_name a)).
Proof.
  intros [_ Hargs]%execute_tool_calls. split; [done|].
  by apply (build_args_identity tc).
Qed.

(** *** Deterministic tools under quiet hooks *)

Section Deterministic.
Hypothesis quiet_start : quiet a "on_function_call_start".
Hypothesis quiet_end : quiet a "on_function_call_end".
Hypothesis quiet_error : quiet a "on_function_call_error".
Variable w0 : W.

Lemma on_success_quiet (tc : tool_call) (v : value) (s : state) :
  exists s', on_success a tc v s = (Return (result_of tc v), s').
Proof.
  unfold on_success, bind.
  destruct (trigger_hook_quiet "on_function_call_end"
              (<["result" := v]> (call_payload a tc)) s quiet_end) as [w ->].
  by eexists.
Qed.

Lemma step_agrees (x : tool * tool_call) (k : task) (s : state) :
  deterministic x.1 /\ agrees a w0 x k ->
  deterministic x.1 /\ agrees a w0 x (step a k s).1.
Proof.
  intros [Hdet Hk]. split; [done|].
  destruct k as [t tc|t tc|tc v|tc e|r]; simpl in *.
  - by destruct (trigger_hook_quiet "on_function_call_start" (call_payload a tc) s quiet_start)
      as [w ->].
  - subst x. simpl in *. rewrite invoke_outcome.
    destruct (build_args a tc) as [kw|e] eqn:Hargs; simpl; [|by auto].
    destruct (func t kw (world s)) as [o w] eqn:Hcall. simpl.
    assert (Ho : (func t kw w0).1 = o) by (by rewrite (Hdet kw w0 (world s)), Hcall).
    destruct o as [v|e]; simpl; eauto.
  - destruct Hk as (-> & kw & Hargs & Hcall).
    destruct (on_success_quiet x.2 v s) as [s' ->]. simpl.
    unfold expected. by rewrite Hargs, Hcall.
  - destruct Hk as [-> Hfail].
    destruct (on_failure_quiet x.2 e s quiet_error) as [s' ->]. simpl.
    unfold expected.
    destruct Hfail as [Hargs|(kw & Hargs & Hcall)]; [by rewrite Hargs|].
    by rewrite Hargs, Hcall.
  - done.
Qed.

Lemma done_expected (x : tool * tool_call) (r : outcome tool_result) :
  deterministic x.1 /\ agrees a w0 x (TDone r) -> r = Return (expected a w0 x).
Proof. by intros [_ ?]. Qed.

Lemma execute_tool_expected (t : tool) (tc : tool_call) (s : state) :
  deterministic t -> (_execute_tool a t tc s).1 = Return (expected a w0 (t, tc)).
Proof.
  intros Hdet.
  by apply (resume_gives (fun x k => deterministic x.1 /\ agrees a w0 x k)
              (fun x r => r = Return (expected a w0 x))
              step_agrees done_expected (t, tc) (TStart t tc)).
Qed.

Lemma sequential_loop_expected (tool_calls : list tool_call) (acc : list tool_result)
    (s : state) :
  (forall x, x ∈ resolved a tool_calls -> deterministic x.1) ->
  (sequential_loop a tool_calls acc s).1
  = Return (acc ++ (expected a w0 <$> resolved a tool_calls)).
Proof.
  unfold resolved. revert acc s.
  induction tool_calls as [|tc rest IH]; intros acc s Hdet; csimpl.
  - by rewrite app_nil_r.
  - csimpl in Hdet.
    destruct (_tool_map a !! tc_name tc) as [t|] eqn:Ht; csimpl in *; [|by apply IH].
    unfold bind.
    pose proof (execute_tool_expected t tc s (Hdet (t, tc) (list_elem_of_here _ _))) as He.
    destruct (_execute_tool a t tc s) as [o s']. simpl in He. subst o.
    rewrite IH; [by rewrite <- app_assoc|].
    intros x Hx. apply Hdet. by apply list_elem_of_further.
Qed.

Lemma gather_expected (sched : list nat) (tool_calls : list tool_call) (s : state) :
  (forall x, x ∈ resolved a tool_calls -> deterministic x.1) ->
  (gather_with a sched (launch a tool_calls) s).1
  = Return <$> (expected a w0 <$> resolved a tool_calls).
Proof.
  intros Hdet.
  assert (Hinit : Forall2 (fun x k => deterministic x.1 /\ agrees a w0 x k)
                          (resolved a tool_calls) (launch a tool_calls)).
  { rewrite launch_resolved.
    apply Forall2_fmap_r, Forall_Forall2_diag, Forall_forall.
    intros [t tc] Hx. split; [|done]. by apply (Hdet (t, tc)). }
  pose proof (gather_gives (fun x k => deterministic x.1 /\ agrees a w0 x k)
                (fun x r => r = Return (expected a w0 x))
                step_agrees done_expected sched (resolved a tool_calls)
                (launch a tool_calls) s Hinit) as Hg.
  rewrite <- list_fmap_compose. clear Hinit Hdet.
  induction Hg as [|x o xs os Hxo _ IH]; csimpl; [done|]. by rewrite Hxo, IH.
Qed.

End Deterministic.

Lemma registered_all (tool_calls : list tool_call) :
  Forall (fun tc => is_Some (_tool_map a !! tc_name tc)) tool_calls ->
  registered a tool_calls = tool_calls.
Proof.
  unfold registered. induction 1 as [|tc rest Htc _ IH]; [done|].
  rewrite filter_cons, decide_True by done. by rewrite IH.
Qed.

(** C1. When the tool-level hooks never fault and the tools the requests
    resolve to are deterministic, the sequential dispatch and the concurrent
    dispatch of a batch return the same list of results, whatever the order
    in which the event loop resumes the tasks; the results follow the order
    of the requests, and there is one per request when every request names a
    registered tool. *)
Theorem dispatch_modes_agree (tool_calls : list tool_call) (s : state) :
  quiet a "on_function_call_start" ->
  quiet a "on_function_call_end" ->
  quiet a "on_function_call_error" ->
  (forall tc t, tc ∈ tool_calls -> _tool_map a !! tc_name tc = Some t -> deterministic t) ->
  exists results,
    (_execute_tools_sequential a tool_calls s).1 = Return results
    /\ (_execute_tools_concurrent a tool_calls s).1 = Return results
    /\ (forall sched,
          raise_first (gather_with a sched (launch a tool_calls) s).1 = Return results)
    /\ tool_call_id <$> results = tc_id <$> registered a tool_calls
    /\ (Forall (fun tc => is_Some (_tool_map a !! tc_name tc)) tool_calls ->
        tool_call_id <$> results = tc_id <$> tool_calls).
Proof.
  intros Hstart Hend Herror Hdet0.
  assert (Hdet : forall x, x ∈ resolved a tool_calls -> deterministic x.1).
  { unfold resolved. intros x (tc & Htc & Hx)%list_elem_of_omap.
    destruct (_tool_map a !! tc_name tc) as [t|] eqn:Ht; simpl in Hx; [|done].
    injection Hx as <-. by apply (Hdet0 tc). }
  exists (expected a (world s) <$> resolved a tool_calls).
  assert (Hgather : forall sched,
             raise_first (gather_with a sched (launch a tool_calls) s).1
             = Return (expected a (world s) <$> resolved a tool_calls)).
  { intros sched.
    rewrite (gather_expected Hstart Hend Herror (world s) sched tool_calls s Hdet).
    apply raise_first_fmap. }
  assert (Hids : tool_call_id <$> (expected a (world s) <$> resolved a tool_calls)
                 = tc_id <$> registered a tool_calls).
  { rewrite registered_resolved, <- !list_fmap_compose. by apply list_fmap_ext. }
  split; [|split; [|split; [|split]]].
  - unfold _execute_tools_sequential.
    by rewrite (sequential_loop_expected Hstart Hend Herror (world s) tool_calls [] s Hdet).
  - rewrite concurrent_unfold. apply Hgather.
  - done.
  - done.
  - intros Hall. by rewrite Hids, registered_all.
Qed.

(** *** Every gathered task runs to its end *)

Lemma finals_app (evs evs' : list event) : finals (evs ++ evs') = finals evs + finals evs'.
Proof. unfold finals. by rewrite List.filter_app, length_app. Qed.

Lemma step_finals (k : task) (s : state) :
  exists evs, trace (step a k s).2 = trace s ++ evs
              /\ finals evs + undone (step a k s).1 = undone k.
Proof.
  step_cases k s.
  - by exists [EvHook "on_function_call_start" (call_payload a tc) (Some e)].
  - by exists [EvHook "on_function_call_start" (call_payload a tc) None].
  - by exists [EvCall (tool_name t) kw].
  - by exists [EvCall (tool_name t) kw].
  - exists []. by rewrite app_nil_r.
  - by exists [EvHook "on_function_call_end" (<["result" := v]> (call_payload a tc)) (Some e)].
  - by exists [EvHook "on_function_call_end" (<["result" := v]> (call_payload a tc)) None].
  - by exists [EvHook "on_function_call_error"
                 (<["error" := VStr (str_exn e)]> (call_payload a tc)) (Some e0)].
  - by exists [EvHook "on_function_call_error"
                 (<["error" := VStr (str_exn e)]> (call_payload a tc)) None].
  - exists []. by rewrite app_nil_r.
Qed.

Lemma resume_finals_upto (n : nat) (k : task) (s : state) :
  rank k <= n ->
  exists evs, trace (resume a k s).2 = trace s ++ evs /\ finals evs = undone k.
Proof.
  revert k s. induction n as [|n IH]; intros k s Hn.
  - destruct k; simpl in Hn; try lia. exists []. by rewrite app_nil_r.
  - destruct (decide (rank k = 0)) as [H0|H0].
    + destruct k; simpl in H0; try lia. exists []. by rewrite app_nil_r.
    + rewrite resume_step.
      destruct (step_finals k s) as (evs1 & Ht1 & Hf1).
      destruct (IH (step a k s).1 (step a k s).2) as (evs2 & Ht2 & Hf2).
      { pose proof (step_rank k s). lia. }
      exists (evs1 ++ evs2). rewrite Ht2, Ht1, app_assoc, finals_app. split; [done|lia].
Qed.

Lemma step_at_finals (i : nat) (ks : list task) (s : state) :
  exists evs, trace (step_at a i ks s).2 = trace s ++ evs
              /\ finals evs + sum_list_with undone (step_at a i ks s).1
                 = sum_list_with undone ks
              /\ length (step_at a i ks s).1 = length ks.
Proof.
  unfold step_at. destruct (ks !! i) as [k|] eqn:Hk.
  - destruct (step_finals k s) as (evs & Ht & Hf).
    destruct (step a k s) as [k' s']. simpl in *.
    exists evs. split; [done|]. split; [|by rewrite length_insert].
    apply list_elem_of_split_length in Hk as (l1 & l2 & -> & ->).
    rewrite insert_app_r_alt, Nat.sub_diag by done. simpl.
    rewrite !sum_list_with_app. simpl. lia.
  - exists []. by rewrite app_nil_r.
Qed.

Lemma interleave_finals (sched : list nat) (ks : list task) (s : state) :
  exists evs, trace (interleave a sched ks s).2 = trace s ++ evs
              /\ finals evs + sum_list_with undone (interleave a sched ks s).1
                 = sum_list_with undone ks
              /\ length (interleave a sched ks s).1 = length ks.
Proof.
  revert ks s. induction sched as [|i sched IH]; intros ks s; simpl.
  - exists []. by rewrite app_nil_r.
  - destruct (step_at_finals i ks s) as (evs1 & Ht1 & Hf1 & Hl1).
    destruct (step_at a i ks s) as [ks1 s1]. simpl in *.
    destruct (IH ks1 s1) as (evs2 & Ht2 & Hf2 & Hl2).
    exists (evs1 ++ evs2). rewrite Ht2, Ht1, app_assoc, finals_app.
    split; [done|]. split; [lia | congruence].
Qed.

Lemma drain_finals (ks : list task) (s : state) :
  exists evs, trace (drain a ks s).2 = trace s ++ evs
              /\ finals evs = sum_list_with undone ks
              /\ length (drain a ks s).1 = length ks.
Proof.
  revert s. induction ks as [|k ks IH]; intros s; simpl.
  - exists []. by rewrite app_nil_r.
  - destruct (resume_finals_upto (rank k) k s) as (evs1 & Ht1 & Hf1); [done|].
    destruct (resume a k s) as [r s1]. simpl in *.
    destruct (IH s1) as (evs2 & Ht2 & Hf2 & Hl2).
    destruct (drain a ks s1) as [rs s2]. simpl in *.
    exists (evs1 ++ evs2). rewrite Ht2, Ht1, app_assoc, finals_app.
    split; [done|]. split; [lia | congruence].
Qed.

Lemma gather_finals (sched : list nat) (ks : list task) (s : state) :
  exists evs, trace (gather_with a sched ks s).2 = trace s ++ evs
              /\ finals evs = sum_list_with undone ks
              /\ length (gather_with a sched ks s).1 = length ks.
Proof.
  unfold gather_with.
  destruct (interleave_finals sched ks s) as (evs1 & Ht1 & Hf1 & Hl1).
  destruct (interleave a sched ks s) as [ks1 s1]. simpl in *.
  destruct (drain_finals ks1 s1) as (evs2 & Ht2 & Hf2 & Hl2).
  exists (evs1 ++ evs2). rewrite Ht2, Ht1, app_assoc, finals_app.
  split; [done|]. split; [lia | congruence].
Qed.

Lemma launch_undone (tool_calls : list tool_call) :
  sum_list_with undone (launch a tool_calls) = length (launch a tool_calls).
Proof.
  rewrite launch_resolved.
  induction (resolved a tool_calls) as [|x xs IH]; csimpl; [done|]. by rewrite IH.
Qed.

Lemma raise_first_Raise_inv (os : list (outcome tool_result)) (e : exn) :
  raise_first os = Raise e ->
  exists pre post, os = (Return <$> pre) ++ Raise e :: post.
Proof.
  induction os as [|[r|e'] os IH]; csimpl; [done| |].
  - destruct (raise_first os) as [rs|e'']; csimpl; [done|].
    intros [= ->]. destruct IH as (pre & post & ->); [done|].
    by exists (r :: pre), post.
  - intros [= ->]. by exists [], os.
Qed.

(** *** Whose outcome it is *)

Lemma step_owning (x : tool * tool_call) (k : task) (s : state) :
  owning a x k -> owning a x (step a k s).1.
Proof.
  destruct k as [t tc|t tc|tc v|tc e|o]; simpl.
  - intros <-. unfold _trigger_hook.
    destruct (run_callbacks (hooks a "on_function_call_start") (call_payload a tc) (world s))
      as [[[]|e] w] eqn:Hrun; simpl; [done|].
    left. exists (world s). simpl. by rewrite Hrun.
  - intros <-. by destruct (invoke a t tc s) as [[v|e] s'].
  - intros ->. by destruct (on_success_outcome x.2 v s) as (w & [e|] & ->).
  - intros ->. unfold on_failure, bind, _trigger_hook.
    destruct (run_callbacks (hooks a "on_function_call_error")
                (<["error" := VStr (str_exn e)]> (call_payload a x.2)) (world s))
      as [[[]|e'] w] eqn:Hrun; simpl; [done|].
    right. exists e, (world s). by rewrite Hrun.
  - done.
Qed.

Lemma done_own (x : tool * tool_call) (o : outcome tool_result) :
  owning a x (TDone o) -> own_outcome a x o.
Proof. done. Qed.

Lemma gather_own (sched : list nat) (tool_calls : list tool_call) (s : state) :
  Forall2 (own_outcome a) (resolved a tool_calls)
          (gather_with a sched (launch a tool_calls) s).1.
Proof.
  apply (gather_holds (owning a) (own_outcome a) step_owning done_own). by intros [].
Qed.

(** C6. The concurrent dispatch raises what [raise_first] finds in the
    outcomes that [gather] returns.  [gather] returns one outcome per
    launched task after every one of them has run to its end, whether or not
    another task faulted, and the outcome at a position is the one of the
    request at that position: a result with its identifier and name, or a
    fault of its own start or error hook.  So the dispatch raises a fault
    exactly when it is the first one in request order: the requests before
    the one it belongs to all have their results, which are dropped, and so
    is whatever the tasks after it ended with.  It returns results only when
    no task faulted. *)
Theorem concurrent_fault_after_all_tasks (tool_calls : list tool_call) (s : state) :
  let tasks := launch a tool_calls in
  let outcomes := (gather a tasks s).1 in
  let s' := (gather a tasks s).2 in
  _execute_tools_concurrent a tool_calls s = (raise_first outcomes, s')
  /\ length outcomes = length tasks
  /\ finals (new_events s s') = length tasks
  /\ Forall2 (own_outcome a) (resolved a tool_calls) outcomes
  /\ (forall pre e post,
        outcomes = (Return <$> pre) ++ Raise e :: post -> raise_first outcomes = Raise e)
  /\ (forall e, raise_first outcomes = Raise e ->
                exists before x after results later,
                  resolved a tool_calls = before ++ x :: after
                  /\ outcomes = (Return <$> results) ++ Raise e :: later
                  /\ Forall2 (own_outcome a) before (Return <$> results)
                  /\ faults a x e
                  /\ Forall2 (own_outcome a) after later)
  /\ (forall results, raise_first outcomes = Return results -> outcomes = Return <$> results).
Proof.
  intros tasks outcomes s'. subst tasks outcomes s'. unfold gather.
  destruct (gather_finals (schedule (world s)) (launch a tool_calls) s)
    as (evs & Ht & Hf & Hl).
  pose proof (gather_own (schedule (world s)) tool_calls s) as Hown.
  split; [apply concurrent_unfold|]. split; [done|]. split.
  { rewrite (new_events_app _ _ _ Ht), Hf. apply launch_undone. }
  split; [done|]. split; [|split].
  - intros pre e post ->. apply raise_first_Raise.
  - intros e (results & later & Hos)%raise_first_Raise_inv.
    rewrite Hos in Hown.
    apply Forall2_app_inv_r in Hown as (before & rest & Hbefore & Hrest & Hxs).
    apply Forall2_cons_inv_r in Hrest as (x & after & Hx & Hafter & ->).
    by exists before, x, after, results, later.
  - apply raise_first_Return.
Qed.

(** *** Validation of the supplied history *)

Lemma check_messages_invalid (history : list value) :
  Exists (fun msg => valid_message msg = false) history ->
  exists text, check_messages history = Raise (ValueError text).
Proof.
  induction history as [|msg rest IH]; intros Hbad; [by inversion Hbad|].
  simpl. apply Exists_cons in Hbad as [Hmsg|Hrest].
  - unfold valid_message in Hmsg.
    destruct (is_dict msg); simpl; [|by eexists].
    destruct (has_key msg "role"); simpl; [|by eexists].
    destruct (has_key msg "content"); simpl; [done | by eexists].
  - destruct (is_dict msg); simpl; [|by eexists].
    destruct (has_key msg "role"); simpl; [|by eexists].
    destruct (has_key msg "content"); simpl; [by apply IH | by eexists].
Qed.

Lemma validate_history_invalid (history : list value) :
  Exists (fun msg => valid_message msg = false) history ->
  exists text, _validate_history (VList history) = Raise (ValueError text).
Proof.
  intros Hbad. unfold _validate_history.
  destruct history as [|msg rest]; [by inversion Hbad|]. simpl.
  destruct (check_messages_invalid _ Hbad) as [text Htext].
  simpl in Htext. rewrite Htext. by exists text.
Qed.

Lemma validate_history_valid (history : value) (safe_history : list value) :
  _validate_history history = Return safe_history ->
  Forall (fun msg => valid_message msg = true) safe_history.
Proof.
  unfold _validate_history. destruct (negb (truthy history)); [by intros [= <-]|].
  destruct history as [| | | |l|]; try done.
  destruct (check_messages l) as [[]|e] eqn:Hl; simpl; [|done].
  intros [= <-]. by apply check_messages_valid.
Qed.

Lemma on_error_outcome (e : exn) (s : state) :
  exists payload w fault,
    on_error a e s
    = (Raise (match fault with
              | None => e
              | Some e' => e'
              end),
       log (EvHook "on_error" payload fault) (set_world w s))
    /\ (quiet a "on_error" -> fault = None).
Proof.
  unfold on_error, bind, turn_payload, get_now, ret. simpl.
  match goal with |- context [_trigger_hook a "on_error" ?p s] =>
    destruct (trigger_hook_outcome "on_error" p s) as (w & fault & Hrun); exists p end.
  exists w, fault. rewrite Hrun. split; [by destruct fault|].
  intros Hq.
  match type of Hrun with _trigger_hook a _ ?p s = _ =>
    destruct (trigger_hook_quiet "on_error" p s Hq) as [w' Hw'] end.
  rewrite Hw' in Hrun. by destruct fault.
Qed.

(** C3. A supplied history with an entry that is not a mapping, or that
    lacks [role] or [content], makes [send_message] raise: the validation
    error, or the fault of an [on_error] callback when one faults while the
    error is reported.  The history store is left as it was, and the
    emission of [on_error] is the only event of the turn: the model backend
    is not called. *)
Theorem malformed_history_fails_first (fuel : nat) (message : string)
    (history : list value) (s : state) :
  Exists (fun msg => valid_message msg = false) history ->
  exists text payload fault s',
    _validate_history (VList history) = Raise (ValueError text)
    /\ send_message a fuel message (VList history) s
       = Some (Raise (match fault with
                      | None => ValueError text
                      | Some e' => e'
                      end), s')
    /\ (quiet a "on_error" -> fault = None)
    /\ _message_history s' = _message_history s
    /\ new_events s s' = [EvHook "on_error" payload fault]
    /\ (forall messages tools, EvBackend messages tools ∉ new_events s s').
Proof.
  intros Hbad. destruct (validate_history_invalid _ Hbad) as [text Htext].
  unfold send_message, begin_turn, bind, lift. rewrite Htext.
  destruct (on_error_outcome (ValueError text) s) as (payload & w & fault & Herr & Hquiet).
  exists text, payload, fault, (log (EvHook "on_error" payload fault) (set_world w s)).
  rewrite Herr. split; [done|]. split; [done|].
  assert (Hnew : new_events s (log (EvHook "on_error" payload fault) (set_world w s))
                 = [EvHook "on_error" payload fault]) by (by apply new_events_app).
  split; [done|]. split; [done|]. split; [done|].
  intros messages tools. rewrite Hnew. by intros ?%list_elem_of_singleton.
Qed.

(** *** What a dispatch leaves untouched *)

Lemma same_agent_refl (s : state) : same_agent s s.
Proof. done. Qed.

Lemma same_agent_trans (s1 s2 s3 : state) :
  same_agent s1 s2 -> same_agent s2 s3 -> same_agent s1 s3.
Proof. intros [? ?] [? ?]. split; congruence. Qed.

Lemma step_same_agent (k : task) (s : state) : same_agent s (step a k s).2.
Proof. step_cases k s; done. Qed.

Lemma resume_same_agent_upto (n : nat) (k : task) (s : state) :
  rank k <= n -> same_agent s (resume a k s).2.
Proof.
  revert k s. induction n as [|n IH]; intros k s Hn.
  - destruct k; simpl in Hn; try lia. done.
  - destruct (decide (rank k = 0)) as [H0|H0].
    + destruct k; simpl in H0; try lia. done.
    + rewrite resume_step. eapply same_agent_trans; [apply step_same_agent|].
      apply IH. pose proof (step_rank k s). lia.
Qed.

Lemma execute_tool_same_agent (t : tool) (tc : tool_call) (s : state) :
  same_agent s (_execute_tool a t tc s).2.
Proof. by apply (resume_same_agent_upto 4 (TStart t tc)). Qed.

Lemma sequential_loop_same_agent (tool_calls : list tool_call) (acc : list tool_result)
    (s : state) :
  same_agent s (sequential_loop a tool_calls acc s).2.
Proof.
  revert acc s. induction tool_calls as [|tc rest IH]; intros acc s; simpl; [done|].
  destruct (_tool_map a !! tc_name tc) as [t|]; [|apply IH].
  unfold bind. pose proof (execute_tool_same_agent t tc s) as Ht.
  destruct (_execute_tool a t tc s) as [[r|e] s1]; [|done].
  eapply same_agent_trans; [apply Ht | apply IH].
Qed.

Lemma interleave_same_agent (sched : list nat) (ks : list task) (s : state) :
  same_agent s (interleave a sched ks s).2.
Proof.
  revert ks s. induction sched as [|i sched IH]; intros ks s; simpl; [done|].
  assert (Hi : same_agent s (step_at a i ks s).2).
  { unfold step_at. destruct (ks !! i) as [k|]; [|done].
    pose proof (step_same_agent k s). by destruct (step a k s). }
  destruct (step_at a i ks s) as [ks1 s1].
  eapply same_agent_trans; [apply Hi | apply IH].
Qed.

Lemma drain_same_agent (ks : list task) (s : state) : same_agent s (drain a ks s).2.
Proof.
  revert s. induction ks as [|k ks IH]; intros s; simpl; [done|].
  pose proof (resume_same_agent_upto (rank k) k s (le_n _)) as Hk.
  destruct (resume a k s) as [r s1]. specialize (IH s1).
  destruct (drain a ks s1) as [rs s2]. by eapply same_agent_trans.
Qed.

Lemma concurrent_same_agent (tool_calls : list tool_call) (s : state) :
  same_agent s (_execute_tools_concurrent a tool_calls s).2.
Proof.
  rewrite concurrent_unfold. simpl. unfold gather_with.
  pose proof (interleave_same_agent (schedule (world s)) (launch a tool_calls) s) as Hi.
  destruct (interleave a (schedule (world s)) (launch a tool_calls) s) as [ks1 s1].
  eapply same_agent_trans; [apply Hi | apply drain_same_agent].
Qed.

(** *** A stop between the model call and the tool dispatch *)

Lemma simplify_valid (history : list value) :
  Forall (fun msg => valid_message msg = true) history ->
  exists clean_history, simplify history = Return clean_history.
Proof.
  induction 1 as [|msg rest Hmsg _ [clean IH]]; simpl; [by eexists|].
  rewrite (getitem_valid msg "role" (valid_message_role _ Hmsg)),
          (getitem_valid msg "content" (valid_message_content _ Hmsg)), IH.
  simpl.
  destruct (is_str (dict_get msg "role") "user"); simpl; [by eexists|].
  destruct (is_str (dict_get msg "role") "assistant"); simpl; [|by eexists].
  destruct (truthy (dict_get msg "content")); simpl; by eexists.
Qed.

Lemma format_response_valid (resp : option response) (reason : string) (s : state) :
  Forall (fun msg => valid_message msg = true) (_message_history s) ->
  exists r, _format_response a resp reason s = (Return r, s)
            /\ stop_reason r = reason
            /\ history_messages r = _message_history s.
Proof.
  intros [clean Hclean]%simplify_valid.
  unfold _format_response, bind, _get_complete_history, get_history, lift, get_now, ret.
  rewrite Hclean. by eexists.
Qed.

Lemma begin_turn_history (message : string) (history : value) (messages : list value)
    (s s1 : state) :
  begin_turn a message history s = (Return messages, s1) ->
  exists safe_history,
    _validate_history history = Return safe_history
    /\ _message_history s1 = safe_history ++ [user_message message]
    /\ polls s1 = polls s.
Proof.
  unfold begin_turn, bind, lift, put_history, _add_to_history, bind, get_history,
    put_history, turn_payload, get_now, ret.
  destruct (_validate_history history) as [safe|e]; [|done]. simpl.
  match goal with |- context [_trigger_hook a "on_before_request" ?p ?s0] =>
    destruct (trigger_hook_outcome "on_before_request" p s0) as (w & [e|] & ->) end;
    [done|]. simpl.
  destruct (_prepare_messages a message _) as [msgs|e]; [|done].
  intros [= <- <-]. by exists safe.
Qed.

Lemma call_client_same_agent (messages tools : list value) (s : state) :
  same_agent s (call_client a messages tools s).2.
Proof.
  unfold call_client, bind, emit, perform. simpl.
  by destruct (client_send_message a _ _ _ _ _ _) as [[r|e] w].
Qed.

Lemma valid_user_message (message : string) : valid_message (user_message message) = true.
Proof. done. Qed.

Lemma valid_assistant_message (resp : response) :
  valid_message (assistant_message resp) = true.
Proof.
  unfold assistant_message, valid_message.
  destruct (resp_tool_calls resp); simpl; [done|].
  apply andb_true_iff. split; apply bool_decide_eq_true; by simplify_map_eq.
Qed.

Lemma assistant_message_tool_calls (resp : response) :
  resp_tool_calls resp <> [] ->
  dict_get (assistant_message resp) "tool_calls"
  = VList (tool_call_value <$> resp_tool_calls resp).
Proof.
  unfold assistant_message. destruct (resp_tool_calls resp) as [|tc tcs]; [done|].
  intros _. simpl. by simplify_map_eq.
Qed.

Lemma assistant_message_role (resp : response) :
  dict_get (assistant_message resp) "role" = VStr "assistant".
Proof.
  unfold assistant_message. destruct (resp_tool_calls resp); simpl; by simplify_map_eq.
Qed.

Lemma grows_keeps {A : Type} (m : M A) :
  (forall s, _message_history (m s).2 = _message_history s) -> grows m.
Proof. intros Hm s. exists []. by rewrite app_nil_r, Hm. Qed.

Lemma grows_bind {A B : Type} (m : M A) (k : A -> M B) :
  grows m -> (forall x, grows (k x)) -> grows (bind m k).
Proof.
  intros Hm Hk s. unfold bind. destruct (Hm s) as (added1 & Hh1 & Hv1).
  destruct (m s) as [[x|e] s1]; simpl in *; [|by exists added1].
  destruct (Hk x s1) as (added2 & Hh2 & Hv2).
  exists (added1 ++ added2). rewrite Hh2, Hh1, app_assoc. split; [done|].
  by apply Forall_app.
Qed.

Lemma grows_ret {A : Type} (x : A) : grows (ret (H := H) x).
Proof. by apply grows_keeps. Qed.

Lemma grows_trigger_hook (hook : string) (payload : gmap string value) :
  grows (_trigger_hook a hook payload).
Proof.
  apply grows_keeps. intros s.
  by destruct (trigger_hook_outcome hook payload s) as (w & fault & ->).
Qed.

Lemma grows_format_response (resp : option response) (reason : string) :
  grows (_format_response a resp reason).
Proof.
  apply grows_keeps. intros s.
  unfold _format_response, bind, _get_complete_history, get_history, lift, get_now, ret.
  by destruct (simplify (_message_history s)).
Qed.

Lemma grows_add_to_history (message : value) :
  valid_message message = true -> grows (_add_to_history message).
Proof. intros Hv s. exists [message]. split; [done | by constructor]. Qed.

Lemma grows_run_with_stop_handler {A : Type} (phase : M A) :
  grows phase -> grows (_run_with_stop_handler phase).
Proof. intros Hp. apply grows_bind; [done|]. intros x. by apply grows_keeps. Qed.

Lemma grows_append_tool_messages (tool_results : list tool_result) (messages : list value) :
  grows (append_tool_messages tool_results messages).
Proof.
  revert messages. induction tool_results as [|r rest IH]; intros messages; simpl.
  - apply grows_ret.
  - apply grows_bind; [by apply grows_add_to_history | intros _; apply IH].
Qed.

Lemma grows_round (messages tools : list value) : grows (round a messages tools).
Proof.
  unfold round.
  apply grows_bind.
  { apply grows_run_with_stop_handler, grows_keeps. intros s.
    apply call_client_same_agent. }
  intros [resp [|]].
  - apply grows_bind; [by apply grows_keeps|]. intros payload.
    apply grows_bind; [apply grows_trigger_hook|]. intros _.
    apply grows_bind; [apply grows_format_response | intros r; apply grows_ret].
  - apply grows_bind; [apply grows_add_to_history, valid_assistant_message|]. intros _.
    destruct (resp_tool_calls resp) as [|tc tcs].
    + apply grows_bind; [|intros r; apply grows_ret]. unfold complete.
      apply grows_bind; [by apply grows_keeps|]. intros payload.
      apply grows_bind; [apply grows_trigger_hook|]. intros _.
      apply grows_format_response.
    + apply grows_bind.
      * apply grows_run_with_stop_handler, grows_keeps. intros s.
        destruct (execute_function_concurrently a);
          [apply concurrent_same_agent | apply sequential_loop_same_agent].
      * intros [results [|]].
        -- apply grows_bind; [apply grows_format_response | intros r; apply grows_ret].
        -- apply grows_bind; [apply grows_append_tool_messages | intros m; apply grows_ret].
Qed.

Lemma rounds_history (n : nat) (messages messages' tools : list value) (s s' : state) :
  rounds a n messages tools s = Some (messages', s') ->
  exists added,
    _message_history s' = _message_history s ++ added
    /\ Forall (fun msg => valid_message msg = true) added.
Proof.
  revert messages s. induction n as [|n IH]; intros messages s; simpl.
  - intros [= <- <-]. exists []. by rewrite app_nil_r.
  - destruct (grows_round messages tools s) as (added1 & Hh1 & Hv1).
    destruct (round a messages tools s) as [[[r|m1]|e] s1]; try done. simpl in *.
    intros Hrest. destruct (IH _ _ Hrest) as (added2 & Hh2 & Hv2).
    exists (added1 ++ added2). rewrite Hh2, Hh1, app_assoc. split; [done|].
    by apply Forall_app.
Qed.

Lemma conversation_rounds (n fuel : nat) (messages messages' tools : list value)
    (s s' : state) :
  rounds a n messages tools s = Some (messages', s') ->
  conversation a (n + fuel) messages tools s = conversation a fuel messages' tools s'.
Proof.
  revert messages s. induction n as [|n IH]; intros messages s; simpl.
  - by intros [= <- <-].
  - destruct (round a messages tools s) as [[[r|m1]|e] s1]; try done. apply IH.
Qed.

(** The pass through the loop in which the stop is seen after the dispatch. *)
Lemma round_stopped_after_dispatch (messages : list value) (s : state) (resp : response) :
  Forall (fun msg => valid_message msg = true) (_message_history s) ->
  (call_client a messages (tool_schemas a) s).1 = Return resp ->
  resp_tool_calls resp <> [] ->
  stop_after = Some (S (polls s)) ->
  quiet a "on_function_call_start" ->
  quiet a "on_function_call_error" ->
  exists r s',
    round a messages (tool_schemas a) s = (Return (inl r), s')
    /\ stop_reason r = "manual_stop"
    /\ history_messages r = _message_history s ++ [assistant_message resp].
Proof.
  intros Hvalid Hreply Hcalls Hstop Hstart Herror.
  unfold round, _run_with_stop_handler, bind.
  pose proof (call_client_same_agent messages (tool_schemas a) s) as [Hh2 Hp2].
  destruct (call_client a messages (tool_schemas a) s) as [o s2]. simpl in *. subst o.
  unfold stop_seen. rewrite Hstop, Hp2.
  rewrite bool_decide_eq_false_2 by lia.
  unfold _add_to_history, bind, get_history, put_history, ret. simpl.
  destruct (resp_tool_calls resp) as [|tc tcs] eqn:Htcs; [done|].
  set (s3 := set_history _ _).
  set (dispatch := if execute_function_concurrently a then _ else _).
  assert (Hd : returned (dispatch s3).1 /\ same_agent s3 (dispatch s3).2).
  { subst dispatch. destruct (execute_function_concurrently a).
    - split; [by apply concurrent_returns | apply concurrent_same_agent].
    - split; [by apply sequential_loop_returns | apply sequential_loop_same_agent]. }
  destruct (dispatch s3) as [[results|e] s4]; destruct Hd as [Hret [Hh4 Hp4]]; [|done].
  simpl in *. rewrite Hp4. subst s3. simpl in *.
  rewrite bool_decide_eq_true_2 by lia.
  match goal with |- context [_format_response a ?r ?reason ?s0] =>
    destruct (format_response_valid r reason s0) as (r' & Hfmt & Hreason & Hmsgs) end.
  { simpl. rewrite Hh4, Hh2. apply Forall_app. split; [done|].
    constructor; [apply valid_assistant_message | constructor]. }
  rewrite Hfmt. simpl in Hmsgs. rewrite Hh4, Hh2 in Hmsgs.
  by eexists _, _.
Qed.

(** C5. A turn reaches the loop and passes through it [n] times; then the
    model call returns a reply with tool calls, and the stop request arrives
    after the consultation of the monitor that follows this model call and
    before the next one, the one that follows the tool dispatch.  When the
    dispatch does not fault, [send_message] returns a result with
    [stop_reason] ["manual_stop"]; its history is the history at the time of
    the model call, which holds the user message, then the assistant reply
    with its tool calls, and nothing after it.  When the stop comes in the
    first pass, the history is the validated history, the user message and
    the reply, so every tool message in it was supplied by the caller. *)
Theorem stop_before_tool_dispatch (n fuel : nat) (message : string) (history : value)
    (safe_history messages0 messages : list value) (s s0 sn : state) (resp : response) :
  _validate_history history = Return safe_history ->
  begin_turn a message history s = (Return messages0, s0) ->
  rounds a n messages0 (tool_schemas a) s0 = Some (messages, sn) ->
  (call_client a messages (tool_schemas a) sn).1 = Return resp ->
  resp_tool_calls resp <> [] ->
  stop_after = Some (S (polls sn)) ->
  quiet a "on_function_call_start" ->
  quiet a "on_function_call_error" ->
  exists r s',
    send_message a (n + S fuel) message history s = Some (Return r, s')
    /\ stop_reason r = "manual_stop"
    /\ history_messages r = _message_history sn ++ [assistant_message resp]
    /\ (exists earlier,
          _message_history sn = safe_history ++ user_message message :: earlier)
    /\ dict_get (assistant_message resp) "tool_calls"
       = VList (tool_call_value <$> resp_tool_calls resp)
    /\ (n = 0 ->
        history_messages r
        = safe_history ++ [user_message message; assistant_message resp]
        /\ forall msg, msg ∈ history_messages r ->
                       is_str (dict_get msg "role") "tool" = true -> msg ∈ safe_history).
Proof.
  intros Hvalid Hbegin Hrounds Hreply Hcalls Hstop Hstart Herror.
  destruct (begin_turn_history _ _ _ _ _ Hbegin) as (safe & Hsafe & Hhist0 & _).
  assert (safe = safe_history) as -> by congruence.
  destruct (rounds_history _ _ _ _ _ _ Hrounds) as (added & Hhistn & Hadded).
  assert (Hvn : Forall (fun msg => valid_message msg = true) (_message_history sn)).
  { rewrite Hhistn, Hhist0, !Forall_app. apply validate_history_valid in Hsafe.
    split; [split; [done|]|done]. constructor; [apply valid_user_message | constructor]. }
  destruct (round_stopped_after_dispatch messages sn resp Hvn Hreply Hcalls Hstop
              Hstart Herror) as (r & s' & Hround & Hreason & Hmsgs).
  exists r, s'. unfold send_message. rewrite Hbegin.
  rewrite (conversation_rounds n (S fuel) _ _ _ _ _ Hrounds). simpl. rewrite Hround.
  split; [done|]. split; [done|]. split; [done|]. split; [|split].
  - exists added. by rewrite Hhistn, Hhist0, <- app_assoc.
  - by apply assistant_message_tool_calls.
  - intros ->. simpl in Hrounds. injection Hrounds as <- <-.
    rewrite Hmsgs, Hhist0, <- app_assoc. split; [done|].
    intros msg [Hin|Hin]%elem_of_app Hrole; [done|].
    apply list_elem_of_In in Hin. simpl in Hin.
    destruct Hin as [<-|[<-|[]]]; [done|].
    by rewrite assistant_message_role in Hrole.
Qed.

(** *** Hook faults propagate *)

Lemma propagating_silent {A : Type} (m : M A) :
  (forall s, trace (m s).2 = trace s) -> propagating m.
Proof.
  intros Hm s. exists []. rewrite app_nil_r. split; [apply Hm | by inversion 1].
Qed.

Lemma propagating_bind {A B : Type} (m : M A) (k : A -> M B) :
  propagating m -> (forall x, propagating (k x)) -> propagating (bind m k).
Proof.
  intros Hm Hk s. unfold bind.
  destruct (Hm s) as (evs1 & Ht1 & Hf1).
  destruct (m s) as [[x|e] s1]; simpl in *.
  - destruct (Hk x s1) as (evs2 & Ht2 & Hf2).
    exists (evs1 ++ evs2). rewrite Ht2, Ht1, app_assoc. split; [done|].
    intros [Hfatal|Hfatal]%Exists_app; [by destruct (Hf1 Hfatal) | by apply Hf2].
  - exists evs1. split; [done|]. by intros _ [].
Qed.

Lemma propagating_ret {A : Type} (x : A) : propagating (ret (H := H) x).
Proof. by apply propagating_silent. Qed.


Lemma propagating_trigger_hook (hook : string) (payload : gmap string value) :
  hook <> "on_function_call_end" -> propagating (_trigger_hook a hook payload).
Proof.
  intros Hne s. destruct (trigger_hook_outcome hook payload s) as (w & fault & ->).
  exists [EvHook hook payload fault]. split; [done|].
  destruct fault; simpl; [by intros _ []|].
  intros Hfatal. apply Exists_cons in Hfatal as [Hf|Hf]; [done | by inversion Hf].
Qed.



Ltac fatal_cases H :=
  repeat (apply Exists_cons in H as [H|H]); try done; try (by inversion H).

Lemma step_fatal (k : task) (s : state) :
  exists evs, trace (step a k s).2 = trace s ++ evs
              /\ (Exists (fun ev => fatal ev = true) evs \/ faulted k ->
                  faulted (step a k s).1).
Proof.
  step_cases k s.
  - by exists [EvHook "on_function_call_start" (call_payload a tc) (Some e)].
  - exists [EvHook "on_function_call_start" (call_payload a tc) None].
    split; [done|]. intros [Hf|[]]. fatal_cases Hf.
  - exists [EvCall (tool_name t) kw]. split; [done|]. intros [Hf|[]]. fatal_cases Hf.
  - exists [EvCall (tool_name t) kw]. split; [done|]. intros [Hf|[]]. fatal_cases Hf.
  - exists []. rewrite app_nil_r. split; [done|]. intros [Hf|[]]. fatal_cases Hf.
  - exists [EvHook "on_function_call_end" (<["result" := v]> (call_payload a tc)) (Some e)].
    split; [done|]. intros [Hf|[]]. fatal_cases Hf.
  - exists [EvHook "on_function_call_end" (<["result" := v]> (call_payload a tc)) None].
    split; [done|]. intros [Hf|[]]. fatal_cases Hf.
  - by exists [EvHook "on_function_call_error"
                 (<["error" := VStr (str_exn e)]> (call_payload a tc)) (Some e0)].
  - exists [EvHook "on_function_call_error"
              (<["error" := VStr (str_exn e)]> (call_payload a tc)) None].
    split; [done|]. intros [Hf|[]]. fatal_cases Hf.
  - exists []. rewrite app_nil_r. split; [done|]. intros [Hf|Hf]; [fatal_cases Hf | done].
Qed.

Lemma resume_fatal_upto (n : nat) (k : task) (s : state) :
  rank k <= n ->
  exists evs, trace (resume a k s).2 = trace s ++ evs
              /\ (Exists (fun ev => fatal ev = true) evs \/ faulted k ->
                  ~ returned (resume a k s).1).
Proof.
  revert k s. induction n as [|n IH]; intros k s Hn.
  - destruct k as [| | | |[r|e]]; simpl in Hn; try lia.
    + exists []. rewrite app_nil_r. split; [done|]. intros [Hf|[]]. fatal_cases Hf.
    + exists []. rewrite app_nil_r. split; [done|]. by intros _ [].
  - destruct (decide (rank k = 0)) as [H0|H0]; [apply IH; lia|].
    rewrite resume_step.
    destruct (step_fatal k s) as (evs1 & Ht1 & Hf1).
    destruct (IH (step a k s).1 (step a k s).2) as (evs2 & Ht2 & Hf2).
    { pose proof (step_rank k s). lia. }
    exists (evs1 ++ evs2). rewrite Ht2, Ht1, app_assoc. split; [done|].
    intros [[Hf|Hf]%Exists_app|Hk]; apply Hf2; auto.
Qed.

Lemma propagating_execute_tool (t : tool) (tc : tool_call) :
  propagating (_execute_tool a t tc).
Proof.
  intros s. destruct (resume_fatal_upto 4 (TStart t tc) s) as (evs & Ht & Hf); [done|].
  exists evs. split; [done|]. intros Hfatal. apply Hf. by left.
Qed.

Lemma propagating_sequential_loop (tool_calls : list tool_call) (acc : list tool_result) :
  propagating (sequential_loop a tool_calls acc).
Proof.
  revert acc. induction tool_calls as [|tc rest IH]; intros acc; simpl.
  - apply propagating_ret.
  - destruct (_tool_map a !! tc_name tc) as [t|]; [|apply IH].
    apply propagating_bind; [apply propagating_execute_tool | intros r; apply IH].
Qed.

Lemma step_at_fatal (i : nat) (ks : list task) (s : state) :
  exists evs, trace (step_at a i ks s).2 = trace s ++ evs
              /\ (Exists (fun ev => fatal ev = true) evs \/ Exists faulted ks ->
                  Exists faulted (step_at a i ks s).1).
Proof.
  unfold step_at. destruct (ks !! i) as [k|] eqn:Hk.
  - destruct (step_fatal k s) as (evs & Ht & Hf).
    destruct (step a k s) as [k' s']. simpl in *.
    exists evs. split; [done|].
    apply list_elem_of_split_length in Hk as (l1 & l2 & -> & ->).
    rewrite insert_app_r_alt, Nat.sub_diag by done. simpl.
    rewrite !Exists_app, !Exists_cons. intros [Hfatal|[Hl1|[Hfk|Hl2]]]; auto.
  - exists []. rewrite app_nil_r. split; [done|]. intros [Hf|Hf]; [fatal_cases Hf | done].
Qed.

Lemma interleave_fatal (sched : list nat) (ks : list task) (s : state) :
  exists evs, trace (interleave a sched ks s).2 = trace s ++ evs
              /\ (Exists (fun ev => fatal ev = true) evs \/ Exists faulted ks ->
                  Exists faulted (interleave a sched ks s).1).
Proof.
  revert ks s. induction sched as [|i sched IH]; intros ks s; simpl.
  - exists []. rewrite app_nil_r. split; [done|]. intros [Hf|Hf]; [fatal_cases Hf | done].
  - destruct (step_at_fatal i ks s) as (evs1 & Ht1 & Hf1).
    destruct (step_at a i ks s) as [ks1 s1]. simpl in *.
    destruct (IH ks1 s1) as (evs2 & Ht2 & Hf2).
    exists (evs1 ++ evs2). rewrite Ht2, Ht1, app_assoc. split; [done|].
    intros [[Hf|Hf]%Exists_app|Hk]; apply Hf2; auto.
Qed.

Lemma drain_fatal (ks : list task) (s : state) :
  exists evs, trace (drain a ks s).2 = trace s ++ evs
              /\ (Exists (fun ev => fatal ev = true) evs \/ Exists faulted ks ->
                  Exists (fun o => ~ returned o) (drain a ks s).1).
Proof.
  revert s. induction ks as [|k ks IH]; intros s; simpl.
  - exists []. rewrite app_nil_r. split; [done|].
    intros [Hf|Hf]; [fatal_cases Hf | by inversion Hf].
  - destruct (resume_fatal_upto (rank k) k s) as (evs1 & Ht1 & Hf1); [done|].
    destruct (resume a k s) as [r s1]. simpl in *.
    destruct (IH s1) as (evs2 & Ht2 & Hf2).
    destruct (drain a ks s1) as [rs s2]. simpl in *.
    exists (evs1 ++ evs2). rewrite Ht2, Ht1, app_assoc. split; [done|].
    rewrite Exists_app, !Exists_cons. intros [[Hf|Hf]|[Hk|Hks]]; auto.
Qed.

Lemma raise_first_faulted (os : list (outcome tool_result)) :
  Exists (fun o => ~ returned o) os -> ~ returned (raise_first os).
Proof.
  induction os as [|[r|e] os IH]; simpl.
  - by inversion 1.
  - intros [Hr|Hos]%Exists_cons; [by destruct Hr|].
    specialize (IH Hos). by destruct (raise_first os).
  - by intros _ [].
Qed.

Lemma launch_not_faulted (tool_calls : list tool_call) :
  ~ Exists faulted (launch a tool_calls).
Proof.
  rewrite launch_resolved. intros (k & Hk & Hf)%Exists_exists.
  apply list_elem_of_fmap in Hk as (x & -> & _). done.
Qed.

Lemma propagating_concurrent (tool_calls : list tool_call) :
  propagating (_execute_tools_concurrent a tool_calls).
Proof.
  intros s. rewrite concurrent_unfold. simpl. unfold gather_with.
  destruct (interleave_fatal (schedule (world s)) (launch a tool_calls) s)
    as (evs1 & Ht1 & Hf1).
  destruct (interleave a (schedule (world s)) (launch a tool_calls) s) as [ks1 s1].
  simpl in *.
  destruct (drain_fatal ks1 s1) as (evs2 & Ht2 & Hf2).
  exists (evs1 ++ evs2). rewrite Ht2, Ht1, app_assoc. split; [done|].
  intros Hfatal. apply raise_first_faulted, Hf2.
  apply Exists_app in Hfatal as [Hf|Hf]; auto.
Qed.

Lemma propagating_emit_backend (messages : list value) (tools : option (list value)) :
  propagating (emit (H := H) (EvBackend messages tools)).
Proof.
  intros s. exists [EvBackend messages tools]. split; [done|].
  intros Hf. fatal_cases Hf.
Qed.

Lemma propagating_perform {A : Type} (f : effect A) : propagating (perform f).
Proof.
  apply propagating_silent. intros s. unfold perform. by destruct (f (world s)).
Qed.

Lemma propagating_turn_payload (fields : list (string * value)) :
  propagating (turn_payload a fields).
Proof. by apply propagating_silent. Qed.

Lemma propagating_add_to_history (message : value) : propagating (_add_to_history message).
Proof. by apply propagating_silent. Qed.

Lemma propagating_format_response (resp : option response) (reason : string) :
  propagating (_format_response a resp reason).
Proof.
  apply propagating_silent. intros s.
  unfold _format_response, bind, _get_complete_history, get_history, lift, get_now, ret.
  by destruct (simplify (_message_history s)).
Qed.

Lemma propagating_run_with_stop_handler {A : Type} (phase : M A) :
  propagating phase -> propagating (_run_with_stop_handler phase).
Proof.
  intros Hp. apply propagating_bind; [done|]. intros x. by apply propagating_silent.
Qed.

Lemma propagating_call_client (messages tools : list value) :
  propagating (call_client a messages tools).
Proof.
  apply propagating_bind; [apply propagating_emit_backend|].
  intros _. apply propagating_perform.
Qed.

Lemma propagating_append_tool_messages (tool_results : list tool_result)
    (messages : list value) :
  propagating (append_tool_messages tool_results messages).
Proof.
  revert messages. induction tool_results as [|r rest IH]; intros messages; simpl.
  - apply propagating_ret.
  - apply propagating_bind; [apply propagating_add_to_history | intros _; apply IH].
Qed.

Lemma propagating_complete (resp : response) : propagating (complete a resp).
Proof.
  apply propagating_bind; [apply propagating_turn_payload|]. intros payload.
  apply propagating_bind; [by apply propagating_trigger_hook|]. intros _.
  apply propagating_format_response.
Qed.

Lemma propagating_round (messages tools : list value) : propagating (round a messages tools).
Proof.
  unfold round.
  apply propagating_bind;
    [apply propagating_run_with_stop_handler, propagating_call_client|].
  intros [resp [|]].
  - apply propagating_bind; [apply propagating_turn_payload|]. intros payload.
    apply propagating_bind; [by apply propagating_trigger_hook|]. intros _.
    apply propagating_bind; [apply propagating_format_response|]. intros r.
    apply propagating_ret.
  - apply propagating_bind; [apply propagating_add_to_history|]. intros _.
    destruct (resp_tool_calls resp) as [|tc tcs].
    + apply propagating_bind; [apply propagating_complete | intros r; apply propagating_ret].
    + apply propagating_bind.
      * apply propagating_run_with_stop_handler.
        destruct (execute_function_concurrently a);
          [apply propagating_concurrent | apply propagating_sequential_loop].
      * intros [results [|]].
        -- apply propagating_bind; [apply propagating_format_response|]. intros r.
           apply propagating_ret.
        -- apply propagating_bind; [apply propagating_append_tool_messages|].
           intros msgs. apply propagating_ret.
Qed.







End Proofs.

(** ** Further properties of the code *)

Section Extras.
Context `{Externals}.
Variable a : agent.

(** *** The validator *)

Lemma check_messages_first_bad (good rest : list value) (bad : value) :
  Forall (fun msg => valid_message msg = true) good ->
  valid_message bad = false ->
  check_messages (good ++ bad :: rest) = Raise (ValueError (complaint bad)).
Proof.
  intros Hgood Hbad. induction Hgood as [|msg good Hmsg _ IH]; simpl.
  - unfold valid_message in Hbad. unfold complaint.
    destruct (is_dict bad); simpl; [|done].
    destruct (has_key bad "role"); simpl; [|done].
    by destruct (has_key bad "content").
  - unfold valid_message in Hmsg.
    destruct (is_dict msg); simpl; [|done].
    destruct (has_key msg "role"); simpl; [|done].
    destruct (has_key msg "content"); simpl; [apply IH | done].
Qed.

Lemma validate_history_accepts (history : list value) :
  _validate_history (VList history) = Return history
  <-> Forall (fun msg => valid_message msg = true) history.
Proof.
  unfold _validate_history. destruct history as [|msg rest]; [by split|].
  rewrite <- (check_messages_valid (msg :: rest)).
  change (negb (truthy (VList (msg :: rest)))) with false. cbv iota.
  destruct (check_messages (msg :: rest)) as [[]|e]; simpl; by split.
Qed.

(** X1. [_validate_history] accepts a list exactly when every entry is a
    mapping with [role] and [content], and then returns the list unchanged;
    otherwise the [ValueError] it raises is the complaint about the first
    entry it refuses, whatever follows that entry. *)
Theorem validate_history_reports_first_bad_entry (history : list value) :
  (_validate_history (VList history) = Return history
   <-> Forall (fun msg => valid_message msg = true) history)
  /\ (forall good bad rest,
        history = good ++ bad :: rest ->
        Forall (fun msg => valid_message msg = true) good ->
        valid_message bad = false ->
        _validate_history (VList history) = Raise (ValueError (complaint bad))).
Proof.
  split; [apply validate_history_accepts|].
  intros good bad rest -> Hgood Hbad. unfold _validate_history.
  rewrite (check_messages_first_bad good rest bad Hgood Hbad).
  by destruct good.
Qed.

(** X2. What [_validate_history] returns is a history it accepts again and
    returns unchanged, so a validated history can be validated once more at
    no risk; and every value that is false in a condition ([None], the empty
    list, but also 0, the empty string or an empty dictionary) counts as the
    empty history. *)
Theorem validate_history_idempotent (history : value) :
  (forall safe_history,
      _validate_history history = Return safe_history ->
      _validate_history (VList safe_history) = Return safe_history)
  /\ (truthy history = false -> _validate_history history = Return []).
Proof.
  split.
  - intros safe Hsafe. apply validate_history_accepts.
    by apply (validate_history_valid history).
  - unfold _validate_history. by intros ->.
Qed.

(** *** The registry and the keyword arguments *)

Lemma tool_map_snoc (registry : list tool) (t : tool) (m : gmap string tool) :
  foldl (fun m t => <[tool_name t := t]> m) m (registry ++ [t])
  = <[tool_name t := t]> (foldl (fun m t => <[tool_name t := t]> m) m registry).
Proof. by rewrite foldl_app. Qed.

(** X3. Of several registry entries with one name, [_tool_map] keeps the
    one registered last; a name no entry has is not in the map. *)
Theorem tool_map_last_wins (n : string) :
  _tool_map a !! n = last (named n (tool_registry a)).
Proof.
  unfold _tool_map, named.
  induction (tool_registry a) as [|t registry IH] using rev_ind; [done|].
  rewrite tool_map_snoc, filter_app, filter_cons, filter_nil.
  destruct (decide (tool_name t = n)) as [<-|Hne].
  - by rewrite lookup_insert_eq, last_snoc.
  - by rewrite lookup_insert_ne, app_nil_r.
Qed.

Lemma build_args_decoded (tc : tool_call) :
  build_args a tc
  = match decoded tc with
    | Raise e => Raise e
    | Return (VDict d) =>
        Return (<["agent_name" := VStr (agent_name a)]>
                  (<["chat_id" := chat_id a]> (<["user_id" := user_id a]> d)))
    | Return v => Raise (TypeError ("'" +:+ type_name v +:+ "' object is not a mapping"))
    end.
Proof.
  unfold build_args, decoded, bind_outcome.
  by destruct (tc_arguments tc) as [| | |text| |d]; try destruct (json_loads text).
Qed.

(** X4. When the arguments of a request decode to a mapping, the keyword
    arguments hold every entry of it under a key other than [user_id],
    [chat_id] and [agent_name] unchanged, and nothing else besides these
    three keys.  When they decode to anything else (a list, a number,
    [None]) no keyword arguments are built: the dictionary display raises
    the [TypeError] that names the type of the value; and an error of the
    decoder is raised as it is. *)
Theorem build_args_keeps_model_arguments (tc : tool_call) :
  (forall d, decoded tc = Return (VDict d) ->
     exists kw,
       build_args a tc = Return kw
       /\ (forall key, ~ reserved key -> kw !! key = d !! key)
       /\ (forall key, reserved key -> is_Some (kw !! key)))
  /\ (forall v, decoded tc = Return v -> is_dict v = false ->
        build_args a tc
        = Raise (TypeError ("'" +:+ type_name v +:+ "' object is not a mapping")))
  /\ (forall e, decoded tc = Raise e -> build_args a tc = Raise e).
Proof.
  rewrite build_args_decoded. split; [|split].
  - intros d ->. eexists. split; [done|]. unfold reserved. split.
    + intros key Hkey. rewrite !lookup_insert_ne; [done| | |]; intros <-; tauto.
    + intros key [-> | [-> | ->]]; by simplify_map_eq.
  - intros v -> Hv. by destruct v.
  - by intros e ->.
Qed.

(** *** One tool, and the two dispatch modes *)

(** X5. [_execute_tool] first emits [on_function_call_start]; it calls the
    tool's callable exactly once when that emission returns and the keyword
    arguments can be built, and not at all otherwise: a tool is never called
    twice for one request, and never after a faulting start hook or with
    arguments that could not be decoded. *)
Theorem tool_invoked_once_or_never (t : tool) (tc : tool_call) (s : state) :
  (exists fault rest,
      new_events s (_execute_tool a t tc s).2
      = EvHook "on_function_call_start" (call_payload a tc) fault :: rest)
  /\ calls (new_events s (_execute_tool a t tc s).2)
     = match (_trigger_hook a "on_function_call_start" (call_payload a tc) s).1,
             build_args a tc with
       | Return _, Return kw => [EvCall (tool_name t) kw]
       | _, _ => []
       end.
Proof.
  unfold _execute_tool, bind.
  destruct (trigger_hook_outcome a "on_function_call_start" (call_payload a tc) s)
    as (w & [e|] & ->); simpl.
  { erewrite new_events_app by (simpl; reflexivity). split; [by eexists _, _ | done]. }
  unfold try_except, bind. rewrite invoke_outcome.
  destruct (build_args a tc) as [kw|e] eqn:Hargs.
  - destruct (func t kw w) as [[v|e] w'] eqn:Hcall; simpl; rewrite Hcall; simpl.
    + match goal with |- context [on_success a tc v ?s0] =>
        destruct (on_success_outcome a tc v s0) as (w2 & [e|] & ->) end; simpl.
      * match goal with |- context [on_failure a tc e ?s0] =>
          destruct (on_failure_outcome a tc e s0) as (w3 & fault & ->) end; simpl.
        erewrite new_events_app by (simpl; rewrite <- !app_assoc; reflexivity).
        split; [by eexists _, _ | done].
      * erewrite new_events_app by (simpl; rewrite <- !app_assoc; reflexivity).
        split; [by eexists _, _ | done].
    + match goal with |- context [on_failure a tc e ?s0] =>
        destruct (on_failure_outcome a tc e s0) as (w3 & fault & ->) end; simpl.
      erewrite new_events_app by (simpl; rewrite <- !app_assoc; reflexivity).
      split; [by eexists _, _ | done].
  - match goal with |- context [on_failure a tc e ?s0] =>
      destruct (on_failure_outcome a tc e s0) as (w3 & fault & ->) end; simpl.
    erewrite new_events_app by (simpl; rewrite <- !app_assoc; reflexivity).
    split; [by eexists _, _ | done].
Qed.

Lemma sequential_loop_raised (tool_calls more : list tool_call) (acc : list tool_result)
    (s : state) (e : exn) :
  (sequential_loop a tool_calls acc s).1 = Raise e ->
  sequential_loop a (tool_calls ++ more) acc s = sequential_loop a tool_calls acc s.
Proof.
  revert acc s. induction tool_calls as [|tc rest IH]; intros acc s; simpl; [done|].
  destruct (_tool_map a !! tc_name tc) as [t|]; [|apply IH].
  unfold bind. destruct (_execute_tool a t tc s) as [[r|e'] s1]; [apply IH | done].
Qed.

(** X6. Sequential dispatch stops at the first fault: once the dispatch of a
    batch has raised, requests that follow in the batch are never started,
    so appending requests changes neither the fault nor the state.  (The
    concurrent dispatch runs every task to its end instead.) *)
Theorem sequential_stops_at_fault (tool_calls more : list tool_call) (s : state) (e : exn) :
  (_execute_tools_sequential a tool_calls s).1 = Raise e ->
  _execute_tools_sequential a (tool_calls ++ more) s
  = _execute_tools_sequential a tool_calls s.
Proof. apply sequential_loop_raised. Qed.

Lemma drain_sequential (tool_calls : list tool_call) (acc rs : list tool_result)
    (s s' : state) :
  sequential_loop a tool_calls acc s = (Return rs, s') ->
  exists new, rs = acc ++ new /\ drain a (launch a tool_calls) s = (Return <$> new, s').
Proof.
  revert acc s. induction tool_calls as [|tc rest IH]; intros acc s; simpl.
  - intros [= <- <-]. exists []. by rewrite app_nil_r.
  - destruct (_tool_map a !! tc_name tc) as [t|]; [|apply IH].
    unfold bind. simpl. destruct (_execute_tool a t tc s) as [[r|e] s1]; [|done].
    intros Hrest. destruct (IH _ _ Hrest) as (new & -> & Hdrain).
    exists (r :: new). rewrite <- app_assoc. split; [done|]. by rewrite Hdrain.
Qed.

(** X7. When the event loop runs each task to its end before it starts the
    next one (no task is resumed out of turn), a concurrent dispatch that
    meets no fault is the sequential dispatch: the same results, and the
    same world, history and trace afterwards. *)
Theorem concurrent_without_interleaving (tool_calls : list tool_call) (s : state) :
  schedule (world s) = [] ->
  returned (_execute_tools_sequential a tool_calls s).1 ->
  _execute_tools_concurrent a tool_calls s = _execute_tools_sequential a tool_calls s.
Proof.
  intros Hsched Hret. unfold _execute_tools_sequential in *.
  destruct (sequential_loop a tool_calls [] s) as [[rs|e] s'] eqn:Hseq; [|done].
  destruct (drain_sequential _ _ _ _ _ Hseq) as (new & -> & Hdrain).
  unfold _execute_tools_concurrent, gather, gather_with. rewrite Hsched. simpl.
  rewrite Hdrain. by rewrite raise_first_fmap.
Qed.

(** *** The simplified history and the formatted tool results *)

Lemma getitem_Return (msg : value) (key : string) (v : value) :
  getitem msg key = Return v -> dict_get msg key = v /\ has_key msg key = true.
Proof.
  destruct msg as [| | | | |d]; simpl; try done.
  destruct (d !! key) as [x|] eqn:Hx; [|done]. intros [= <-].
  split; [done|]. apply bool_decide_eq_true. by eexists.
Qed.

Lemma simplify_assistant (c : value) (rest : list value) :
  truthy c = true ->
  simplify (VDict (dict [("role", VStr "assistant"); ("content", c)]) :: rest)
  = let? clean_history := simplify rest in
    Return (VDict (dict [("role", VStr "assistant"); ("content", c)]) :: clean_history).
Proof.
  intros Hc. simpl.
  rewrite lookup_insert_eq. simpl.
  rewrite lookup_insert_ne, lookup_insert_eq by done. simpl.
  by rewrite Hc.
Qed.

Lemma simplify_facts (history clean_history : list value) :
  simplify history = Return clean_history ->
  Forall visible clean_history
  /\ (forall msg, msg ∈ history -> is_str (dict_get msg "role") "user" = true ->
                  msg ∈ clean_history)
  /\ length clean_history <= length history
  /\ simplify clean_history = Return clean_history.
Proof.
  revert clean_history. induction history as [|msg rest IH]; intros clean; simpl.
  - intros [= <-]. split; [constructor|]. split; [by intros msg Hin%elem_of_nil|]. done.
  - destruct (getitem msg "role") as [role|e] eqn:Hrole; simpl; [|done].
    destruct (getitem_Return _ _ _ Hrole) as [Hget _].
    destruct (simplify rest) as [clean'|e] eqn:Hrest.
    2:{ destruct (is_str role "user"); simpl; [done|].
        destruct (is_str role "assistant"); simpl; [|done].
        destruct (truthy (dict_get msg "content")); simpl; [|done].
        by destruct (getitem msg "content"). }
    destruct (IH clean' eq_refl) as (Hvis & Huser & Hlen & Hidem).
    destruct (is_str role "user") eqn:Hu; simpl.
    { intros [= <-]. split; [|split; [|split]].
      - constructor; [left; by rewrite Hget | done].
      - intros m [->|Hin]%elem_of_cons Hm; [apply list_elem_of_here|].
        apply list_elem_of_further. by apply Huser.
      - simpl. lia.
      - simpl. rewrite Hrole. simpl. rewrite Hu. simpl. by rewrite Hidem. }
    assert (Hrest_user : forall m, m ∈ msg :: rest ->
                                   is_str (dict_get m "role") "user" = true -> m ∈ clean').
    { intros m [->|Hin]%elem_of_cons Hm; [congruence | by apply Huser]. }
    destruct (is_str role "assistant") eqn:Ha; simpl.
    2:{ intros [= <-]. split; [done|]. split; [done|]. split; [lia | done]. }
    destruct (truthy (dict_get msg "content")) eqn:Htruthy; simpl.
    2:{ intros [= <-]. split; [done|]. split; [done|]. split; [lia | done]. }
    destruct (getitem msg "content") as [c|e] eqn:Hc; simpl; [|done].
    destruct (getitem_Return _ _ _ Hc) as [Hgetc _]. rewrite Hgetc in Htruthy.
    intros [= <-]. split; [|split; [|split]].
    + constructor; [right; by exists c | done].
    + intros m Hin Hm. apply list_elem_of_further. by apply Hrest_user.
    + simpl. lia.
    + etransitivity; [apply (simplify_assistant c clean' Htruthy)|]. by rewrite Hidem.
Qed.

(** X8. The simplified history of [_format_response] holds the user
    messages as they are and the assistant messages that have content,
    reduced to role and content: no tool message and no [tool_calls] key
    survives.  Every user message is kept, nothing is added, and
    simplifying a simplified history changes nothing. *)
Theorem simplify_keeps_visible_messages (history clean_history : list value) :
  simplify history = Return clean_history ->
  Forall visible clean_history
  /\ (forall msg, msg ∈ history -> is_str (dict_get msg "role") "user" = true ->
                  msg ∈ clean_history)
  /\ length clean_history <= length history
  /\ simplify clean_history = Return clean_history.
Proof. apply simplify_facts. Qed.

Lemma for_each_fmap {A B C : Type} (f : B -> outcome C) (g : A -> B) (h : A -> C)
    (l : list A) :
  (forall x, f (g x) = Return (h x)) -> for_each f (g <$> l) = Return (h <$> l).
Proof.
  intros Hf. induction l as [|x l IH]; csimpl; [done|]. by rewrite Hf, IH.
Qed.

(** X9. On the results of [_execute_tool], [_format_tool_results] returns
    one assistant message followed by one tool message per result, in
    order, and these tool messages are the ones [send_message] appends.
    Every entry of [tool_calls] carries the identifier of the first result,
    also the entries made for the other results, and the arguments ["{}"].
    Of no results it makes the assistant message alone, with an empty
    [tool_calls]. *)
Theorem format_tool_results_layout (first : tool_result) (rest : list tool_result) :
  _format_tool_results (result_value <$> first :: rest)
  = Return (calls_message (call_entry (tool_call_id first) <$> first :: rest)
            :: (tool_message <$> first :: rest))
  /\ _format_tool_results [] = Return [calls_message []].
Proof.
  split; [|reflexivity].
  unfold _format_tool_results.
  assert (Hcalls : for_each (tool_call_entry (result_value first))
                     (result_value <$> first :: rest)
                   = Return (call_entry (tool_call_id first) <$> first :: rest))
    by (by apply for_each_fmap).
  assert (Hmsgs : for_each tool_result_message (result_value <$> first :: rest)
                  = Return (tool_message <$> first :: rest))
    by (by apply for_each_fmap).
  change (result_value <$> first :: rest)
    with (result_value first :: (result_value <$> rest)) in *.
  cbv iota. rewrite Hcalls. cbn [bind_outcome]. rewrite Hmsgs. done.
Qed.

(** *** The events of a turn *)

Lemma emits_silent {A : Type} (P : event -> Prop) (m : M A) :
  (forall s, trace (m s).2 = trace s) -> emits P m.
Proof. intros Hm s. exists []. by rewrite app_nil_r, Hm. Qed.

Lemma emits_weaken {A : Type} (P Q : event -> Prop) (m : M A) :
  (forall ev, P ev -> Q ev) -> emits P m -> emits Q m.
Proof.
  intros HPQ Hm s. destruct (Hm s) as (evs & Ht & Hp). exists evs. split; [done|].
  by apply (Forall_impl P).
Qed.

Lemma emits_bind {A B : Type} (P : event -> Prop) (m : M A) (k : A -> M B) :
  emits P m -> (forall x, emits P (k x)) -> emits P (bind m k).
Proof.
  intros Hm Hk s. unfold bind. destruct (Hm s) as (evs1 & Ht1 & Hp1).
  destruct (m s) as [[x|e] s1]; simpl in *; [|by exists evs1].
  destruct (Hk x s1) as (evs2 & Ht2 & Hp2).
  exists (evs1 ++ evs2). rewrite Ht2, Ht1, app_assoc. split; [done|]. by apply Forall_app.
Qed.

Lemma emits_trigger_hook (hook : string) (payload : gmap string value) :
  hook ∈ turn_events ->
  payload !! "user_id" = Some (user_id a) ->
  payload !! "chat_id" = Some (chat_id a) ->
  emits (well_formed_event a) (_trigger_hook a hook payload).
Proof.
  intros Hhook Huser Hchat s.
  destruct (trigger_hook_outcome a hook payload s) as (w & fault & ->).
  exists [EvHook hook payload fault]. split; [done|]. by constructor.
Qed.

(** A turn-level hook gets the payload [turn_payload] has just built. *)
Lemma emits_turn_payload {B : Type} (P : event -> Prop) (fields : list (string * value))
    (k : gmap string value -> M B) :
  (forall ts, emits P (k (dict (fields ++ [("user_id", user_id a); ("chat_id", chat_id a);
                                           ("timestamp", VStr ts)])))) ->
  emits P (bind (turn_payload a fields) k).
Proof. intros Hk s. apply Hk. Qed.

Ltac turn_event := unfold turn_events; repeat constructor.

Lemma step_emits (k : task) (s : state) :
  known_task a k ->
  exists evs, trace (step a k s).2 = trace s ++ evs
              /\ Forall (dispatch_event a) evs
              /\ known_task a (step a k s).1.
Proof.
  intros Hk. destruct k as [t tc|t tc|tc v|tc e|r]; simpl in *.
  - destruct (trigger_hook_outcome a "on_function_call_start" (call_payload a tc) s)
      as (w & [e|] & ->); simpl; eexists [_]; (split; [done|]); (split; [|done]);
      (constructor; [|done]); (split; [split; [turn_event | done] | repeat constructor]).
  - rewrite invoke_outcome. destruct (build_args a tc) as [kw|e] eqn:Hargs.
    + exists [EvCall (tool_name t) kw].
      destruct (func t kw (world s)) as [[v|e] w]; simpl; (split; [done|]);
        (split; [|done]); (constructor; [|done]); (split; [|done]); simpl;
        (split; [exists t; split; [by eapply tool_map_registry | done]
                | by apply (build_args_identity a tc)]).
    + exists []. rewrite app_nil_r. by split.
  - destruct (on_success_outcome a tc v s) as (w & [e|] & ->); simpl; eexists [_];
      (split; [done|]); (split; [|done]);
      (constructor; [|done]); (split; [split; [turn_event | done] | repeat constructor]).
  - destruct (on_failure_outcome a tc e s) as (w & [e'|] & ->); simpl; eexists [_];
      (split; [done|]); (split; [|done]);
      (constructor; [|done]); (split; [split; [turn_event | done] | repeat constructor]).
  - exists []. rewrite app_nil_r. by split.
Qed.

Lemma resume_emits_upto (n : nat) (k : task) (s : state) :
  rank k <= n -> known_task a k ->
  exists evs, trace (resume a k s).2 = trace s ++ evs /\ Forall (dispatch_event a) evs.
Proof.
  revert k s. induction n as [|n IH]; intros k s Hn Hk.
  - destruct k; simpl in Hn; try lia. exists []. by rewrite app_nil_r.
  - destruct (decide (rank k = 0)) as [H0|H0]; [apply IH; [lia | done]|].
    rewrite resume_step.
    destruct (step_emits k s Hk) as (evs1 & Ht1 & Hp1 & Hk1).
    destruct (IH (step a k s).1 (step a k s).2) as (evs2 & Ht2 & Hp2); [|done|].
    { pose proof (step_rank a k s). lia. }
    exists (evs1 ++ evs2). rewrite Ht2, Ht1, app_assoc. split; [done|]. by apply Forall_app.
Qed.

Lemma emits_execute_tool (t : tool) (tc : tool_call) :
  _tool_map a !! tc_name tc = Some t ->
  emits (dispatch_event a) (_execute_tool a t tc).
Proof. intros Ht s. by apply (resume_emits_upto 4 (TStart t tc)). Qed.

Lemma emits_sequential_loop (tool_calls : list tool_call) (acc : list tool_result) :
  emits (dispatch_event a) (sequential_loop a tool_calls acc).
Proof.
  revert acc. induction tool_calls as [|tc rest IH]; intros acc; simpl.
  - by apply emits_silent.
  - destruct (_tool_map a !! tc_name tc) as [t|] eqn:Ht; [|apply IH].
    apply emits_bind; [by apply emits_execute_tool | intros r; apply IH].
Qed.

Lemma interleave_emits (sched : list nat) (ks : list task) (s : state) :
  Forall (known_task a) ks ->
  exists evs, trace (interleave a sched ks s).2 = trace s ++ evs
              /\ Forall (dispatch_event a) evs
              /\ Forall (known_task a) (interleave a sched ks s).1.
Proof.
  revert ks s. induction sched as [|i sched IH]; intros ks s Hks; simpl.
  - exists []. by rewrite app_nil_r.
  - assert (Hi : exists evs, trace (step_at a i ks s).2 = trace s ++ evs
                             /\ Forall (dispatch_event a) evs
                             /\ Forall (known_task a) (step_at a i ks s).1).
    { unfold step_at. destruct (ks !! i) as [k|] eqn:Hk.
      - destruct (step_emits k s) as (evs & Ht & Hp & Hk');
          [by eapply Forall_lookup_1|].
        destruct (step a k s) as [k' s']. exists evs. split; [done|]. split; [done|].
        by apply Forall_insert.
      - exists []. by rewrite app_nil_r. }
    destruct Hi as (evs1 & Ht1 & Hp1 & Hks1).
    destruct (step_at a i ks s) as [ks1 s1]. simpl in *.
    destruct (IH ks1 s1 Hks1) as (evs2 & Ht2 & Hp2 & Hks2).
    exists (evs1 ++ evs2). rewrite Ht2, Ht1, app_assoc. split; [done|].
    split; [by apply Forall_app | done].
Qed.

Lemma drain_emits (ks : list task) (s : state) :
  Forall (known_task a) ks ->
  exists evs, trace (drain a ks s).2 = trace s ++ evs /\ Forall (dispatch_event a) evs.
Proof.
  intros Hks. revert s. induction Hks as [|k ks Hk _ IH]; intros s; simpl.
  - exists []. by rewrite app_nil_r.
  - destruct (resume_emits_upto (rank k) k s (le_n _) Hk) as (evs1 & Ht1 & Hp1).
    destruct (resume a k s) as [r s1]. simpl in *.
    destruct (IH s1) as (evs2 & Ht2 & Hp2).
    destruct (drain a ks s1) as [rs s2]. simpl in *.
    exists (evs1 ++ evs2). rewrite Ht2, Ht1, app_assoc. split; [done|]. by apply Forall_app.
Qed.

Lemma launch_known (tool_calls : list tool_call) : Forall (known_task a) (launch a tool_calls).
Proof.
  induction tool_calls as [|tc rest IH]; simpl; [constructor|].
  destruct (_tool_map a !! tc_name tc) as [t|] eqn:Ht; [by constructor | done].
Qed.

Lemma emits_concurrent (tool_calls : list tool_call) :
  emits (dispatch_event a) (_execute_tools_concurrent a tool_calls).
Proof.
  intros s. rewrite concurrent_unfold. simpl. unfold gather_with.
  destruct (interleave_emits (schedule (world s)) (launch a tool_calls) s
              (launch_known tool_calls)) as (evs1 & Ht1 & Hp1 & Hks1).
  destruct (interleave a (schedule (world s)) (launch a tool_calls) s) as [ks1 s1].
  simpl in *. destruct (drain_emits ks1 s1 Hks1) as (evs2 & Ht2 & Hp2).
  exists (evs1 ++ evs2). rewrite Ht2, Ht1, app_assoc. split; [done|]. by apply Forall_app.
Qed.

Lemma bind_Return {A B : Type} (m : M A) (k : A -> M B) (s s' : state) (y : B) :
  bind m k s = (Return y, s') ->
  exists x s1, m s = (Return x, s1) /\ k x s1 = (Return y, s').
Proof.
  unfold bind. destruct (m s) as [[x|e] s1]; [|done]. intros Hk. by exists x, s1.
Qed.

Lemma emits_call_client (messages : list value) :
  starts_with_system messages = true ->
  emits (well_formed_event a) (call_client a messages (tool_schemas a)).
Proof.
  intros Hsys. unfold call_client.
  apply emits_bind.
  - intros s. eexists [_]. split; [done|]. constructor; [|done]. split; [|done].
    unfold tools_argument. by destruct (tool_schemas a).
  - intros _. apply emits_silent. intros s. unfold perform.
    by destruct (client_send_message a _ _ _ _ _ _).
Qed.

Lemma emits_format_response (resp : option response) (reason : string) :
  emits (well_formed_event a) (_format_response a resp reason).
Proof.
  apply emits_silent. intros s.
  unfold _format_response, bind, _get_complete_history, get_history, lift, get_now, ret.
  by destruct (simplify (_message_history s)).
Qed.

Lemma emits_append_tool_messages (tool_results : list tool_result) (messages : list value) :
  emits (well_formed_event a) (append_tool_messages tool_results messages).
Proof.
  revert messages. induction tool_results as [|r rest IH]; intros messages; simpl.
  - by apply emits_silent.
  - apply emits_bind; [by apply emits_silent | intros _; apply IH].
Qed.

Lemma emits_round (messages : list value) :
  starts_with_system messages = true ->
  emits (well_formed_event a) (round a messages (tool_schemas a)).
Proof.
  intros Hsys. unfold round.
  apply emits_bind.
  { apply emits_bind; [by apply emits_call_client|]. intros x. by apply emits_silent. }
  intros [resp [|]].
  - apply emits_turn_payload. intros ts.
    apply emits_bind; [by apply emits_trigger_hook; [turn_event | |]|]. intros _.
    apply emits_bind; [apply emits_format_response | intros r; by apply emits_silent].
  - apply emits_bind; [by apply emits_silent|]. intros _.
    destruct (resp_tool_calls resp) as [|tc tcs].
    + apply emits_bind; [|intros r; by apply emits_silent]. unfold complete.
      apply emits_turn_payload. intros ts.
      apply emits_bind; [by apply emits_trigger_hook; [turn_event | |]|]. intros _.
      apply emits_format_response.
    + apply emits_bind.
      * apply emits_bind; [|intros x; by apply emits_silent].
        apply (emits_weaken (dispatch_event a)); [by intros ev [Hev _]|].
        destruct (execute_function_concurrently a);
          [apply emits_concurrent | apply emits_sequential_loop].
      * intros [results [|]].
        -- apply emits_bind; [apply emits_format_response | intros r; by apply emits_silent].
        -- apply emits_bind; [apply emits_append_tool_messages|].
           intros m. by apply emits_silent.
Qed.

Lemma append_tool_messages_outcome (tool_results : list tool_result)
    (messages : list value) (s : state) :
  append_tool_messages tool_results messages s
  = (Return (messages ++ (tool_message <$> tool_results)),
     set_history (_message_history s ++ (tool_message <$> tool_results)) s).
Proof.
  revert messages s. induction tool_results as [|r rest IH]; intros messages s; csimpl.
  - rewrite !app_nil_r. by destruct s.
  - unfold bind, _add_to_history, bind, get_history, put_history. simpl.
    rewrite IH. simpl. by rewrite <- !app_assoc.
Qed.

(** A pass that goes on has appended the same messages to the working list
    and to the history: the assistant reply, then the tool messages. *)
Lemma round_continues (messages messages' tools : list value) (s s' : state) :
  round a messages tools s = (Return (inr messages'), s') ->
  exists resp results,
    messages' = messages ++ assistant_message resp :: (tool_message <$> results)
    /\ _message_history s'
       = _message_history s ++ assistant_message resp :: (tool_message <$> results).
Proof.
  unfold round. intros Hround.
  apply bind_Return in Hround as ([resp stopped] & s1 & Hcall & Hround).
  unfold _run_with_stop_handler in Hcall.
  apply bind_Return in Hcall as (resp' & s0 & Hclient & Hcall).
  injection Hcall as -> <- <-.
  pose proof (call_client_same_agent a messages tools s) as [Hh0 _].
  rewrite Hclient in Hh0. simpl in Hh0.
  destruct (stop_seen (polls s0)).
  { apply bind_Return in Hround as (payload & s2 & _ & Hround).
    apply bind_Return in Hround as (u & s3 & _ & Hround).
    by apply bind_Return in Hround as (r & s4 & _ & Hround). }
  apply bind_Return in Hround as (u & s2 & Hadd & Hround).
  injection Hadd as _ <-.
  destruct (resp_tool_calls resp) as [|tc tcs].
  { by apply bind_Return in Hround as (r & s4 & _ & Hround). }
  apply bind_Return in Hround as ([results stopped] & s3 & Hdispatch & Hround).
  unfold _run_with_stop_handler in Hdispatch.
  apply bind_Return in Hdispatch as (results' & s2' & Hdispatch & Hpoll).
  injection Hpoll as -> <- <-.
  assert (Hh2 : _message_history s2'
                = _message_history s0 ++ [assistant_message resp]).
  { match type of Hdispatch with ?d ?s2 = _ =>
      assert (Hsame : same_agent s2 (d s2).2) end.
    { destruct (execute_function_concurrently a);
        [apply concurrent_same_agent | apply sequential_loop_same_agent]. }
    rewrite Hdispatch in Hsame. by destruct Hsame as [Hsame _]. }
  destruct (stop_seen (polls s2')).
  { by apply bind_Return in Hround as (r & s4 & _ & Hround). }
  apply bind_Return in Hround as (m & s4 & Happend & Hround).
  injection Hround as <- <-.
  rewrite append_tool_messages_outcome in Happend. injection Happend as <- <-.
  exists resp, results. simpl. rewrite Hh2, Hh0, <- !app_assoc. by split.
Qed.

Lemma format_response_outcome (resp : option response) (reason : string) (s s' : state)
    (r : turn_result) :
  _format_response a resp reason s = (Return r, s') ->
  s' = s
  /\ stop_reason r = reason
  /\ history_messages r = _message_history s
  /\ simplify (_message_history s) = Return (history_simplified r)
  /\ tr_output r = match resp with
                   | None => VNone
                   | Some reply => resp_content reply
                   end
  /\ tr_usage r = match resp with
                  | None => VNone
                  | Some reply => resp_usage reply
                  end.
Proof.
  unfold _format_response, bind, _get_complete_history, get_history, lift, get_now, ret.
  destruct (simplify (_message_history s)) as [clean|e]; [|done].
  by intros [= <- <-].
Qed.

Lemma trigger_hook_history (hook : string) (payload : gmap string value) (s s' : state)
    (o : outcome unit) :
  _trigger_hook a hook payload s = (o, s') -> _message_history s' = _message_history s.
Proof.
  destruct (trigger_hook_outcome a hook payload s) as (w & fault & ->). by intros [= _ <-].
Qed.

(** What a pass that ends the turn returns. *)
Lemma round_result (messages tools : list value) (s s' : state) (r : turn_result) :
  round a messages tools s = (Return (inl r), s') ->
  history_messages r = _message_history s'
  /\ simplify (_message_history s') = Return (history_simplified r)
  /\ (stop_reason r = "completed" \/ stop_reason r = "manual_stop").
Proof.
  unfold round. intros Hround.
  apply bind_Return in Hround as ([resp stopped] & s1 & Hcall & Hround).
  destruct stopped.
  { apply bind_Return in Hround as (payload & s2 & _ & Hround).
    apply bind_Return in Hround as (u & s3 & _ & Hround).
    apply bind_Return in Hround as (r0 & s4 & Hfmt & Hround).
    injection Hround as <- <-.
    apply format_response_outcome in Hfmt as (-> & Hreason & Hmsgs & Hclean & _). auto. }
  apply bind_Return in Hround as (u & s2 & _ & Hround).
  destruct (resp_tool_calls resp) as [|tc tcs].
  { apply bind_Return in Hround as (r0 & s4 & Hfmt & Hround).
    injection Hround as <- <-. unfold complete in Hfmt.
    apply bind_Return in Hfmt as (payload & s5 & _ & Hfmt).
    apply bind_Return in Hfmt as (u' & s6 & _ & Hfmt).
    apply format_response_outcome in Hfmt as (-> & Hreason & Hmsgs & Hclean & _). auto. }
  apply bind_Return in Hround as ([results stopped] & s3 & _ & Hround).
  destruct stopped.
  - apply bind_Return in Hround as (r0 & s4 & Hfmt & Hround).
    injection Hround as <- <-.
    apply format_response_outcome in Hfmt as (-> & Hreason & Hmsgs & Hclean & _). auto.
  - by apply bind_Return in Hround as (m & s4 & _ & Hround).
Qed.

Lemma conversation_result (fuel : nat) (messages tools : list value) (s s' : state)
    (r : turn_result) :
  conversation a fuel messages tools s = Some (Return r, s') ->
  history_messages r = _message_history s'
  /\ simplify (_message_history s') = Return (history_simplified r)
  /\ (stop_reason r = "completed" \/ stop_reason r = "manual_stop")
  /\ exists added,
      _message_history s' = _message_history s ++ added
      /\ Forall (fun msg => valid_message msg = true) added.
Proof.
  revert messages s. induction fuel as [|fuel IH]; intros messages s; simpl; [done|].
  destruct (grows_round a messages tools s) as (added1 & Hh1 & Hv1).
  destruct (round a messages tools s) as [[[r0|messages']|e] s1] eqn:Hround; simpl in *.
  - intros [= <- <-]. destruct (round_result _ _ _ _ _ Hround) as (Hm & Hc & Hr).
    split; [done|]. split; [done|]. split; [done|]. by exists added1.
  - intros Hrest. destruct (IH _ _ Hrest) as (Hm & Hc & Hr & added2 & Hh2 & Hv2).
    split; [done|]. split; [done|]. split; [done|].
    exists (added1 ++ added2). rewrite Hh2, Hh1, app_assoc. split; [done|].
    by apply Forall_app.
  - done.
Qed.

Lemma on_error_raises (e : exn) (s s' : state) (r : turn_result) :
  on_error a e s <> (Return r, s').
Proof. destruct (on_error_outcome a e s) as (payload & w & fault & -> & _). done. Qed.

Lemma send_message_result (fuel : nat) (message : string) (history : value)
    (s s' : state) (r : turn_result) :
  send_message a fuel message history s = Some (Return r, s') ->
  exists safe_history added,
    _validate_history history = Return safe_history
    /\ history_messages r = safe_history ++ user_message message :: added
    /\ Forall (fun msg => valid_message msg = true) added
    /\ history_messages r = _message_history s'
    /\ simplify (history_messages r) = Return (history_simplified r)
    /\ (stop_reason r = "completed" \/ stop_reason r = "manual_stop").
Proof.
  unfold send_message.
  destruct (begin_turn a message history s) as [[messages|e] s0] eqn:Hbegin.
  2:{ intros [= Herr]. by apply on_error_raises in Herr. }
  destruct (begin_turn_history a _ _ _ _ _ Hbegin) as (safe & Hsafe & Hh0 & _).
  destruct (conversation a fuel messages (tool_schemas a) s0) as [[[r0|e] s1]|] eqn:Hconv;
    [| |done].
  2:{ intros [= Herr]. by apply on_error_raises in Herr. }
  intros [= <- <-].
  destruct (conversation_result _ _ _ _ _ _ Hconv) as (Hm & Hc & Hr & added & Hh & Hv).
  rewrite <- Hm in Hc. exists safe, added.
  split; [done|]. split; [by rewrite Hm, Hh, Hh0, <- app_assoc|]. by split.
Qed.

(** X11. Whatever [send_message] returns, and however the turn ended, the
    full history of the result is the history store; it begins with the
    validated prior history followed by the new user message, and all that
    follows are well-formed messages.  The stop reason is ["completed"] or
    ["manual_stop"]. *)
Theorem turn_history_shape (fuel : nat) (message : string) (history : value)
    (s s' : state) (r : turn_result) :
  send_message a fuel message history s = Some (Return r, s') ->
  exists safe_history added,
    _validate_history history = Return safe_history
    /\ history_messages r = safe_history ++ user_message message :: added
    /\ Forall (fun msg => valid_message msg = true) added
    /\ history_messages r = _message_history s'
    /\ (stop_reason r = "completed" \/ stop_reason r = "manual_stop").
Proof.
  intros (safe & added & Hsafe & Hm & Hv & Hs & _ & Hr)%send_message_result.
  by exists safe, added.
Qed.

Lemma simplify_valid_out (history clean_history : list value) :
  Forall (fun msg => valid_message msg = true) history ->
  simplify history = Return clean_history ->
  Forall (fun msg => valid_message msg = true) clean_history.
Proof.
  intros Hvalid. revert clean_history.
  induction Hvalid as [|msg rest Hmsg _ IH]; intros clean; simpl.
  - by intros [= <-].
  - destruct (getitem msg "role") as [role|e]; simpl; [|done].
    destruct (simplify rest) as [clean'|e].
    2:{ destruct (is_str role "user"); simpl; [done|].
        destruct (is_str role "assistant"); simpl; [|done].
        destruct (truthy (dict_get msg "content")); simpl; [|done].
        by destruct (getitem msg "content"). }
    specialize (IH clean' eq_refl).
    destruct (is_str role "user"); simpl; [intros [= <-]; by constructor|].
    destruct (is_str role "assistant"); simpl; [|by intros [= <-]].
    destruct (truthy (dict_get msg "content")); simpl; [|by intros [= <-]].
    destruct (getitem msg "content") as [c|e]; simpl; [|done].
    intros [= <-]. constructor; [|done].
    unfold valid_message. simpl. apply andb_true_iff.
    split; apply bool_decide_eq_true; by simplify_map_eq.
Qed.

(** X12. The simplified history of a result of [send_message] can seed the
    next turn: [_validate_history] accepts it and returns it unchanged.  It
    holds the new user message, and only user messages and assistant
    messages with content. *)
Theorem simplified_history_seeds_next_turn (fuel : nat) (message : string)
    (history : value) (s s' : state) (r : turn_result) :
  send_message a fuel message history s = Some (Return r, s') ->
  _validate_history (VList (history_simplified r)) = Return (history_simplified r)
  /\ user_message message ∈ history_simplified r
  /\ Forall visible (history_simplified r).
Proof.
  intros (safe & added & Hsafe & Hm & Hv & _ & Hclean & _)%send_message_result.
  destruct (simplify_facts _ _ Hclean) as (Hvis & Huser & _ & _).
  split; [|split; [|done]].
  - apply validate_history_accepts. apply (simplify_valid_out (history_messages r)); [|done].
    rewrite Hm. apply Forall_app. split; [by apply (validate_history_valid history)|].
    by constructor.
  - apply Huser; [|done]. rewrite Hm. apply elem_of_app. right. apply list_elem_of_here.
Qed.

(** *** The working message list *)

Lemma prepare_messages_after_user (h : list value) (message : string)
    (messages : list value) :
  _prepare_messages a message (Some (h ++ [user_message message])) = Return messages ->
  messages
  = (if starts_with_system (h ++ [user_message message]) then [] else [system_message a])
    ++ h ++ [user_message message].
Proof.
  assert (Hfresh : (let? c := getitem (user_message message) "content" in
                    Return (negb (is_str c message))) = Return false).
  { unfold getitem, user_message, dict. simpl.
    rewrite lookup_insert_ne, lookup_insert_eq by done. simpl.
    by rewrite String.eqb_refl. }
  unfold _prepare_messages, starts_with_system. simpl default.
  rewrite last_snoc, Hfresh.
  destruct (h ++ [user_message message]) as [|first rest] eqn:Hh;
    [by destruct h|].
  destruct (getitem first "role") as [role|e] eqn:Hrole; [|done].
  apply getitem_Return in Hrole as [-> _]. simpl.
  destruct (is_str role "system"); simpl; by intros [= <-].
Qed.

Lemma starts_with_system_app (messages added : list value) :
  starts_with_system messages = true -> starts_with_system (messages ++ added) = true.
Proof. by destruct messages. Qed.

Lemma begin_turn_messages (message : string) (history : value) (messages : list value)
    (s s0 : state) :
  begin_turn a message history s = (Return messages, s0) ->
  exists safe_history,
    _validate_history history = Return safe_history
    /\ _message_history s0 = safe_history ++ [user_message message]
    /\ messages
       = (if starts_with_system (safe_history ++ [user_message message])
          then [] else [system_message a])
         ++ safe_history ++ [user_message message]
    /\ starts_with_system messages = true.
Proof.
  intros Hbegin.
  destruct (begin_turn_history a _ _ _ _ _ Hbegin) as (safe & Hsafe & Hh0 & _).
  exists safe. split; [done|]. split; [done|].
  unfold begin_turn in Hbegin.
  apply bind_Return in Hbegin as (safe' & s1 & _ & Hbegin).
  apply bind_Return in Hbegin as (u1 & s2 & _ & Hbegin).
  apply bind_Return in Hbegin as (u2 & s3 & _ & Hbegin).
  apply bind_Return in Hbegin as (payload & s4 & _ & Hbegin).
  apply bind_Return in Hbegin as (u3 & s5 & _ & Hbegin).
  apply bind_Return in Hbegin as (h & s6 & Hget & Hbegin).
  injection Hget as <- <-. unfold lift in Hbegin. injection Hbegin as Hprep <-.
  rewrite Hh0 in Hprep. apply prepare_messages_after_user in Hprep.
  split; [done|]. rewrite Hprep.
  destruct (starts_with_system (safe ++ [user_message message])) eqn:Hsys; [done|].
  done.
Qed.

Lemma rounds_messages (n : nat) (messages messages' tools : list value) (s s' : state) :
  rounds a n messages tools s = Some (messages', s') ->
  exists added,
    messages' = messages ++ added /\ _message_history s' = _message_history s ++ added.
Proof.
  revert messages s. induction n as [|n IH]; intros messages s; simpl.
  - intros [= <- <-]. exists []. by rewrite !app_nil_r.
  - destruct (round a messages tools s) as [[[r|m1]|e] s1] eqn:Hround; try done.
    destruct (round_continues _ _ _ _ _ Hround) as (resp & results & -> & Hh1).
    intros Hrest. destruct (IH _ _ Hrest) as (added & -> & Hh).
    eexists. rewrite Hh, Hh1, <- !app_assoc. by split.
Qed.

(** X13. The working message list and the history store never drift apart:
    at every pass of the loop the list sent to the backend is the history
    store, preceded by the system message unless the store starts with one.
    At the first pass it ends with the new user message, which
    [_prepare_messages] does not append a second time. *)
Theorem working_list_tracks_history (n : nat) (message : string) (history : value)
    (messages0 messages : list value) (s s0 sn : state) :
  begin_turn a message history s = (Return messages0, s0) ->
  rounds a n messages0 (tool_schemas a) s0 = Some (messages, sn) ->
  exists safe_history,
    _validate_history history = Return safe_history
    /\ messages0
       = (if starts_with_system (safe_history ++ [user_message message])
          then [] else [system_message a])
         ++ safe_history ++ [user_message message]
    /\ messages
       = (if starts_with_system (_message_history sn) then [] else [system_message a])
         ++ _message_history sn
    /\ starts_with_system messages = true.
Proof.
  intros Hbegin Hrounds.
  destruct (begin_turn_messages _ _ _ _ _ Hbegin) as (safe & Hsafe & Hh0 & Hm0 & Hsys0).
  destruct (rounds_messages _ _ _ _ _ _ Hrounds) as (added & -> & Hhn).
  exists safe. split; [done|]. split; [done|]. split; [|by apply starts_with_system_app].
  rewrite Hhn, Hh0, Hm0, <- !app_assoc.
  assert (Hsame : starts_with_system (safe ++ [user_message message] ++ added)
                  = starts_with_system (safe ++ [user_message message])) by (by destruct safe).
  by rewrite Hsame.
Qed.

Lemma conversation_emits (fuel : nat) (messages : list value) (s s' : state)
    (o : outcome turn_result) :
  starts_with_system messages = true ->
  conversation a fuel messages (tool_schemas a) s = Some (o, s') ->
  exists evs, trace s' = trace s ++ evs /\ Forall (well_formed_event a) evs.
Proof.
  revert messages s. induction fuel as [|fuel IH]; intros messages s Hsys; simpl; [done|].
  destruct (emits_round messages Hsys s) as (evs1 & Ht1 & Hp1).
  destruct (round a messages (tool_schemas a) s) as [[[r|messages']|e] s1] eqn:Hround;
    simpl in *.
  - intros [= <- <-]. by exists evs1.
  - destruct (round_continues _ _ _ _ _ Hround) as (resp & results & Hm' & _).
    intros Hrest. destruct (IH messages' s1) with (2 := Hrest) as (evs2 & Ht2 & Hp2).
    { rewrite Hm'. by apply starts_with_system_app. }
    exists (evs1 ++ evs2). rewrite Ht2, Ht1, app_assoc. split; [done|]. by apply Forall_app.
  - intros [= <- <-]. by exists evs1.
Qed.

Lemma begin_turn_emits (message : string) (history : value) :
  emits (well_formed_event a) (begin_turn a message history).
Proof.
  unfold begin_turn.
  apply emits_bind; [by apply emits_silent|]. intros safe.
  apply emits_bind; [by apply emits_silent|]. intros _.
  apply emits_bind; [by apply emits_silent|]. intros _.
  apply emits_turn_payload. intros ts.
  apply emits_bind; [by apply emits_trigger_hook; [turn_event | |]|]. intros _.
  apply emits_bind; [by apply emits_silent|]. intros h.
  by apply emits_silent.
Qed.

(** The [except] block emits [on_error] with the description of the
    exception it caught, and raises that exception again unless a callback
    of [on_error] faults. *)
Lemma on_error_event (e : exn) (s : state) :
  exists w fault,
    on_error a e s
    = (Raise (match fault with
              | None => e
              | Some e' => e'
              end),
       log (EvHook "on_error"
              (dict [("error", VStr (str_exn e)); ("user_id", user_id a);
                     ("chat_id", chat_id a); ("timestamp", VStr (now (world s)))])
              fault)
           (set_world w s)).
Proof.
  unfold on_error, bind, turn_payload, get_now, ret. simpl.
  match goal with |- context [_trigger_hook a "on_error" ?p s] =>
    destruct (trigger_hook_outcome a "on_error" p s) as (w & fault & Hrun) end.
  exists w, fault. rewrite Hrun. by destruct fault.
Qed.

(** The events of a turn: those of the [try] block, then, when the turn
    raises, the emission of [on_error]. *)
Lemma send_message_emits (fuel : nat) (message : string) (history : value)
    (s s' : state) (o : outcome turn_result) :
  send_message a fuel message history s = Some (o, s') ->
  exists evs,
    Forall (well_formed_event a) evs
    /\ match o with
       | Return _ => new_events s s' = evs
       | Raise e =>
           exists e0 ts fault,
             new_events s s'
             = evs ++ [EvHook "on_error"
                         (dict [("error", VStr (str_exn e0)); ("user_id", user_id a);
                                ("chat_id", chat_id a); ("timestamp", VStr ts)])
                         fault]
             /\ e = match fault with
                    | None => e0
                    | Some e' => e'
                    end
       end.
Proof.
  unfold send_message.
  destruct (begin_turn_emits message history s) as (evs1 & Ht1 & Hp1).
  destruct (begin_turn a message history s) as [[messages|e] s0] eqn:Hbegin; simpl in *.
  - destruct (begin_turn_messages _ _ _ _ _ Hbegin) as (safe & _ & _ & _ & Hsys).
    destruct (conversation a fuel messages (tool_schemas a) s0) as [[[r|e] s1]|] eqn:Hconv;
      [| |done]; apply (conversation_emits _ _ _ _ _ Hsys) in Hconv as (evs2 & Ht2 & Hp2).
    + intros [= <- <-]. exists (evs1 ++ evs2). split; [by apply Forall_app|].
      apply new_events_app. by rewrite Ht2, Ht1, app_assoc.
    + destruct (on_error_event e s1) as (w & fault & ->).
      intros [= <- <-]. exists (evs1 ++ evs2). split; [by apply Forall_app|].
      exists e, (now (world s1)), fault. split; [|done].
      apply new_events_app. simpl. by rewrite Ht2, Ht1, <- !app_assoc.
  - destruct (on_error_event e s0) as (w & fault & ->).
    intros [= <- <-]. exists evs1. split; [done|].
    exists e, (now (world s0)), fault. split; [|done].
    apply new_events_app. simpl. by rewrite Ht1, <- app_assoc.
Qed.

(** Every event of a turn but the emission of [on_error] is one of the
    [try] block. *)
Lemma send_message_events (fuel : nat) (message : string) (history : value)
    (s s' : state) (o : outcome turn_result) (ev : event) :
  send_message a fuel message history s = Some (o, s') ->
  ev ∈ new_events s s' ->
  well_formed_event a ev \/ exists payload fault, ev = EvHook "on_error" payload fault.
Proof.
  intros (evs & Hp & Hevs)%send_message_emits Hin. rewrite Forall_forall in Hp.
  destruct o as [r|e].
  - left. apply Hp. by rewrite <- Hevs.
  - destruct Hevs as (e0 & ts & fault & Hevs & _). rewrite Hevs in Hin.
    apply elem_of_app in Hin as [Hin|Hin]; [left; by apply Hp|].
    right. apply list_elem_of_In in Hin. simpl in Hin. destruct Hin as [<-|[]].
    by eexists _, _.
Qed.

(** X14. Every call of the model backend in a turn, whether the turn
    returns or raises, gets a message list that begins with a system
    message, and for [tools] the schemas of the registry, one per entry and
    in order, or [None] when the registry is empty. *)
Theorem backend_gets_system_message_and_schemas (fuel : nat) (message : string)
    (history : value) (s s' : state) (o : outcome turn_result) (messages : list value)
    (tools : option (list value)) :
  send_message a fuel message history s = Some (o, s') ->
  EvBackend messages tools ∈ new_events s s' ->
  starts_with_system messages = true
  /\ tools = match tool_registry a with
             | [] => None
             | _ :: _ =>
                 Some ((fun t => VDict (dict [("type", VStr "function");
                                              ("function", function_schema t)]))
                       <$> tool_registry a)
             end.
Proof.
  intros Hsend Hin.
  destruct (send_message_events _ _ _ _ _ _ _ Hsend Hin) as [[-> Hsys]|(p & f & [=])].
  split; [done|]. unfold tools_argument, tool_schemas. by destruct (tool_registry a).
Qed.

(** X15. In a whole turn, in either dispatch mode and whatever the
    interleaving, every tool callable that is called belongs to an entry of
    the registry and receives the agent's own [user_id], [chat_id] and
    [agent_name]. *)
Theorem turn_calls_registered_tools_as_agent (fuel : nat) (message : string)
    (history : value) (s s' : state) (o : outcome turn_result) (tl : string)
    (kw : gmap string value) :
  send_message a fuel message history s = Some (o, s') ->
  EvCall tl kw ∈ new_events s s' ->
  (exists t, t ∈ tool_registry a /\ tool_name t = tl)
  /\ kw !! "user_id" = Some (user_id a)
  /\ kw !! "chat_id" = Some (chat_id a)
  /\ kw !! "agent_name" = Some (VStr (agent_name a)).
Proof.
  intros Hsend Hin.
  by destruct (send_message_events _ _ _ _ _ _ _ Hsend Hin) as [Hev|(p & f & [=])].
Qed.

(** X16. The hooks of a turn.  Every hook emission carries the agent's
    [user_id] and [chat_id].  A turn that returns emits only events of
    [turn_events], so never [on_error].  A turn that raises emits
    [on_error] exactly once, as its last event, with the description of the
    exception caught; the exception raised is the one caught, unless a
    callback of [on_error] faults, in which case it is that fault. *)
Theorem on_error_closes_a_raising_turn (fuel : nat) (message : string)
    (history : value) (s s' : state) (o : outcome turn_result) :
  send_message a fuel message history s = Some (o, s') ->
  (forall hook payload fault,
     EvHook hook payload fault ∈ new_events s s' ->
     payload !! "user_id" = Some (user_id a) /\ payload !! "chat_id" = Some (chat_id a))
  /\ match o with
     | Return _ =>
         forall hook payload fault,
           EvHook hook payload fault ∈ new_events s s' -> hook ∈ turn_events
     | Raise e =>
         exists evs e0 payload fault,
           new_events s s' = evs ++ [EvHook "on_error" payload fault]
           /\ (forall hook payload' fault',
                 EvHook hook payload' fault' ∈ evs -> hook ∈ turn_events)
           /\ payload !! "error" = Some (VStr (str_exn e0))
           /\ e = match fault with
                  | None => e0
                  | Some e' => e'
                  end
     end
  /\ "on_error" ∉ turn_events.
Proof.
  intros (evs & Hp & Hevs)%send_message_emits. rewrite Forall_forall in Hp.
  split; [|split].
  - intros hook payload fault Hin. destruct o as [r|e].
    + rewrite Hevs in Hin. by destruct (Hp _ Hin) as (_ & Hu & Hc).
    + destruct Hevs as (e0 & ts & fault0 & Hevs & _). rewrite Hevs in Hin.
      apply elem_of_app in Hin as [Hin|Hin];
        [by destruct (Hp _ Hin) as (_ & Hu & Hc)|].
      apply list_elem_of_In in Hin. simpl in Hin. by destruct Hin as [[= <- <- <-]|[]].
  - destruct o as [r|e].
    + intros hook payload fault Hin. rewrite Hevs in Hin. by destruct (Hp _ Hin).
    + destruct Hevs as (e0 & ts & fault & Hevs & He).
      eexists evs, e0, _, fault. split; [exact Hevs|]. split; [|done].
      intros hook payload' fault' Hin. by destruct (Hp _ Hin).
  - intros Hin. apply list_elem_of_In in Hin. simpl in Hin. intuition discriminate.
Qed.

(** *** How a turn ends *)

Lemma call_client_trace (messages : list value) (s : state) :
  trace (call_client a messages (tool_schemas a) s).2
  = trace s ++ [EvBackend messages (tools_argument a)].
Proof.
  unfold call_client, tools_argument, bind, emit, perform. simpl.
  destruct (tool_schemas a); by destruct (client_send_message a _ _ _ _ _ _) as [[r|e] w].
Qed.

Lemma trigger_hook_Return (hook : string) (payload : gmap string value) (s s' : state)
    (u : unit) :
  _trigger_hook a hook payload s = (Return u, s') ->
  _message_history s' = _message_history s
  /\ polls s' = polls s
  /\ trace s' = trace s ++ [EvHook hook payload None].
Proof.
  destruct (trigger_hook_outcome a hook payload s) as (w & [e|] & ->); [done|].
  by intros [= _ <-].
Qed.

(** The three ways in which a pass ends the turn: the stop is seen after the
    model call; the reply has no tool calls; the stop is seen after the tool
    dispatch. *)
Lemma round_ending (messages : list value) (s s' : state) (r : turn_result) :
  round a messages (tool_schemas a) s = (Return (inl r), s') ->
  exists resp tail,
    trace s' = trace s ++ EvBackend messages (tools_argument a) :: tail
    /\ tr_output r = resp_content resp
    /\ tr_usage r = resp_usage resp
    /\ history_messages r = _message_history s'
    /\ polls s < polls s'
    /\ ((stop_reason r = "manual_stop"
         /\ stop_seen (polls s) = true
         /\ _message_history s' = _message_history s
         /\ exists payload, tail = [EvHook "on_manual_stop" payload None])
        \/ (stop_reason r = "completed"
            /\ resp_tool_calls resp = []
            /\ _message_history s' = _message_history s ++ [assistant_message resp]
            /\ exists payload,
                 tail = [EvHook "on_after_request" payload None]
                 /\ payload !! "response" = Some (response_value resp))
        \/ (stop_reason r = "manual_stop"
            /\ stop_seen (S (polls s)) = true
            /\ polls s' = S (S (polls s))
            /\ resp_tool_calls resp <> []
            /\ _message_history s' = _message_history s ++ [assistant_message resp]
            /\ Forall (dispatch_event a) tail)).
Proof.
  unfold round. intros Hround.
  apply bind_Return in Hround as ([resp stopped] & s1 & Hcall & Hround).
  unfold _run_with_stop_handler in Hcall.
  apply bind_Return in Hcall as (resp' & s0 & Hclient & Hcall).
  injection Hcall as -> <- <-.
  pose proof (call_client_same_agent a messages (tool_schemas a) s) as [Hh0 Hp0].
  pose proof (call_client_trace messages s) as Ht0.
  rewrite Hclient in Hh0, Hp0, Ht0. simpl in Hh0, Hp0, Ht0.
  exists resp. rewrite Hp0 in *.
  destruct (stop_seen (polls s)) eqn:Hstop.
  { apply bind_Return in Hround as (payload & s2 & Hpay & Hround).
    injection Hpay as <- <-.
    apply bind_Return in Hround as (u & s3 & Hhook & Hround).
    apply trigger_hook_Return in Hhook as (Hh3 & Hp3 & Ht3).
    apply bind_Return in Hround as (r0 & s4 & Hfmt & Hround).
    injection Hround as <- <-.
    apply format_response_outcome in Hfmt as (-> & Hreason & Hmsgs & _ & Hout & Huse).
    eexists [_]. simpl in *. rewrite Ht3, Ht0, <- app_assoc.
    split; [done|]. split; [done|]. split; [done|]. split; [done|]. split; [lia|].
    left. split; [done|]. split; [done|]. split; [by rewrite Hh3|]. by eexists. }
  apply bind_Return in Hround as (u & s2 & Hadd & Hround).
  injection Hadd as _ <-.
  destruct (resp_tool_calls resp) as [|tc tcs] eqn:Htcs.
  { apply bind_Return in Hround as (r0 & s4 & Hfmt & Hround).
    injection Hround as <- <-. unfold complete in Hfmt.
    apply bind_Return in Hfmt as (payload & s5 & Hpay & Hfmt).
    injection Hpay as <- <-.
    apply bind_Return in Hfmt as (u' & s6 & Hhook & Hfmt).
    apply trigger_hook_Return in Hhook as (Hh6 & Hp6 & Ht6).
    apply format_response_outcome in Hfmt as (-> & Hreason & Hmsgs & _ & Hout & Huse).
    eexists [_]. simpl in *. rewrite Ht6, Ht0, <- app_assoc.
    split; [done|]. split; [done|]. split; [done|]. split; [done|]. split; [lia|].
    right. left. split; [done|]. split; [done|]. split; [by rewrite Hh6, Hh0|].
    by eexists. }
  apply bind_Return in Hround as ([results stopped] & s3 & Hdispatch & Hround).
  unfold _run_with_stop_handler in Hdispatch.
  apply bind_Return in Hdispatch as (results' & s2' & Hdispatch & Hpoll).
  injection Hpoll as -> <- <-.
  match type of Hdispatch with ?d ?s2 = _ =>
    assert (Hsame : same_agent s2 (d s2).2);
    [destruct (execute_function_concurrently a);
       [apply concurrent_same_agent | apply sequential_loop_same_agent]|];
    assert (Hevs : exists evs, trace (d s2).2 = trace s2 ++ evs
                               /\ Forall (dispatch_event a) evs);
    [destruct (execute_function_concurrently a);
       [apply emits_concurrent | apply emits_sequential_loop]|]
  end.
  rewrite Hdispatch in Hsame, Hevs. simpl in Hsame, Hevs.
  destruct Hsame as [Hh2 Hp2]. destruct Hevs as (evs & Ht2 & Hevs).
  rewrite Hp2 in Hround. simpl in Hround.
  destruct (stop_seen (S (polls s))) eqn:Hstop2.
  - apply bind_Return in Hround as (r0 & s4 & Hfmt & Hround).
    injection Hround as <- <-.
    apply format_response_outcome in Hfmt as (-> & Hreason & Hmsgs & _ & Hout & Huse).
    exists evs. simpl in *. rewrite Ht2, Ht0, <- app_assoc.
    split; [done|]. split; [done|]. split; [done|]. split; [done|]. split; [lia|].
    right. right. split; [done|]. split; [done|]. split; [done|]. split; [done|].
    split; [by rewrite Hh2, Hh0 | done].
  - by apply bind_Return in Hround as (m & s4 & _ & Hround).
Qed.

(** The passes of a turn that returns: some that go on, then one that ends
    the turn. *)
Lemma conversation_last_round (fuel : nat) (messages tools : list value) (s s' : state)
    (r : turn_result) :
  conversation a fuel messages tools s = Some (Return r, s') ->
  exists n messages' sn,
    rounds a n messages tools s = Some (messages', sn)
    /\ round a messages' tools sn = (Return (inl r), s').
Proof.
  revert messages s. induction fuel as [|fuel IH]; intros messages s; simpl; [done|].
  destruct (round a messages tools s) as [[[r1|messages1]|e] s1] eqn:Hround.
  - intros [= <- <-]. by exists 0, messages, s.
  - intros (n & messages' & sn & Hrounds & Hlast)%IH.
    exists (S n), messages', sn. simpl. by rewrite Hround.
  - done.
Qed.

Lemma rounds_trace (n : nat) (messages messages' tools : list value) (s s' : state) :
  rounds a n messages tools s = Some (messages', s') ->
  exists evs, trace s' = trace s ++ evs.
Proof.
  revert messages s. induction n as [|n IH]; intros messages s; simpl.
  - intros [= <- <-]. exists []. by rewrite app_nil_r.
  - destruct (propagating_round a messages tools s) as (evs1 & Ht1 & _).
    destruct (round a messages tools s) as [[[r|m1]|e] s1]; try done. simpl in *.
    intros (evs2 & Ht2)%IH. exists (evs1 ++ evs2). by rewrite Ht2, Ht1, app_assoc.
Qed.

(** A turn that returns, seen from its last pass: the messages sent to the
    backend there are the history store at that time, after the system
    message when the store does not start with one. *)
Lemma send_message_last_round (fuel : nat) (message : string) (history : value)
    (s s' : state) (r : turn_result) :
  send_message a fuel message history s = Some (Return r, s') ->
  exists messages sn earlier,
    round a messages (tool_schemas a) sn = (Return (inl r), s')
    /\ trace sn = trace s ++ earlier
    /\ messages
       = (if starts_with_system (_message_history sn) then [] else [system_message a])
         ++ _message_history sn
    /\ user_message message ∈ _message_history sn.
Proof.
  unfold send_message.
  destruct (begin_turn a message history s) as [[messages0|e] s0] eqn:Hbegin.
  2:{ destruct (on_error_event e s0) as (w & fault & ->). done. }
  destruct (conversation a fuel messages0 (tool_schemas a) s0) as [[[r1|e] s1]|] eqn:Hconv;
    [| |done].
  2:{ destruct (on_error_event e s1) as (w & fault & ->). done. }
  intros [= <- <-].
  apply conversation_last_round in Hconv as (n & messages & sn & Hrounds & Hlast).
  destruct (begin_turn_emits message history s) as (evs0 & Ht0 & _).
  rewrite Hbegin in Ht0. simpl in Ht0.
  destruct (rounds_trace _ _ _ _ _ _ Hrounds) as (evs1 & Ht1).
  destruct (begin_turn_messages _ _ _ _ _ Hbegin) as (safe & Hsafe & Hh0 & Hm0 & Hsys0).
  destruct (rounds_messages _ _ _ _ _ _ Hrounds) as (added & -> & Hhn).
  exists (messages0 ++ added), sn, (evs0 ++ evs1).
  split; [done|]. split; [by rewrite Ht1, Ht0, app_assoc|]. split.
  - rewrite Hhn, Hh0, Hm0, <- !app_assoc.
    assert (Hsame : starts_with_system (safe ++ [user_message message] ++ added)
                    = starts_with_system (safe ++ [user_message message]))
      by (by destruct safe).
    by rewrite Hsame.
  - rewrite Hhn, Hh0. apply elem_of_app. left. apply elem_of_app. right.
    apply list_elem_of_here.
Qed.

(** X17. A turn that returns with [stop_reason] ["completed"] ends on a
    reply without tool calls: the reply is the last entry of the returned
    history, with no [tool_calls] key, and its content is the output.  The
    last backend call of the turn got everything that precedes the reply,
    and [on_after_request], with the reply in its payload, is the last event
    of the turn. *)
Theorem completed_turn_ends_on_plain_reply (fuel : nat) (message : string)
    (history : value) (s s' : state) (r : turn_result) :
  send_message a fuel message history s = Some (Return r, s') ->
  stop_reason r = "completed" ->
  exists resp before earlier payload,
    resp_tool_calls resp = []
    /\ history_messages r = before ++ [assistant_message resp]
    /\ assistant_message resp
       = VDict (dict [("role", VStr "assistant"); ("content", resp_content resp)])
    /\ user_message message ∈ before
    /\ tr_output r = resp_content resp
    /\ tr_usage r = resp_usage resp
    /\ new_events s s'
       = earlier
         ++ [EvBackend ((if starts_with_system before then [] else [system_message a])
                        ++ before)
               (tools_argument a);
             EvHook "on_after_request" payload None]
    /\ payload !! "response" = Some (response_value resp).
Proof.
  intros (messages & sn & earlier & Hlast & Ht & Hm & Huser)%send_message_last_round
    Hreason.
  apply round_ending in Hlast
    as (resp & tail & Htrace & Hout & Huse & Hmsgs & _ & [Hend|[Hend|Hend]]);
    [destruct Hend as [Hr _]; congruence| |destruct Hend as [Hr _]; congruence].
  destruct Hend as (_ & Htcs & Hh & payload & -> & Hpayload).
  exists resp, (_message_history sn), earlier, payload.
  split; [done|]. split; [by rewrite Hmsgs, Hh|].
  split; [unfold assistant_message; by rewrite Htcs|].
  split; [done|]. split; [done|]. split; [done|]. split; [|done].
  apply new_events_app. by rewrite Htrace, Ht, <- app_assoc, <- Hm.
Qed.

(** X18. A turn that returns with [stop_reason] ["manual_stop"] has seen a
    stop request, at one of the two consultations of its last pass.  Either
    the stop was seen right after the model call: the returned history is
    what the backend was just sent, so the reply to that call is not
    recorded in it, no tool is called for it, and [on_manual_stop] is the
    last event.  Or the stop was seen after the tool dispatch: the reply to
    the last backend call, with its tool calls, is the last entry of the
    history, just after what the backend was sent, its content is the
    output, and after that backend call come only events of the dispatch,
    so [on_manual_stop] is not emitted. *)
Theorem stopped_turn_ends_at_stop_point (fuel : nat) (message : string)
    (history : value) (s s' : state) (r : turn_result) :
  send_message a fuel message history s = Some (Return r, s') ->
  stop_reason r = "manual_stop" ->
  (exists k, stop_after = Some k /\ k < polls s')
  /\ exists earlier messages tail,
       new_events s s' = earlier ++ EvBackend messages (tools_argument a) :: tail
       /\ ((messages
            = (if starts_with_system (history_messages r) then [] else [system_message a])
              ++ history_messages r
            /\ exists payload, tail = [EvHook "on_manual_stop" payload None])
           \/ (exists resp before,
                 resp_tool_calls resp <> []
                 /\ history_messages r = before ++ [assistant_message resp]
                 /\ dict_get (assistant_message resp) "tool_calls"
                    = VList (tool_call_value <$> resp_tool_calls resp)
                 /\ messages
                    = (if starts_with_system before then [] else [system_message a])
                      ++ before
                 /\ tr_output r = resp_content resp
                 /\ tr_usage r = resp_usage resp
                 /\ Forall (dispatch_event a) tail
                 /\ forall payload fault, EvHook "on_manual_stop" payload fault ∉ tail)).
Proof.
  intros (messages & sn & earlier & Hlast & Ht & Hm & Huser)%send_message_last_round
    Hreason.
  apply round_ending in Hlast
    as (resp & tail & Htrace & Hout & Huse & Hmsgs & Hpolls & [Hend|[Hend|Hend]]);
    [|destruct Hend as [Hr _]; congruence|].
  - destruct Hend as (_ & Hstop & Hh & payload & ->). split.
    + unfold stop_seen in Hstop. destruct stop_after as [k|]; [|done].
      exists k. split; [done|]. apply bool_decide_eq_true in Hstop. lia.
    + exists earlier, messages, [EvHook "on_manual_stop" payload None].
      split; [apply new_events_app; by rewrite Htrace, Ht, <- app_assoc|].
      left. split; [by rewrite Hmsgs, Hh | by eexists].
  - destruct Hend as (_ & Hstop & Hp & Htcs & Hh & Htail). split.
    + unfold stop_seen in Hstop. destruct stop_after as [k|]; [|done].
      exists k. split; [done|]. apply bool_decide_eq_true in Hstop. lia.
    + exists earlier, messages, tail.
      split; [apply new_events_app; by rewrite Htrace, Ht, <- app_assoc|].
      right. exists resp, (_message_history sn).
      split; [done|]. split; [by rewrite Hmsgs, Hh|].
      split; [by apply assistant_message_tool_calls|].
      split; [done|]. split; [done|]. split; [done|]. split; [done|].
      intros payload fault Hin. rewrite Forall_forall in Htail.
      destruct (Htail _ Hin) as [_ Hname].
      apply list_elem_of_In in Hname. simpl in Hname. intuition discriminate.
Qed.

(** *** A backend that keeps asking for tools *)

Lemma prepare_messages_returns (h : list value) (message : string) :
  Forall (fun msg => valid_message msg = true) h ->
  returned (_prepare_messages a message (Some (h ++ [user_message message]))).
Proof.
  intros Hvalid.
  assert (Hfresh : (let? c := getitem (user_message message) "content" in
                    Return (negb (is_str c message))) = Return false).
  { unfold getitem, user_message, dict. simpl.
    rewrite lookup_insert_ne, lookup_insert_eq by done. simpl.
    by rewrite String.eqb_refl. }
  assert (Hall : Forall (fun msg => valid_message msg = true) (h ++ [user_message message])).
  { apply Forall_app. split; [done|]. by constructor. }
  unfold _prepare_messages. simpl default. rewrite last_snoc, Hfresh.
  destruct (h ++ [user_message message]) as [|first rest] eqn:Hh; [by destruct h|].
  apply Forall_cons in Hall as [Hfirst _].
  by rewrite (getitem_valid first "role" (valid_message_role first Hfirst)).
Qed.

Lemma begin_turn_returns (message : string) (history : value) (safe_history : list value)
    (s : state) :
  _validate_history history = Return safe_history ->
  quiet a "on_before_request" ->
  returned (begin_turn a message history s).1.
Proof.
  intros Hsafe Hquiet.
  unfold begin_turn, bind, lift, put_history, _add_to_history, bind, get_history,
    put_history, turn_payload, get_now, ret.
  rewrite Hsafe. simpl.
  match goal with |- context [_trigger_hook a "on_before_request" ?p ?s0] =>
    destruct (trigger_hook_quiet a "on_before_request" p s0 Hquiet) as (w & ->) end.
  simpl.
  pose proof (prepare_messages_returns safe_history message
                (validate_history_valid _ _ Hsafe)) as Hprep.
  by destruct (_prepare_messages a message _).
Qed.

Section Asking.

Hypothesis no_stop : stop_after = None.
Hypothesis quiet_start : quiet a "on_function_call_start".
Hypothesis quiet_error : quiet a "on_function_call_error".
Hypothesis asking :
  forall messages tools w,
    exists resp,
      (client_send_message a messages (model a) tools (user_id a) (chat_id a) w).1
      = Return resp
      /\ resp_tool_calls resp <> [].

Lemma round_goes_on (messages : list value) (s : state) :
  exists messages' s',
    round a messages (tool_schemas a) s = (Return (inr messages'), s')
    /\ length (_message_history s) < length (_message_history s').
Proof.
  assert (Hgo : exists messages' s',
             round a messages (tool_schemas a) s = (Return (inr messages'), s')).
  { unfold round, _run_with_stop_handler, bind, stop_seen. rewrite no_stop.
    unfold call_client, bind, emit, perform. simpl.
    match goal with |- context [client_send_message a ?m ?mo ?t ?u ?c ?w] =>
      destruct (asking m t w) as (resp & Hresp & Htcs);
      destruct (client_send_message a m mo t u c w) as [o w'] end.
    simpl in Hresp. subst o.
    unfold _add_to_history, bind, get_history, put_history, ret. simpl.
    destruct (resp_tool_calls resp) as [|tc tcs] eqn:Hcalls; [done|].
    match goal with |- context [(if execute_function_concurrently a then ?c else ?q) ?s0] =>
      assert (Hret : returned ((if execute_function_concurrently a then c else q) s0).1);
      [destruct (execute_function_concurrently a);
         [by apply concurrent_returns | by apply sequential_loop_returns]|];
      destruct ((if execute_function_concurrently a then c else q) s0)
        as [[results|e] s3]; [|done]
    end.
    rewrite append_tool_messages_outcome. by eexists _, _. }
  destruct Hgo as (messages' & s' & Hround). exists messages', s'. split; [done|].
  apply round_continues in Hround as (resp & results & _ & ->).
  rewrite length_app. simpl. lia.
Qed.

Lemma rounds_go_on (n : nat) (messages : list value) (s : state) :
  exists messages' s',
    rounds a n messages (tool_schemas a) s = Some (messages', s')
    /\ length (_message_history s) + n <= length (_message_history s').
Proof.
  revert messages s. induction n as [|n IH]; intros messages s; simpl.
  - exists messages, s. split; [done | lia].
  - destruct (round_goes_on messages s) as (messages1 & s1 & -> & Hlen1).
    destruct (IH messages1 s1) as (messages' & s' & Hrounds & Hlen).
    exists messages', s'. split; [done | lia].
Qed.

Lemma conversation_goes_on (fuel : nat) (messages : list value) (s : state) :
  conversation a fuel messages (tool_schemas a) s = None.
Proof.
  revert messages s. induction fuel as [|fuel IH]; intros messages s; simpl; [done|].
  destruct (round_goes_on messages s) as (messages1 & s1 & -> & _). apply IH.
Qed.

End Asking.

(** X19. The loop of [send_message] has no limit on the number of its
    passes.  With a backend that answers every request with tool calls, no
    stop request, and hooks that do not fault, a turn whose history is
    accepted never returns and never raises: after any number of passes the
    loop is still going on, the history store having grown by at least one
    message in each pass. *)
Theorem loop_has_no_pass_limit (message : string) (history : value)
    (safe_history : list value) (s : state) :
  stop_after = None ->
  quiet a "on_before_request" ->
  quiet a "on_function_call_start" ->
  quiet a "on_function_call_error" ->
  (forall messages tools w,
     exists resp,
       (client_send_message a messages (model a) tools (user_id a) (chat_id a) w).1
       = Return resp
       /\ resp_tool_calls resp <> []) ->
  _validate_history history = Return safe_history ->
  (forall fuel, send_message a fuel message history s = None)
  /\ forall n,
       exists messages0 s0 messages sn,
         begin_turn a message history s = (Return messages0, s0)
         /\ rounds a n messages0 (tool_schemas a) s0 = Some (messages, sn)
         /\ length safe_history + 1 + n <= length (_message_history sn).
Proof.
  intros Hstop Hbefore Hstart Herror Hasking Hsafe.
  pose proof (begin_turn_returns message history safe_history s Hsafe Hbefore) as Hret.
  destruct (begin_turn a message history s) as [[messages0|e] s0] eqn:Hbegin; [|done].
  split.
  - intros fuel. unfold send_message. rewrite Hbegin.
    by rewrite (conversation_goes_on Hstop Hstart Herror Hasking).
  - intros n.
    destruct (rounds_go_on Hstop Hstart Herror Hasking n messages0 s0)
      as (messages & sn & Hrounds & Hlen).
    exists messages0, s0, messages, sn. split; [done|]. split; [done|].
    destruct (begin_turn_history a _ _ _ _ _ Hbegin) as (safe & Hsafe' & Hh0 & _).
    assert (safe = safe_history) as -> by congruence.
    rewrite Hh0, length_app in Hlen. simpl in Hlen. lia.
Qed.

End Extras.

(** *** The token count of a history *)

Lemma rational_add (x y : ContextHandler.number) :
  Qeq (ContextHandler.rational (ContextHandler.add x y))
      (Qplus (ContextHandler.rational x) (ContextHandler.rational y)).
Proof.
  destruct x as [m|p], y as [n|q]; simpl; try reflexivity.
  unfold Qeq, Qplus, inject_Z. simpl. lia.
Qed.

Lemma py_sum_simple (history : list string) (acc : ContextHandler.number) :
  Qeq (ContextHandler.rational
         (foldl ContextHandler.add acc (ContextHandler.get_simple_token_count <$> history)))
      (Qplus (ContextHandler.rational acc)
             (Qmake (Z.of_nat (ContextHandler.total_length history)) 4)).
Proof.
  revert acc. induction history as [|message rest IH]; intros acc; csimpl.
  - unfold Qeq, Qplus. simpl. lia.
  - rewrite IH, rational_add. unfold ContextHandler.total_length. simpl.
    unfold Qeq, Qplus. simpl. lia.
Qed.

Lemma py_sum_float (history : list string) (q : Q) :
  ContextHandler.is_int
    (foldl ContextHandler.add (ContextHandler.PyFloat q)
       (ContextHandler.get_simple_token_count <$> history))
  = false.
Proof. revert q. induction history as [|message rest IH]; intros q; csimpl; [done|]. apply IH. Qed.

(** X10. [get_token_count_from_history] returns a count only for the method
    ["simple"], in any mix of upper and lower case: the count holds a quarter
    of the number of characters of all the messages, and it is the [int] 0
    for the empty history and a float otherwise.  Every other method makes
    it raise: the method ["accurate"] a [TypeError], whatever the history,
    so the tokenizer is never consulted, and any other method the
    [ValueError] that names it. *)
Theorem history_token_count (history : list string) (model method : string) :
  (ContextHandler.lower method = "simple" ->
   exists n,
     ContextHandler.get_token_count_from_history history model method = Return n
     /\ Qeq (ContextHandler.rational n)
            (Qmake (Z.of_nat (ContextHandler.total_length history)) 4)
     /\ ContextHandler.is_int n = match history with
                                  | [] => true
                                  | _ :: _ => false
                                  end)
  /\ (ContextHandler.lower method = "accurate" ->
      exists text,
        ContextHandler.get_token_count_from_history history model method
        = Raise (TypeError text))
  /\ (ContextHandler.lower method <> "simple" ->
      ContextHandler.lower method <> "accurate" ->
      ContextHandler.get_token_count_from_history history model method
      = Raise (ValueError ("Invalid method: " +:+ method))).
Proof.
  unfold ContextHandler.get_token_count_from_history. split; [|split].
  - intros ->. simpl. eexists. split; [done|]. split.
    + unfold ContextHandler.py_sum. rewrite py_sum_simple.
      unfold Qeq, Qplus. simpl. lia.
    + destruct history as [|message rest]; [done|]. apply py_sum_float.
  - intros ->. by eexists.
  - intros Hsimple Haccurate.
    destruct (String.eqb_spec (ContextHandler.lower method) "accurate"); [done|].
    by destruct (String.eqb_spec (ContextHandler.lower method) "simple").
Qed.


(** ** The definitions at work *)

(** When [tiktoken] has an encoding for the model the count is the number of
    tokens, an [int]; when the lookups raise it is the float of the
    fallback. *)
Lemma accurate_token_count_cases `{ContextHandler.Tiktoken} (message model : string) :
  (forall enc tokens,
      ContextHandler.encoding_for_model model = Return enc ->
      ContextHandler.encode enc message = Return tokens ->
      ContextHandler.get_accurate_token_count message model
      = Return (ContextHandler.PyInt (Z.of_nat (length tokens))))
  /\ (forall e e',
        ContextHandler.encoding_for_model model = Raise e ->
        ContextHandler.is_KeyError e = false
        \/ ContextHandler.get_encoding "gpt-4o" = Raise e' ->
        ContextHandler.get_accurate_token_count message model
        = Return (ContextHandler.len_div_4 message)).
Proof.
  unfold ContextHandler.get_accurate_token_count. split.
  - intros enc tokens -> Htokens. simpl. by rewrite Htokens.
  - intros e e' -> [Hcls|Hget]; [by rewrite Hcls|].
    destruct (ContextHandler.is_KeyError e); [by rewrite Hget | done].
Qed.

(** C9. The counters do not return an [int]: [get_simple_token_count] returns
    a float for every message (0.75 for a message of three characters), and
    so does [get_accurate_token_count] when the model is unknown to the
    tokenizer and the fallback is taken. *)
Theorem token_counts_are_floats :
  (forall message, ContextHandler.is_int (ContextHandler.get_simple_token_count message) = false)
  /\ ContextHandler.get_simple_token_count "abc" = ContextHandler.PyFloat (Qmake 3 4)
  /\ ContextHandler.get_accurate_token_count (H := ContextHandler.demo_tiktoken)
       "abc" "my-model"
     = Return (ContextHandler.PyFloat (Qmake 3 4)).
Proof. split; [done|]. split; reflexivity. Qed.


(** C1 on the demo agent: a batch with a good call, an unknown tool, a
    second good call and undecodable arguments. *)
Lemma dispatch_modes_agree_witness :
  exists results,
    (_execute_tools_sequential (demo_agent None true (no_hooks None))
       [weather_call; unknown_call; time_call; broken_call] (demo_state None)).1
    = Return results
    /\ (_execute_tools_concurrent (demo_agent None true (no_hooks None))
         [weather_call; unknown_call; time_call; broken_call] (demo_state None)).1
       = Return results
    /\ (forall sched,
          raise_first
            (gather_with (demo_agent None true (no_hooks None)) sched
               (launch (demo_agent None true (no_hooks None))
                  [weather_call; unknown_call; time_call; broken_call])
               (demo_state None)).1
          = Return results)
    /\ tool_call_id <$> results
       = tc_id <$> registered (demo_agent None true (no_hooks None))
                     [weather_call; unknown_call; time_call; broken_call]
    /\ (Forall (fun tc => is_Some (_tool_map (demo_agent None true (no_hooks None))
                                     !! tc_name tc))
               [weather_call; unknown_call; time_call; broken_call] ->
        tool_call_id <$> results
        = tc_id <$> [weather_call; unknown_call; time_call; broken_call]).
Proof.
  apply (dispatch_modes_agree (demo_agent None true (no_hooks None))).
  - intros cb Hin. inversion Hin.
  - intros cb Hin. inversion Hin.
  - intros cb Hin. inversion Hin.
  - intros tc t _ Hin%tool_map_registry. apply list_elem_of_In in Hin. simpl in Hin.
    destruct Hin as [<-|[<-|[]]]; intros kw w w'; simpl; [reflexivity|].
    destruct (kw !! "city") as [[| | |city| |]|]; reflexivity.
Defined.

(** C2 on the demo agent: the arguments of [broken_call] are no JSON text,
    and the calls that follow it in the batch get their results all the
    same. *)
Lemma tool_failure_becomes_result_witness :
  (_execute_tool (demo_agent None true (no_hooks None)) (get_weather None) broken_call
     (demo_state None)).1
  = Return {| tool_call_id := "call_3"; res_name := "get_weather";
              res_result := VStr "Expecting value" |}
  /\ (_execute_tools_concurrent (demo_agent None true (no_hooks None))
        [broken_call; unknown_call; weather_call; time_call] (demo_state None)).1
     = Return [{| tool_call_id := "call_3"; res_name := "get_weather";
                  res_result := VStr "Expecting value" |};
               {| tool_call_id := "call_2"; res_name := "get_weather";
                  res_result := VStr "Sunny, 22 degrees in Tokyo" |};
               {| tool_call_id := "call_1"; res_name := "get_current_time";
                  res_result := VStr "12:00:00" |}].
Proof.
  assert (Hquiet : forall hook, quiet (demo_agent None true (no_hooks None)) hook).
  { intros hook cb Hin. inversion Hin. }
  destruct (tool_failure_becomes_result (demo_agent None true (no_hooks None))
              (Hquiet _) (Hquiet _)) as (Hone & _ & Hbatch).
  split.
  - apply (Hone (get_weather None) broken_call (demo_state None)
             (Exception "JSONDecodeError" "Expecting value")).
    left. reflexivity.
  - destruct (Hbatch [broken_call; unknown_call; weather_call; time_call] (demo_state None))
      as (results & Hrun & _ & _ & Hserved & _).
    rewrite Hrun. f_equal.
    assert (Hresolved : resolved (demo_agent None true (no_hooks None))
                          [broken_call; unknown_call; weather_call; time_call]
                        = [(get_weather None, broken_call); (get_weather None, weather_call);
                           (get_current_time None, time_call)]).
    { vm_compute. reflexivity. }
    rewrite Hresolved in Hserved.
    apply Forall2_cons_inv_l in Hserved as (r1 & rs1 & (w1 & w1' & ->) & Hserved & ->).
    apply Forall2_cons_inv_l in Hserved as (r2 & rs2 & (w2 & w2' & ->) & Hserved & ->).
    apply Forall2_cons_inv_l in Hserved as (r3 & rs3 & (w3 & w3' & ->) & Hserved & ->).
    apply Forall2_nil_inv_l in Hserved as ->.
    reflexivity.
Defined.

(** C3 on the demo agent: the second entry of the history has no content. *)
Lemma malformed_history_fails_first_witness :
  Exists (fun msg => valid_message msg = false)
         [user_message "Hello"; VDict (dict [("role", VStr "assistant")])]
  /\ exists text payload fault s',
      _validate_history
        (VList [user_message "Hello"; VDict (dict [("role", VStr "assistant")])])
      = Raise (ValueError text)
      /\ send_message (demo_agent None true (no_hooks None)) 3 "What time is it?"
           (VList [user_message "Hello"; VDict (dict [("role", VStr "assistant")])])
           (demo_state None)
         = Some (Raise (match fault with
                        | None => ValueError text
                        | Some e' => e'
                        end), s')
      /\ (quiet (demo_agent None true (no_hooks None)) "on_error" -> fault = None)
      /\ _message_history s' = _message_history (demo_state None)
      /\ new_events (demo_state None) s' = [EvHook "on_error" payload fault]
      /\ (forall messages tools, EvBackend messages tools ∉ new_events (demo_state None) s').
Proof.
  assert (Hbad : Exists (fun msg => valid_message msg = false)
                   [user_message "Hello"; VDict (dict [("role", VStr "assistant")])]).
  { apply Exists_cons. right. apply Exists_cons. left. reflexivity. }
  split; [exact Hbad|].
  exact (malformed_history_fails_first (demo_agent None true (no_hooks None)) 3
           "What time is it?" _ (demo_state None) Hbad).
Defined.

(** C5 on the demo agent: the stop request arrives after the first
    consultation of the monitor. *)
Lemma stop_before_tool_dispatch_witness :
  exists r s',
    send_message (demo_agent (Some 1) true (no_hooks (Some 1))) 1 "What time is it?" VNone
      (demo_state (Some 1))
    = Some (Return r, s')
    /\ stop_reason r = "manual_stop"
    /\ history_messages r
       = [user_message "What time is it?"; assistant_message first_reply].
Proof.
  destruct (stop_before_tool_dispatch (demo_agent (Some 1) true (no_hooks (Some 1))) 0 0
              "What time is it?" VNone []
              [system_message (demo_agent (Some 1) true (no_hooks (Some 1)));
               user_message "What time is it?"]
              [system_message (demo_agent (Some 1) true (no_hooks (Some 1)));
               user_message "What time is it?"]
              (demo_state (Some 1))
              (begin_turn (demo_agent (Some 1) true (no_hooks (Some 1)))
                 "What time is it?" VNone (demo_state (Some 1))).2
              (begin_turn (demo_agent (Some 1) true (no_hooks (Some 1)))
                 "What time is it?" VNone (demo_state (Some 1))).2
              first_reply)
    as (r & s' & Hsend & Hreason & _ & _ & _ & Hfirst).
  - reflexivity.
  - vm_compute. reflexivity.
  - reflexivity.
  - vm_compute. reflexivity.
  - discriminate.
  - reflexivity.
  - intros cb Hin. inversion Hin.
  - intros cb Hin. inversion Hin.
  - exists r, s'. split; [exact Hsend|]. split; [exact Hreason|].
    exact (proj1 (Hfirst eq_refl)).
Defined.

(** C6 on the demo agent: the start hooks of both calls fault, each with a
    text of its own.  The event loop resumes the weather call first, so its
    fault is the first to occur; the dispatch raises the fault of the time
    call, the first in request order, once both tasks have ended. *)
Lemma concurrent_fault_after_all_tasks_witness :
  (_execute_tools_concurrent (demo_agent None true (naming_start_hook None))
     [time_call; weather_call] (demo_state None)).1
  = Raise (Exception "RuntimeError" "start hook of get_current_time")
  /\ finals (new_events (demo_state None)
               (gather (demo_agent None true (naming_start_hook None))
                  (launch (demo_agent None true (naming_start_hook None))
                     [time_call; weather_call])
                  (demo_state None)).2)
     = 2
  /\ head (new_events (demo_state None)
             (gather (demo_agent None true (naming_start_hook None))
                (launch (demo_agent None true (naming_start_hook None))
                   [time_call; weather_call])
                (demo_state None)).2)
     = Some (EvHook "on_function_call_start"
               (call_payload (demo_agent None true (naming_start_hook None)) weather_call)
               (Some (Exception "RuntimeError" "start hook of get_weather")))
  /\ exists x,
       x ∈ resolved (demo_agent None true (naming_start_hook None))
             [time_call; weather_call]
       /\ faults (demo_agent None true (naming_start_hook None)) x
            (Exception "RuntimeError" "start hook of get_current_time").
Proof.
  destruct (concurrent_fault_after_all_tasks (demo_agent None true (naming_start_hook None))
              [time_call; weather_call] (demo_state None))
    as (Hrun & _ & Hfinals & _ & Hfirst & Hblame & _).
  assert (Hraise : raise_first
                     (gather (demo_agent None true (naming_start_hook None))
                        (launch (demo_agent None true (naming_start_hook None))
                           [time_call; weather_call])
                        (demo_state None)).1
                   = Raise (Exception "RuntimeError" "start hook of get_current_time")).
  { apply (Hfirst [] (Exception "RuntimeError" "start hook of get_current_time")
                  [Raise (Exception "RuntimeError" "start hook of get_weather")]).
    vm_compute. reflexivity. }
  split; [rewrite Hrun; exact Hraise|].
  split; [exact Hfinals|].
  split; [vm_compute; reflexivity|].
  destruct (Hblame _ Hraise) as (before & x & after & results & later & Hres & _ & _ & Hx & _).
  exists x. split; [|exact Hx].
  rewrite Hres. apply elem_of_app. right. apply list_elem_of_here.
Defined.

(** C7 on the demo agent: a batch that only names an unknown tool. *)
Lemma unregistered_requests_skipped_witness :
  registered (demo_agent None true (no_hooks None)) [unknown_call] = []
  /\ _execute_tools_sequential (demo_agent None true (no_hooks None)) [unknown_call]
       (demo_state None)
     = (Return [], demo_state None)
  /\ _execute_tools_concurrent (demo_agent None true (no_hooks None)) [unknown_call]
       (demo_state None)
     = (Return [], demo_state None).
Proof.
  destruct (unregistered_requests_skipped (demo_agent None true (no_hooks None))
              [unknown_call] (demo_state None)) as (_ & _ & Hnone & _).
  split; [reflexivity|]. apply Hnone. reflexivity.
Defined.

(** C8 on the demo agent: the history already ends with the message. *)
Lemma prepare_messages_layout_witness :
  _prepare_messages (demo_agent None true (no_hooks None)) "What time is it?"
    (Some [user_message "What time is it?"])
  = Return [system_message (demo_agent None true (no_hooks None));
            user_message "What time is it?"].
Proof.
  refine (proj1 (prepare_messages_layout (demo_agent None true (no_hooks None))
                   "What time is it?" [user_message "What time is it?"] _ _)).
  - intros first [= <-]. reflexivity.
  - intros final [= <-]. reflexivity.
Defined.

(** C10 on the demo agent: the model supplies a [user_id] of its own, the
    tool receives the agent's. *)
Lemma tool_receives_agent_identity_witness :
  EvCall "get_weather"
         (<["agent_name" := VStr "Test_Agent"]>
            (<["chat_id" := VStr "test_chat"]>
               (<["user_id" := VStr "test_user"]>
                  (dict [("city", VStr "Tokyo"); ("user_id", VStr "mallory")]))))
    ∈ new_events (demo_state None)
        (_execute_tool (demo_agent None true (no_hooks None)) (get_weather None)
           weather_call (demo_state None)).2
  /\ (<["agent_name" := VStr "Test_Agent"]>
        (<["chat_id" := VStr "test_chat"]>
           (<["user_id" := VStr "test_user"]>
              (dict [("city", VStr "Tokyo"); ("user_id", VStr "mallory")]))))
       !! "user_id"
     = Some (VStr "test_user").
Proof.
  assert (Hin : EvCall "get_weather"
         (<["agent_name" := VStr "Test_Agent"]>
            (<["chat_id" := VStr "test_chat"]>
               (<["user_id" := VStr "test_user"]>
                  (dict [("city", VStr "Tokyo"); ("user_id", VStr "mallory")]))))
    ∈ new_events (demo_state None)
        (_execute_tool (demo_agent None true (no_hooks None)) (get_weather None)
           weather_call (demo_state None)).2).
  { apply list_elem_of_In. vm_compute. right. left. reflexivity. }
  split; [exact Hin|].
  exact (proj1 (proj2 (tool_receives_agent_identity (demo_agent None true (no_hooks None))
                         (get_weather None) weather_call (demo_state None) _ _ Hin))).
Defined.


(** *** The further properties on the demo agent *)

(** X1: the second entry has no content. *)
Lemma validate_history_reports_first_bad_entry_witness :
  _validate_history
    (VList [user_message "Hello"; VDict (dict [("role", VStr "assistant")])])
  = Raise (ValueError "History messages must have 'content' field").
Proof.
  apply (proj2 (validate_history_reports_first_bad_entry
                  [user_message "Hello"; VDict (dict [("role", VStr "assistant")])])
           [user_message "Hello"] (VDict (dict [("role", VStr "assistant")])) []).
  - reflexivity.
  - apply Forall_cons. split; [reflexivity | apply Forall_nil; exact I].
  - reflexivity.
Defined.

(** X2: a history that was accepted is accepted again. *)
Lemma validate_history_idempotent_witness :
  _validate_history (VList [user_message "Hello"]) = Return [user_message "Hello"]
  /\ _validate_history VNone = Return [].
Proof.
  split.
  - apply (proj1 (validate_history_idempotent (VList [user_message "Hello"]))
             [user_message "Hello"]).
    reflexivity.
  - apply (proj2 (validate_history_idempotent VNone)). reflexivity.
Defined.

(** X4: the city the model names reaches the weather tool. *)
Lemma build_args_keeps_model_arguments_witness :
  exists kw,
    build_args (demo_agent None true (no_hooks None)) weather_call = Return kw
    /\ kw !! "city" = Some (VStr "Tokyo").
Proof.
  destruct (proj1 (build_args_keeps_model_arguments
                     (demo_agent None true (no_hooks None)) weather_call)
              (dict [("city", VStr "Tokyo"); ("user_id", VStr "mallory")]) eq_refl)
    as (kw & Hkw & Hkeep & _).
  exists kw. split; [exact Hkw|].
  rewrite (Hkeep "city"); [reflexivity|].
  intros [Hkey|[Hkey|Hkey]]; discriminate Hkey.
Defined.

(** X6: the start hook of the weather call faults, and the request that
    follows it makes no difference. *)
Lemma sequential_stops_at_fault_witness :
  _execute_tools_sequential (demo_agent None false (failing_start_hook None))
    ([time_call; weather_call] ++ [time_call]) (demo_state None)
  = _execute_tools_sequential (demo_agent None false (failing_start_hook None))
      [time_call; weather_call] (demo_state None).
Proof.
  apply (sequential_stops_at_fault (demo_agent None false (failing_start_hook None))
           [time_call; weather_call] [time_call] (demo_state None)
           (Exception "RuntimeError" "hook failed")).
  vm_compute. reflexivity.
Defined.

(** X7: two calls of the clock under the event loop that does not
    interleave. *)
Lemma concurrent_without_interleaving_witness :
  _execute_tools_concurrent serial_agent [time_call; time_call] serial_state
  = _execute_tools_sequential serial_agent [time_call; time_call] serial_state.
Proof.
  apply (concurrent_without_interleaving serial_agent [time_call; time_call] serial_state).
  - reflexivity.
  - vm_compute. exact I.
Defined.

(** X8: the assistant message without content and the tool message go. *)
Lemma simplify_keeps_visible_messages_witness :
  Forall visible
    [user_message "What time is it?";
     VDict (dict [("role", VStr "assistant"); ("content", VStr "It is 12:00:00.")])].
Proof.
  apply (simplify_keeps_visible_messages
           [user_message "What time is it?";
            VDict (dict [("role", VStr "assistant"); ("content", VNone)]);
            VDict (dict [("role", VStr "tool"); ("tool_call_id", VStr "call_1");
                         ("content", VStr "12:00:00")]);
            VDict (dict [("role", VStr "assistant"); ("content", VStr "It is 12:00:00.")])]).
  vm_compute. reflexivity.
Defined.

(** X10: six characters in two messages. *)
Lemma history_token_count_witness :
  exists n,
    ContextHandler.get_token_count_from_history ["abcd"; "ab"] "gpt-4o" "Simple" = Return n
    /\ Qeq (ContextHandler.rational n) (Qmake 6 4)
    /\ ContextHandler.is_int n = false.
Proof.
  exact (proj1 (history_token_count ["abcd"; "ab"] "gpt-4o" "Simple") eq_refl).
Defined.

(** X11: the turn of the demo agent starts from no history. *)
Lemma turn_history_shape_witness :
  exists r s' added,
    demo_turn None VNone = Some (Return r, s')
    /\ history_messages r = user_message "What time is it?" :: added.
Proof.
  destruct (demo_turn None VNone) as [[[r|e] s']|] eqn:Hturn;
    [|vm_compute in Hturn; discriminate Hturn..].
  destruct (turn_history_shape (demo_agent None true (no_hooks None)) 3
              "What time is it?" VNone (demo_state None) s' r Hturn)
    as (safe & added & Hsafe & Hmsgs & _).
  exists r, s', added. split; [reflexivity|].
  vm_compute in Hsafe. injection Hsafe as <-. exact Hmsgs.
Defined.

(** X12: what the demo turn returns as simplified history is accepted as
    the history of the next turn. *)
Lemma simplified_history_seeds_next_turn_witness :
  exists r s',
    demo_turn None VNone = Some (Return r, s')
    /\ _validate_history (VList (history_simplified r)) = Return (history_simplified r)
    /\ user_message "What time is it?" ∈ history_simplified r.
Proof.
  destruct (demo_turn None VNone) as [[[r|e] s']|] eqn:Hturn;
    [|vm_compute in Hturn; discriminate Hturn..].
  destruct (simplified_history_seeds_next_turn (demo_agent None true (no_hooks None)) 3
              "What time is it?" VNone (demo_state None) s' r Hturn)
    as (Hvalid & Huser & _).
  exists r, s'. split; [reflexivity|]. split; [exact Hvalid | exact Huser].
Defined.

(** X13: the working list of the demo agent after one pass. *)
Lemma working_list_tracks_history_witness :
  exists messages sn,
    rounds (demo_agent None true (no_hooks None)) 1
      [system_message (demo_agent None true (no_hooks None));
       user_message "What time is it?"]
      (tool_schemas (demo_agent None true (no_hooks None)))
      (begin_turn (demo_agent None true (no_hooks None)) "What time is it?" VNone
         (demo_state None)).2
    = Some (messages, sn)
    /\ messages = system_message (demo_agent None true (no_hooks None))
                  :: _message_history sn.
Proof.
  destruct (rounds (demo_agent None true (no_hooks None)) 1 _ _ _)
    as [[messages sn]|] eqn:Hrounds; [|vm_compute in Hrounds; discriminate Hrounds].
  destruct (working_list_tracks_history (demo_agent None true (no_hooks None)) 1
              "What time is it?" VNone
              [system_message (demo_agent None true (no_hooks None));
               user_message "What time is it?"]
              messages (demo_state None)
              (begin_turn (demo_agent None true (no_hooks None)) "What time is it?" VNone
                 (demo_state None)).2
              sn)
    as (safe & _ & _ & Hmessages & _).
  - vm_compute. reflexivity.
  - exact Hrounds.
  - exists messages, sn. split; [reflexivity|].
    assert (Hsys : starts_with_system (_message_history sn) = false).
    { pose proof Hrounds as Hc. vm_compute in Hc. injection Hc as _ <-. reflexivity. }
    rewrite Hsys in Hmessages. exact Hmessages.
Defined.

(** X14: the first backend call of the demo turn. *)
Lemma backend_gets_system_message_and_schemas_witness :
  EvBackend [system_message (demo_agent None true (no_hooks None));
             user_message "What time is it?"]
            (tools_argument (demo_agent None true (no_hooks None)))
    ∈ new_events (demo_state None) (demo_turn_end None VNone)
  /\ starts_with_system
       [system_message (demo_agent None true (no_hooks None));
        user_message "What time is it?"]
     = true.
Proof.
  assert (Hin : EvBackend [system_message (demo_agent None true (no_hooks None));
                           user_message "What time is it?"]
                  (tools_argument (demo_agent None true (no_hooks None)))
                ∈ new_events (demo_state None) (demo_turn_end None VNone)).
  { apply list_elem_of_In. vm_compute. right. left. reflexivity. }
  split; [exact Hin|].
  refine (proj1 (backend_gets_system_message_and_schemas
                   (demo_agent None true (no_hooks None)) 3 "What time is it?" VNone
                   (demo_state None) (demo_turn_end None VNone)
                   (demo_turn_outcome None VNone) _ _ _ Hin)).
  vm_compute. reflexivity.
Defined.

(** X15: the call of the clock in the demo turn. *)
Lemma turn_calls_registered_tools_as_agent_witness :
  EvCall "get_current_time"
         (<["agent_name" := VStr "Test_Agent"]>
            (<["chat_id" := VStr "test_chat"]> (<["user_id" := VStr "test_user"]> ∅)))
    ∈ new_events (demo_state None) (demo_turn_end None VNone)
  /\ exists t, t ∈ tool_registry (demo_agent None true (no_hooks None))
               /\ tool_name t = "get_current_time".
Proof.
  assert (Hin : EvCall "get_current_time"
                  (<["agent_name" := VStr "Test_Agent"]>
                     (<["chat_id" := VStr "test_chat"]>
                        (<["user_id" := VStr "test_user"]> ∅)))
                ∈ new_events (demo_state None) (demo_turn_end None VNone)).
  { apply list_elem_of_In. vm_compute. right. right. right. left. reflexivity. }
  split; [exact Hin|].
  refine (proj1 (turn_calls_registered_tools_as_agent
                   (demo_agent None true (no_hooks None)) 3 "What time is it?" VNone
                   (demo_state None) (demo_turn_end None VNone)
                   (demo_turn_outcome None VNone) _ _ _ Hin)).
  vm_compute. reflexivity.
Defined.

(** X16: a turn of the demo agent on a history that is refused. *)
Lemma on_error_closes_a_raising_turn_witness :
  exists e s' evs payload fault,
    demo_turn None (VList [VStr "Hello"]) = Some (Raise e, s')
    /\ new_events (demo_state None) s' = evs ++ [EvHook "on_error" payload fault].
Proof.
  destruct (demo_turn None (VList [VStr "Hello"])) as [[[r|e] s']|] eqn:Hturn;
    [vm_compute in Hturn; discriminate Hturn| |vm_compute in Hturn; discriminate Hturn].
  destruct (proj1 (proj2 (on_error_closes_a_raising_turn
                            (demo_agent None true (no_hooks None)) 3 "What time is it?"
                            (VList [VStr "Hello"]) (demo_state None) s' (Raise e) Hturn)))
    as (evs & e0 & payload & fault & Hevents & _).
  exists e, s', evs, payload, fault. split; [reflexivity | exact Hevents].
Defined.

(** X17: the demo turn ends on the answer of the model. *)
Lemma completed_turn_ends_on_plain_reply_witness :
  exists r s' resp,
    demo_turn None VNone = Some (Return r, s')
    /\ resp_tool_calls resp = []
    /\ tr_output r = resp_content resp.
Proof.
  destruct (demo_turn None VNone) as [[[r|e] s']|] eqn:Hturn;
    [|vm_compute in Hturn; discriminate Hturn..].
  assert (Hreason : stop_reason r = "completed").
  { pose proof Hturn as Hc. vm_compute in Hc. injection Hc as <- _. reflexivity. }
  destruct (completed_turn_ends_on_plain_reply (demo_agent None true (no_hooks None)) 3
              "What time is it?" VNone (demo_state None) s' r Hturn Hreason)
    as (resp & before & earlier & payload & Hcalls & _ & _ & _ & Hout & _).
  exists r, s', resp. split; [reflexivity|]. split; [exact Hcalls | exact Hout].
Defined.

(** X18: the stop request is there before the first consultation of the
    monitor, and the history that comes back is the user message alone. *)
Lemma stopped_turn_ends_at_stop_point_witness :
  exists r s' k,
    demo_turn (Some 0) VNone = Some (Return r, s')
    /\ @stop_after (demo_externals (Some 0)) = Some k
    /\ k < polls s'.
Proof.
  destruct (demo_turn (Some 0) VNone) as [[[r|e] s']|] eqn:Hturn;
    [|vm_compute in Hturn; discriminate Hturn..].
  assert (Hreason : stop_reason r = "manual_stop").
  { pose proof Hturn as Hc. vm_compute in Hc. injection Hc as <- _. reflexivity. }
  destruct (proj1 (stopped_turn_ends_at_stop_point
                     (demo_agent (Some 0) true (no_hooks (Some 0))) 3
                     "What time is it?" VNone (demo_state (Some 0)) s' r Hturn Hreason))
    as (k & Hstop & Hpolls).
  exists r, s', k. split; [reflexivity|]. split; [exact Hstop | exact Hpolls].
Defined.

(** X19: the backend that always asks for the time. *)
Lemma loop_has_no_pass_limit_witness :
  send_message (asking_agent None) 1000 "What time is it?" VNone (demo_state None) = None.
Proof.
  apply (proj1 (loop_has_no_pass_limit (asking_agent None) "What time is it?" VNone []
                  (demo_state None) eq_refl
                  (fun cb Hin => match proj1 (elem_of_nil cb) Hin with end)
                  (fun cb Hin => match proj1 (elem_of_nil cb) Hin with end)
                  (fun cb Hin => match proj1 (elem_of_nil cb) Hin with end)
                  (fun messages tools w =>
                     ex_intro _ first_reply
                       (conj eq_refl (fun Hnil => eq_ind [time_call]
                                                     (fun l => match l with
                                                               | [] => False
                                                               | _ :: _ => True
                                                               end) I [] Hnil)))
                  eq_refl)).
Defined.
